(** * Node-In-Layers core: globals.ts and libs.ts

    A shallow embedding of the composition and validation code of
    [src/globals.ts] and [src/libs.ts]: JavaScript values as trees, thrown
    errors as a result type, the process-wide logger, the working directory,
    the memo cell of the config loader and the objects that [loadGlobals]
    mutates as explicit state.

    The libraries the code calls are modelled with it: lodash's [get] and
    [merge] (4.17) and loglevel's [setLevel].  What lies outside the program
    (the file system, the module loader, the functions of the apps) is a
    [Host].

    Objects are values, and a nested object is part of the value that holds
    it.  The two objects [loadGlobals] creates and merges into, the common
    context and the accumulator, live in a store and are written in place,
    as [merge] does.  What the store does not hold is the identity of the
    objects nested in them: the config, the logger and the node services
    are held by the common context as values, and a merge that lodash makes
    into one of them in place shows in the value of the common context, not
    in a copy of that object held elsewhere.  The statements below are
    about the records the code builds and returns, and about the logger,
    the working directory, the memo cell and the file system; none is about
    who else sees a nested object change.  A function of an app is given
    the common context as it is and yields its contribution; it changes
    nothing in the process. *)

From Stdlib Require Import String Ascii List ZArith Lia Bool DecimalString DecimalNat.
Import ListNotations.
Open Scope string_scope.
Set Warnings "-register-all".

(** ** JavaScript values *)

Module Js.

(** [Plain] objects are object literals (prototype [Object.prototype]);
    [Instance] objects are everything lodash's [isPlainObject] rejects
    (class instances such as the loglevel root logger). *)
Inductive okind := Plain | Instance.

(** Objects are modelled by value: a nested object is the tree of its own
    properties, in insertion order.  Numbers are the integers (JavaScript
    has those a double holds; see [number_to_string]).  A function is
    opaque and named by [f]; what calling it does is given by the host (see
    [Host]).  An array has its dense elements and, as any JavaScript array
    may, further named properties. *)
Inductive value :=
| VUndefined
| VNull
| VBool (b : bool)
| VNumber (n : Z)
| VString (s : string)
| VFunction (f : string)
| VArray (elems : list value) (named : list (string * value))
| VObject (k : okind) (props : list (string * value)).

Inductive exn :=
| Error (msg : string)
| TypeError (msg : string)
| Rejected (reason : value).

Inductive result (A : Type) :=
| Ok (a : A)
| Throw (e : exn).
Arguments Ok {A} a.
Arguments Throw {A} e.

Definition bind {A B} (r : result A) (k : A -> result B) : result B :=
  match r with
  | Ok a => k a
  | Throw e => Throw e
  end.

Notation "x <- c ;; k" := (bind c (fun x => k))
  (at level 61, c at next level, right associativity).
Notation "c ;;; k" := (bind c (fun _ => k))
  (at level 61, right associativity).

(** [array.forEach(f)] for an [f] that may throw. *)
Fixpoint forEach {A} (f : A -> result unit) (l : list A) : result unit :=
  match l with
  | [] => Ok tt
  | x :: l' => f x ;;; forEach f l'
  end.

Definition is_undefined (v : value) : bool :=
  match v with VUndefined => true | _ => false end.

(** [v == null] *)
Definition nullish (v : value) : bool :=
  match v with VUndefined | VNull => true | _ => false end.

(** [Boolean(v)] *)
Definition truthy (v : value) : bool :=
  match v with
  | VUndefined | VNull => false
  | VBool b => b
  | VNumber n => negb (n =? 0)%Z
  | VString s => negb (s =? "")
  | VFunction _ | VArray _ _ | VObject _ _ => true
  end.

(** [typeof v] *)
Definition typeof (v : value) : string :=
  match v with
  | VUndefined => "undefined"
  | VNull => "object"
  | VBool _ => "boolean"
  | VNumber _ => "number"
  | VString _ => "string"
  | VFunction _ => "function"
  | VArray _ _ | VObject _ _ => "object"
  end.

(** [Array.isArray(v)] *)
Definition isArray (v : value) : bool :=
  match v with VArray _ _ => true | _ => false end.

(** lodash's [isObject]: objects and functions. *)
Definition isObject (v : value) : bool :=
  match v with
  | VFunction _ | VArray _ _ | VObject _ _ => true
  | _ => false
  end.

Definition isFunction (v : value) : bool :=
  match v with VFunction _ => true | _ => false end.

(** *** Property keys *)

Definition string_of_index (i : nat) : string :=
  NilEmpty.string_of_uint (Nat.to_uint i).

(** A key is an array index when it is the canonical decimal numeral of a
    natural number. *)
Definition index_of_string (s : string) : option nat :=
  match NilEmpty.uint_of_string s with
  | Some d =>
      let n := Nat.of_uint d in
      if string_of_index n =? s then Some n else None
  | None => None
  end.

Fixpoint assoc {A} (k : string) (l : list (string * A)) : option A :=
  match l with
  | [] => None
  | (k', v) :: l' => if k' =? k then Some v else assoc k l'
  end.

(** Assignment to a property keeps the place of a key that is there and
    appends a new one. *)
Fixpoint assoc_set {A} (k : string) (v : A) (l : list (string * A))
  : list (string * A) :=
  match l with
  | [] => [(k, v)]
  | (k', v') :: l' =>
      if k' =? k then (k', v) :: l' else (k', v') :: assoc_set k v l'
  end.

(** The members every object inherits from [Object.prototype]. *)
Definition object_prototype_names : list string :=
  [ "constructor"; "hasOwnProperty"; "isPrototypeOf";
    "propertyIsEnumerable"; "toLocaleString"; "toString"; "valueOf";
    "__defineGetter__"; "__defineSetter__"; "__lookupGetter__";
    "__lookupSetter__"; "__proto__" ].

Definition mem_string (k : string) (l : list string) : bool :=
  existsb (String.eqb k) l.

(** What a read of an inherited member yields: the prototype object for
    [__proto__], a builtin function for the rest.  Members of
    [Array.prototype], [String.prototype] and [Function.prototype] are not
    modelled. *)
Definition inherited (k : string) : option value :=
  if mem_string k object_prototype_names then
    Some (if k =? "__proto__" then VObject Instance []
          else VFunction ("Object.prototype." ++ k))
  else None.

(** The [name] of a function.  A function the program is given is known by
    its name, [f]; a builtin member of [Object.prototype] (see [inherited])
    has the name of the member, and the constructor is [Object]. *)
Definition function_name (f : string) : string :=
  match find (fun k => f =? "Object.prototype." ++ k) object_prototype_names
  with
  | Some k => if k =? "constructor" then "Object" else k
  | None => f
  end.

Fixpoint string_nth (s : string) (i : nat) : option value :=
  match s, i with
  | EmptyString, _ => None
  | String c _, O => Some (VString (String c EmptyString))
  | String _ r, S i' => string_nth r i'
  end.

(** The own properties of a value (of its wrapper object for a string).
    Every function has a [name]; the functions of the model are bare
    otherwise: their [length] and [prototype], and properties assigned to a
    function, are not modelled. *)
Definition own (v : value) (k : string) : option value :=
  match v with
  | VObject _ ps => assoc k ps
  | VFunction f => if k =? "name" then Some (VString (function_name f)) else None
  | VArray es nm =>
      match index_of_string k with
      | Some i => nth_error es i
      | None =>
          if k =? "length" then Some (VNumber (Z.of_nat (List.length es)))
          else assoc k nm
      end
  | VString s =>
      match index_of_string k with
      | Some i => string_nth s i
      | None =>
          if k =? "length" then Some (VNumber (Z.of_nat (String.length s)))
          else None
      end
  | _ => None
  end.

(** [v[k]] for a [v] that is not [null] or [undefined]. *)
Definition get_prop (v : value) (k : string) : value :=
  match own v k with
  | Some x => x
  | None =>
      if nullish v then VUndefined
      else match inherited k with
           | Some x => x
           | None => VUndefined
           end
  end.

(** [v[k]] as the language evaluates it: a read on [null] or [undefined]
    throws. *)
Definition read (v : value) (k : string) : result value :=
  if nullish v then
    Throw (TypeError ("Cannot read properties of " ++
                      (if is_undefined v then "undefined" else "null") ++
                      " (reading '" ++ k ++ "')"))
  else Ok (get_prop v k).

(** [k in v] for an object [v]. *)
Definition has_prop (v : value) (k : string) : bool :=
  match own v k with
  | Some _ => true
  | None => match inherited k with Some _ => true | None => false end
  end.

(** *** Conversion to a string *)

Definition decimal (n : Z) : string := NilEmpty.string_of_int (Z.to_int n).

(** The double nearest to a positive integer, ties to even: an integer of
    more than 53 bits keeps its 53 leading bits, rounded. *)
Definition round_double (x : Z) : Z :=
  let bits := (Z.log2 x + 1)%Z in
  if (bits <=? 53)%Z then x
  else
    let sh := (bits - 53)%Z in
    let q := Z.shiftr x sh in
    let r := (x - Z.shiftl q sh)%Z in
    let half := Z.shiftl 1 (sh - 1) in
    let q' := if (half <? r)%Z || ((r =? half)%Z && Z.odd q)
              then (q + 1)%Z else q in
    Z.shiftl q' sh.

(** One round of Number::toString for the double [x] of [d] decimal
    digits: the numbers [s * 10^(d - k)] with [k] digits [s] next to [x],
    below and above, of which one that denotes [x] (has [x] as its nearest
    double) is taken, the closer one of two, the even one of two as close.
    The result is [s] and the number [n] of digits of [s * 10^(n - k)]. *)
Definition shortest_at (x : Z) (d k : nat) : option (Z * nat) :=
  let scale := (10 ^ Z.of_nat (d - k))%Z in
  let lo := (x / scale)%Z in
  let hi := (lo + 1)%Z in
  let denotes (s : Z) := (round_double (s * scale) =? x)%Z in
  let below := (x - lo * scale)%Z in
  let above := (hi * scale - x)%Z in
  let pick :=
    match denotes lo, denotes hi with
    | true, true =>
        if (below <? above)%Z then Some lo
        else if (above <? below)%Z then Some hi
        else Some (if Z.even lo then lo else hi)
    | true, false => Some lo
    | false, true => Some hi
    | false, false => None
    end in
  match pick with
  | Some s =>
      if (s =? 10 ^ Z.of_nat k)%Z then Some ((10 ^ Z.of_nat (k - 1))%Z, S d)
      else Some (s, d)
  | None => None
  end.

(** The fewest digits that denote [x]: [k] is tried from 1 on. *)
Fixpoint shortest (x : Z) (d k fuel : nat) : Z * nat :=
  match fuel with
  | O => (x, d)
  | S fuel' =>
      match shortest_at x d k with
      | Some r => r
      | None => shortest x d (S k) fuel'
      end
  end.

Fixpoint zeros (n : nat) : string :=
  match n with
  | O => ""
  | S n' => String "0" (zeros n')
  end.

(** Number::toString for the integers.  Below 2^53 every integer is a
    double of its own and is written with all its digits.  From there on
    the integer stands for the double nearest to it, which is written with
    the fewest digits that denote it, followed by zeros up to 21 digits and
    in exponent notation beyond; past the largest double it is
    [Infinity]. *)
Definition number_to_string (n : Z) : string :=
  let a := Z.abs n in
  if (a <? 2 ^ 53)%Z then decimal n
  else
    let sign := if (n <? 0)%Z then "-" else "" in
    let x := round_double a in
    if (2 ^ 1024 <=? x)%Z then sign ++ "Infinity"
    else
      let d := String.length (decimal x) in
      let '(s, n) := shortest x d 1 d in
      let digits := decimal s in
      let k := String.length digits in
      if (n <=? 21)%nat then sign ++ digits ++ zeros (n - k)
      else
        sign ++
        match digits with
        | String c EmptyString => String c EmptyString
        | String c rest => String c (String "." rest)
        | EmptyString => EmptyString
        end ++ "e+" ++ decimal (Z.of_nat (n - 1)).

(** String conversion, [`${v}`] and [String(v)], of the values the code
    converts.  An array is its elements joined by commas, [null] and
    [undefined] among them being empty; an object is rendered as
    [Object.prototype.toString] does (a [toString] of its own, which would
    be a function of the host, is not consulted); the text of a function is
    given by its name. *)
Fixpoint to_string (v : value) : string :=
  match v with
  | VUndefined => "undefined"
  | VNull => "null"
  | VBool true => "true"
  | VBool false => "false"
  | VNumber n => number_to_string n
  | VString s => s
  | VFunction f => "function " ++ f ++ "() { [native code] }"
  | VArray es _ =>
      (fix join (es : list value) : string :=
         match es with
         | [] => ""
         | x :: es' =>
             let item := match x with
                         | VUndefined | VNull => ""
                         | _ => to_string x
                         end in
             match es' with
             | [] => item
             | _ :: _ => item ++ "," ++ join es'
             end
         end) es
  | VObject _ _ => "[object Object]"
  end.

End Js.

(** ** lodash: [get] and [merge] *)

Module Lodash.
Import Js.

(** *** [get(object, path)] *)

Definition is_word_char (c : ascii) : bool :=
  let n := nat_of_ascii c in
  (((48 <=? n) && (n <=? 57)) || ((65 <=? n) && (n <=? 90))
   || ((97 <=? n) && (n <=? 122)) || (n =? 95))%nat.

Fixpoint all_chars (p : ascii -> bool) (s : string) : bool :=
  match s with
  | EmptyString => true
  | String c r => p c && all_chars p r
  end.

Fixpoint has_char (c : ascii) (s : string) : bool :=
  match s with
  | EmptyString => false
  | String c' r => (c' =? c)%char || has_char c r
  end.

(** [reIsPlainProp]: only word characters. *)
Definition is_plain_prop (path : string) : bool := all_chars is_word_char path.

(** [reIsDeepProp]: a dot or a bracket.  The bracket and quote syntax of
    lodash paths is not modelled further; no key of the validator has any. *)
Definition is_deep_prop (path : string) : bool :=
  has_char "." path || has_char "[" path.

Definition isKey (path : string) (object : value) : bool :=
  is_plain_prop path || negb (is_deep_prop path)
  || (negb (nullish object) && has_prop object path).

(** [stringToPath]: the segments between dots. *)
Fixpoint split_dots (s : string) (cur : string) : list string :=
  match s with
  | EmptyString => [cur]
  | String c r =>
      if (c =? ".")%char then cur :: split_dots r ""
      else split_dots r (cur ++ String c EmptyString)
  end.

Definition stringToPath (path : string) : list string := split_dots path "".

Definition castPath (path : string) (object : value) : list string :=
  if isKey path object then [path] else stringToPath path.

Fixpoint baseGet (object : value) (path : list string) : value :=
  match path with
  | [] => object
  | k :: path' =>
      if nullish object then VUndefined else baseGet (get_prop object k) path'
  end.

Definition get (object : value) (path : string) : value :=
  if nullish object then VUndefined else baseGet object (castPath path object).

(** *** [merge(object, source)] *)

Definition resize (es : list value) (n : nat) : list value :=
  firstn n es ++ repeat VUndefined (n - List.length es).

Fixpoint set_nth (es : list value) (i : nat) (v : value) : list value :=
  match es, i with
  | [], O => [v]
  | [], S i' => VUndefined :: set_nth [] i' v
  | _ :: es', O => v :: es'
  | e :: es', S i' => e :: set_nth es' i' v
  end.

(** [baseAssignValue]: [object[key] = value] on an object or array.  An
    index past the end of an array leaves holes, read as [undefined]; an
    assignment of something other than a length to [length] is not
    modelled. *)
Definition baseAssignValue (object : value) (key : string) (v : value)
  : value :=
  match object with
  | VObject k ps => VObject k (assoc_set key v ps)
  | VArray es nm =>
      match index_of_string key with
      | Some i => VArray (set_nth es i v) nm
      | None =>
          if key =? "length" then
            match v with
            | VNumber n =>
                if (0 <=? n)%Z then VArray (resize es (Z.to_nat n)) nm
                else object
            | _ => object
            end
          else VArray es (assoc_set key v nm)
      end
  | _ => object
  end.

(** [assignMergeValue]: an [undefined] never replaces a property that is
    there.  The other assignment lodash saves, of a value identical to the
    one read at [key], writes what is read there already. *)
Definition assignMergeValue (object : value) (key : string) (v : value)
  : value :=
  if negb (is_undefined v) then baseAssignValue object key v
  else if negb (has_prop object key) then baseAssignValue object key v
  else object.

Definition safeGet (object : value) (key : string) : value :=
  if (key =? "constructor") && (typeof (get_prop object key) =? "function")
  then VUndefined
  else if key =? "__proto__" then VUndefined
  else get_prop object key.

(** [isArrayLikeObject]: an object, not a function, whose [length] is a
    length. *)
Definition isArrayLikeObject (v : value) : bool :=
  match v with
  | VArray _ _ => true
  | VObject _ _ =>
      match get_prop v "length" with
      | VNumber n => (0 <=? n)%Z
      | _ => false
      end
  | _ => false
  end.

Definition copyArray (v : value) : value :=
  match v with
  | VArray es _ => VArray es []
  | _ =>
      match get_prop v "length" with
      | VNumber n =>
          VArray (map (fun i => get_prop v (string_of_index i))
                      (seq 0 (Z.to_nat n))) []
      | _ => VArray [] []
      end
  end.

(** One step of [baseMerge]'s loop over the keys of the source; [rec] is
    [baseMerge] at [srcValue], applied to the destination chosen by
    [baseMergeDeep]. *)
Definition mergeKey (rec : value -> value) (key : string) (srcValue : value)
    (object : value) : value :=
  if isObject srcValue then
    let objValue := safeGet object key in
    if ((key =? "constructor") && isFunction srcValue) || (key =? "__proto__")
    then assignMergeValue object key VUndefined
    else
      match srcValue with
      | VArray _ _ =>
          let newValue :=
            if isArray objValue then objValue
            else if isArrayLikeObject objValue then copyArray objValue
            else VArray [] [] in
          assignMergeValue object key (rec newValue)
      | VObject Plain _ =>
          let newValue :=
            if negb (isObject objValue) || isFunction objValue
            then VObject Plain []
            else objValue in
          assignMergeValue object key (rec newValue)
      | _ => assignMergeValue object key srcValue
      end
  else assignMergeValue object key srcValue.

(** [baseMerge(object, source)], returning the destination as it is after
    the merge.  The cycle stack of lodash has nothing to do on trees. *)
Fixpoint baseMerge (source : value) (object : value) {struct source} : value :=
  match source with
  | VObject _ ps =>
      (fix props (ps : list (string * value)) (object : value) : value :=
         match ps with
         | [] => object
         | (k, sv) :: ps' => props ps' (mergeKey (baseMerge sv) k sv object)
         end) ps object
  | VArray es nm =>
      let object' :=
        (fix elems (es : list value) (i : nat) (object : value) : value :=
           match es with
           | [] => object
           | sv :: es' =>
               elems es' (S i)
                     (mergeKey (baseMerge sv) (string_of_index i) sv object)
           end) es 0 object in
      (fix props (ps : list (string * value)) (object : value) : value :=
         match ps with
         | [] => object
         | (k, sv) :: ps' => props ps' (mergeKey (baseMerge sv) k sv object)
         end) nm object'
  | VString s =>
      (fix chars (s : string) (i : nat) (object : value) : value :=
         match s with
         | EmptyString => object
         | String c r =>
             chars r (S i)
                   (assignMergeValue object (string_of_index i)
                                     (VString (String c EmptyString)))
         end) s 0 object
  | _ => object
  end.

(** The loops of [baseMerge] by name, for the equations of [baseMerge]. *)
Fixpoint merge_props (ps : list (string * value)) (object : value) : value :=
  match ps with
  | [] => object
  | (k, sv) :: ps' => merge_props ps' (mergeKey (baseMerge sv) k sv object)
  end.

Fixpoint merge_elems (es : list value) (i : nat) (object : value) : value :=
  match es with
  | [] => object
  | sv :: es' =>
      merge_elems es' (S i)
                  (mergeKey (baseMerge sv) (string_of_index i) sv object)
  end.

(** [merge(object, source)]: a falsy source is skipped. *)
Definition merge (object source : value) : value :=
  if truthy source then baseMerge source object else object.

End Lodash.

(** ** libs.ts *)

Module Libs.
Import Js.

Definition configHasKey (key : string) (config : value) : result unit :=
  if is_undefined (Lodash.get config key)
  then Throw (Error (key ++ " was not found in config"))
  else Ok tt.

Definition configItemIsArray (key : string) (config : value) : result unit :=
  if negb (isArray (Lodash.get config key))
  then Throw (Error (key ++ " must be an array"))
  else Ok tt.

Definition configItemIsType (key type : string) (config : value)
  : result unit :=
  let theType := typeof (Lodash.get config key) in
  if negb (theType =? type)
  then Throw (Error (key ++ " must be of type " ++ type))
  else Ok tt.

Definition _getNamespaceProperty (namespace property : string) : string :=
  namespace ++ "." ++ property.

(** The callback of [allAppsHaveAName], run by [find] on every app since it
    never returns true. *)
Definition appHasAName (app : value) : result unit :=
  name <- read app "name" ;;
  if is_undefined name
  then Throw (Error "A configured app does not have a name.")
  else Ok tt.

Section WithRoot.
(** [CoreNamespace.root] of types.ts. *)
Variable root : string.

(** [config[root]?.apps.find(...)]: the optional chain stops at a missing
    root; [find] exists on arrays only (a [find] member of another kind
    of value is not modelled). *)
Definition allAppsHaveAName (config : value) : result bool :=
  r <- read config root ;;
  if nullish r then Ok true
  else
    match get_prop r "apps" with
    | VArray apps _ => forEach appHasAName apps ;;; Ok true
    | VUndefined =>
        Throw (TypeError "Cannot read properties of undefined (reading 'find')")
    | VNull =>
        Throw (TypeError "Cannot read properties of null (reading 'find')")
    | _ => Throw (TypeError "config[root].apps.find is not a function")
    end.

Definition _configItemsToCheck : list (value -> result unit) :=
  [ configHasKey "environment";
    configHasKey "systemName";
    configHasKey (_getNamespaceProperty root "apps");
    configItemIsArray (_getNamespaceProperty root "apps");
    configHasKey (_getNamespaceProperty root "layerOrder");
    configItemIsArray (_getNamespaceProperty root "layerOrder");
    (fun config => allAppsHaveAName config ;;; Ok tt);
    configItemIsType (_getNamespaceProperty root "logLevel") "string";
    configItemIsType (_getNamespaceProperty root "logFormat") "string" ].

Definition validateConfig (config : value) : result unit :=
  forEach (fun x => x config) _configItemsToCheck.

Definition isConfig (obj : value) : bool :=
  if typeof obj =? "string" then false
  else truthy (Lodash.get obj (_getNamespaceProperty root "layerOrder")).
End WithRoot.

(** [allLayers.reduce((acc, layer, index) => ..., init)] *)
Fixpoint reduce_index {A B} (f : B -> A -> nat -> B) (l : list A)
    (index : nat) (acc : B) : B :=
  match l with
  | [] => acc
  | x :: l' => reduce_index f l' (S index) (f acc x index)
  end.

(** [allLayers.slice(start)] as an array of strings. *)
Definition slice (allLayers : list string) (start : nat) : value :=
  VArray (map VString (skipn start allLayers)) [].

Definition layerToChoices (allLayers : list string) : value :=
  reduce_index
    (fun acc layer index =>
       Lodash.merge acc (VObject Plain [(layer, slice allLayers (index + 1))]))
    allLayers 0 (VObject Plain []).

Definition getLayersUnavailable (allLayers : list string) (layer : string)
  : result value :=
  let choices := get_prop (layerToChoices allLayers) layer in
  if negb (truthy choices)
  then Throw (Error (layer ++ " is not a valid layer choice"))
  else Ok choices.

Definition getNamespace (packageName : string) (app : option string)
  : string :=
  match app with
  | Some a => if negb (a =? "") then packageName ++ "/" ++ a else packageName
  | None => packageName
  end.

End Libs.

(** ** loglevel: the process-wide root logger *)

Module Loglevel.
Import Js.

(** Modelled from the spec: the [LogFormat] enum of types.ts, whose members
    the spec gives as json, simple and full. *)
Inductive LogFormat := json | simple | full.

Definition LogFormat_value (f : LogFormat) : string :=
  match f with
  | json => "json"
  | simple => "simple"
  | full => "full"
  end.

(** The logger is one object for the whole process: its threshold, the
    chain of method factories installed on it (outermost wrapper first) and
    the chain its current logging methods were built from. *)
Record Logger := mkLogger {
  level : Z;
  methodFactory : list LogFormat;
  methods : list LogFormat
}.

(** loglevel starts at WARN with its own factory. *)
Definition initial : Logger := mkLogger 3 [] [].

Definition levels : list (string * Z) :=
  [("TRACE", 0); ("DEBUG", 1); ("INFO", 2); ("WARN", 3); ("ERROR", 4);
   ("SILENT", 5)]%Z.

Definition upper_char (c : ascii) : ascii :=
  let n := nat_of_ascii c in
  if ((97 <=? n) && (n <=? 122))%nat then ascii_of_nat (n - 32) else c.

Fixpoint toUpperCase (s : string) : string :=
  match s with
  | EmptyString => EmptyString
  | String c r => String (upper_char c) (toUpperCase r)
  end.

(** loglevel's reading of a level: a level name in any case, or a number
    from 0 to SILENT; anything else makes [setLevel] throw. *)
Definition normalizeLevel (input : value) : result Z :=
  let lvl :=
    match input with
    | VString s =>
        match assoc (toUpperCase s) levels with
        | Some n => VNumber n
        | None => input
        end
    | _ => input
    end in
  match lvl with
  | VNumber n =>
      if ((0 <=? n) && (n <=? 5))%Z then Ok n
      else Throw (TypeError ("log.setLevel() called with invalid level: "
                             ++ to_string input))
  | _ => Throw (TypeError ("log.setLevel() called with invalid level: "
                           ++ to_string input))
  end.

(** [log.rebuild()] *)
Definition rebuild (l : Logger) : Logger :=
  mkLogger (level l) (methodFactory l) (methodFactory l).

(** [log.setLevel(input)]: the logger is changed only when the level is
    one. *)
Definition setLevel (input : value) (l : Logger) : result unit * Logger :=
  match normalizeLevel input with
  | Ok n => (Ok tt, rebuild (mkLogger n (methodFactory l) (methods l)))
  | Throw e => (Throw e, l)
  end.

(** [log.methodFactory = function ... originalFactory ...]: the new factory
    wraps the one that was installed. *)
Definition wrapFactory (f : LogFormat) (l : Logger) : Logger :=
  mkLogger (level l) (f :: methodFactory l) (methods l).

(** The reference to the root logger that [configureLogging] returns; what
    the logger holds is the [Logger] of the process state. *)
Definition log : value := VObject Instance [].

End Loglevel.

(** ** globals.ts *)

Module Globals.
Import Js.

(** What the process does outside the program: calls to the file system
    and the module loader, in the order they happen.  [Chdir dir] is a call
    of [process.chdir(dir)], whether it returns or throws. *)
Inductive Effect :=
| Chdir (dir : string)
| ExistsSync (path : string)
| Import (path : string).

(** The external collaborators: path resolution, the files that exist, the
    module a path loads as, the [node:fs] module object, what calling (and
    awaiting) a function value yields, and what [process.chdir] does with a
    directory: it returns, or throws (ENOENT for a directory that is not
    there).  A host is one file system: a file is seen in a directory only
    when the directory is there to be entered (names that lead out of the
    directory again, through [..], are not considered). *)
Record Host := mkHost {
  path_resolve : string -> string;
  fs_existsSync : string -> bool;
  import_module : string -> result value;
  nodeFS : value;
  call : string -> list value -> result value;
  process_chdir : string -> result unit;
  directory_of_file : forall dir file : string,
      fs_existsSync (path_resolve (dir ++ "/" ++ file)) = true ->
      process_chdir dir = Ok tt
}.

(** Modelled from the spec: the cell of [memoizeValue] (utils.ts, not among
    the sources).  The routine executes at most once per process and every
    caller, concurrent first callers included, observes the same single
    outcome: the cell is empty until the first call, then holds the one
    promise of the routine, pending and later settled. *)
Inductive MemoCell :=
| NotCalled
| InFlight (fullPath : option string)
| Settled (outcome : result value).

(** The mutable state of the process: the root logger, the working
    directory, the memo cell of [_loadConfig], the objects [loadGlobals]
    creates and mutates (by location) and the effects so far. *)
Record Process := mkProcess {
  logger : Loglevel.Logger;
  cwd : string;
  configCache : MemoCell;
  heap : list value;
  effects : list Effect
}.

Definition M (A : Type) : Type := Process -> result A * Process.

Definition ret {A} (a : A) : M A := fun p => (Ok a, p).

Definition throw {A} (e : exn) : M A := fun p => (Throw e, p).

Definition bindM {A B} (m : M A) (k : A -> M B) : M B :=
  fun p =>
    match m p with
    | (Ok a, p') => k a p'
    | (Throw e, p') => (Throw e, p')
    end.

Definition lift {A} (r : result A) : M A := fun p => (r, p).

Notation "x <~ c ;; k" := (bindM c (fun x => k))
  (at level 61, c at next level, right associativity).
Notation "c ;;~ k" := (bindM c (fun _ => k))
  (at level 61, right associativity).
Notation "' pat <~ c ;; k" := (bindM c (fun x => match x with pat => k end))
  (at level 61, pat pattern, c at next level, right associativity).

Definition set_logger (l : Loglevel.Logger) (p : Process) : Process :=
  mkProcess l (cwd p) (configCache p) (heap p) (effects p).
Definition set_cwd (d : string) (p : Process) : Process :=
  mkProcess (logger p) d (configCache p) (heap p) (effects p).
Definition set_configCache (c : MemoCell) (p : Process) : Process :=
  mkProcess (logger p) (cwd p) c (heap p) (effects p).
Definition set_heap (h : list value) (p : Process) : Process :=
  mkProcess (logger p) (cwd p) (configCache p) h (effects p).
Definition emit (e : Effect) (p : Process) : Process :=
  mkProcess (logger p) (cwd p) (configCache p) (heap p) (effects p ++ [e]).

(** A new object: its location is the next free one. *)
Definition alloc (v : value) : M nat :=
  fun p => (Ok (List.length (heap p)), set_heap (heap p ++ [v]) p).

Definition deref (l : nat) : M value :=
  fun p => (Ok (nth l (heap p) VUndefined), p).

Fixpoint list_set (h : list value) (l : nat) (v : value) : list value :=
  match h, l with
  | [], _ => []
  | _ :: h', O => v :: h'
  | x :: h', S l' => x :: list_set h' l' v
  end.

(** [merge(object, source)] on the object at location [l]: lodash writes
    into [object] itself and returns it.  The objects nested in [object]
    are part of its value: where lodash merges into one of them in place
    (a record or an array of the source meeting an object at the same key),
    the value at [l] has the merged object at that key.  That the nested
    object may be reachable from elsewhere as well (the config from its
    caller, the logger and [node:fs] from every module) is not part of the
    store, which holds the objects [loadGlobals] creates. *)
Definition merge_into (l : nat) (source : value) : M nat :=
  fun p =>
    (Ok l,
     set_heap (list_set (heap p) l
                        (Lodash.merge (nth l (heap p) VUndefined) source)) p).

(** Modelled from the spec: a call of the function [memoizeValue] returns
    (utils.ts, not among the sources).  The first call starts the routine,
    which runs up to its first suspension and leaves its promise in the
    cell; every call, the first and the later ones, gets the promise that
    is in the cell, and no later call runs anything. *)
Definition memoized_call (begin : M (option string)) (p : Process) : Process :=
  match configCache p with
  | NotCalled =>
      let '(r, p') := begin p in
      match r with
      | Ok suspended => set_configCache (InFlight suspended) p'
      | Throw e => set_configCache (Settled (Throw e)) p'
      end
  | _ => p
  end.

(** Modelled from the spec: the one pending routine under [memoizeValue]
    is resumed, runs to its end and settles the promise in the cell, for
    every caller at once. *)
Definition memoized_settle (rest : option string -> M value) (p : Process)
  : Process :=
  match configCache p with
  | InFlight suspended =>
      let '(r, p') := rest suspended p in
      set_configCache (Settled r) p'
  | _ => p
  end.

Record GlobalsServicesProps := mkProps {
  environment : string;
  workingDirectory : string;
  nodeOverrides : option value
}.

Section Services.
Variable root : string.
Variable host : Host.
Variable props : GlobalsServicesProps.

Definition useFormat (f : Loglevel.LogFormat) : M unit :=
  fun p =>
    (Ok tt, set_logger (Loglevel.rebuild (Loglevel.wrapFactory f (logger p))) p).

Definition useFullLogFormat : M unit := useFormat Loglevel.full.
Definition useJsonLogFormat : M unit := useFormat Loglevel.json.
Definition useSimpleLogFormat : M unit := useFormat Loglevel.simple.

Definition log_setLevel (input : value) : M unit :=
  fun p =>
    let '(r, l) := Loglevel.setLevel input (logger p) in (r, set_logger l p).

Definition configureLogging (config : value) : M value :=
  r <~ lift (read config root) ;;
  logLevel <~ lift (read r "logLevel") ;;
  log_setLevel logLevel ;;~
  r' <~ lift (read config root) ;;
  logFormat <~ lift (read r' "logFormat") ;;
  match logFormat with
  | VString s =>
      if s =? Loglevel.LogFormat_value Loglevel.json
      then useJsonLogFormat ;;~ ret Loglevel.log
      else if s =? Loglevel.LogFormat_value Loglevel.simple
      then useSimpleLogFormat ;;~ ret Loglevel.log
      else if s =? Loglevel.LogFormat_value Loglevel.full
      then useFullLogFormat ;;~ ret Loglevel.log
      else throw (Error ("LogFormat " ++ to_string logFormat
                         ++ " is not supported"))
  | _ => throw (Error ("LogFormat " ++ to_string logFormat
                       ++ " is not supported"))
  end.

(** [extensions.map(resolve).find(existsSync)]: every candidate is
    resolved; the files are probed in order up to the first that exists. *)
Fixpoint find_existing (paths : list string) : M (option string) :=
  match paths with
  | [] => ret None
  | path :: paths' =>
      fun p =>
        let p' := emit (ExistsSync path) p in
        if fs_existsSync host path then (Ok (Some path), p')
        else find_existing paths' p'
  end.

Definition _findConfigPath : M (option string) :=
  let extensions := ["mjs"; "js"] in
  find_existing
    (map (fun e => path_resolve host
                     (workingDirectory props ++ "/config."
                      ++ environment props ++ "." ++ e))
         extensions).

(** [process.chdir(dir)]: the working directory is changed when the host
    has the directory; otherwise the call throws and it stays. *)
Definition chdir (dir : string) : M unit :=
  fun p =>
    let p' := emit (Chdir dir) p in
    match process_chdir host dir with
    | Ok _ => (Ok tt, set_cwd dir p')
    | Throw e => (Throw e, p')
    end.

(** The routine under [memoizeValue], up to its first suspension: the
    working directory is changed and the config path looked up.  An error
    of [process.chdir] ends the routine: it rejects with it. *)
Definition _loadConfig_begin : M (option string) :=
  chdir (workingDirectory props) ;;~
  _findConfigPath.

(** [await func()] *)
Definition call_value (func : value) (args : list value) (what : string)
  : result value :=
  match func with
  | VFunction f => call host f args
  | _ => Throw (TypeError (what ++ " is not a function"))
  end.

(** The rest of the routine: the module is imported, its export called
    and the config validated. *)
Definition _loadConfig_rest (fullPath : option string) : M value :=
  match fullPath with
  | Some path =>
      if path =? "" then
        throw (Error ("Could not find a config." ++ environment props
                      ++ " for mjs, or js."))
      else
        module <~ (fun p => (import_module host path, emit (Import path) p)) ;;
        let func :=
          if truthy (get_prop module "default")
          then get_prop module "default" else module in
        config <~ lift (call_value func [] "func") ;;
        lift (Libs.validateConfig root config) ;;~
        ret config
  | None =>
      throw (Error ("Could not find a config." ++ environment props
                    ++ " for mjs, or js."))
  end.

(** [const _loadConfig = memoizeValue(async () => ...)]: a call, and the
    routine resumed after its suspension. *)
Definition _loadConfig_call : Process -> Process :=
  memoized_call _loadConfig_begin.

Definition _loadConfig_settle : Process -> Process :=
  memoized_settle _loadConfig_rest.




(** [await loadConfig()] with nothing else running in between. *)
Definition loadConfig : M value :=
  fun p =>
    let p' := _loadConfig_settle (_loadConfig_call p) in
    match configCache p' with
    | Settled r => (r, p')
    | _ => (Throw (Error "unreachable: the promise is settled"), p')
    end.

Definition getConstants : value :=
  VObject Plain [("workingDirectory", VString (workingDirectory props));
                 ("environment", VString (environment props))].

Definition getNodeServices : value :=
  Lodash.merge (VObject Plain [("fs", nodeFS host)])
               (match nodeOverrides props with
                | Some o => if truthy o then o else VObject Plain []
                | None => VObject Plain []
                end).

Definition getGlobals (commonGlobals app : value) : result value :=
  g <- read app "globals" ;;
  if truthy g
  then call_value (get_prop g "create") [commonGlobals] "app.globals.create"
  else Ok (VObject Plain []).
End Services.

Section Features.
Variable root : string.
Variable host : Host.
Variable props : GlobalsServicesProps.

(** The body of the reducer of [loadGlobals] for one app: the contribution
    of the app is awaited, then merged into the accumulator. *)
Definition foldApp (commonGlobals acc : nat) (app : value) : M nat :=
  cg <~ deref commonGlobals ;;
  dep <~ lift (getGlobals host cg app) ;;
  merge_into acc dep.

(** [apps.reduce(async (accP, app) => ..., Promise.resolve({}))]: each
    body awaits the one before, so a rejection skips the apps after it. *)
Fixpoint foldApps (commonGlobals acc : nat) (apps : list value) : M nat :=
  match apps with
  | [] => ret acc
  | app :: apps' =>
      acc' <~ foldApp commonGlobals acc app ;;
      foldApps commonGlobals acc' apps'
  end.

(** [config[root].apps.reduce]: on an array; the validation before it has
    made sure it is one. *)
Definition config_apps (config : value) : result (list value) :=
  r <- read config root ;;
  apps <- read r "apps" ;;
  match apps with
  | VArray es _ => Ok es
  | _ => Throw (TypeError "config[root].apps.reduce is not a function")
  end.

(** [loadGlobals] up to the end of the fold over the apps: the locations
    of the common context and of the accumulated globals. *)
Definition loadGlobals_fold (environmentOrConfig : value) : M (nat * nat) :=
  config <~ (if Libs.isConfig root environmentOrConfig
             then ret environmentOrConfig
             else loadConfig root host props) ;;
  lift (Libs.validateConfig root config) ;;~
  log <~ configureLogging root config ;;
  commonGlobals <~ alloc (VObject Plain
                            [("config", config);
                             ("log", log);
                             ("node", getNodeServices host props);
                             ("constants", getConstants props)]) ;;
  apps <~ lift (config_apps config) ;;
  acc <~ alloc (VObject Plain []) ;;
  globals <~ foldApps commonGlobals acc apps ;;
  ret (commonGlobals, globals).

Definition loadGlobals (environmentOrConfig : value) : M nat :=
  '(commonGlobals, globals) <~ loadGlobals_fold environmentOrConfig ;;
  g <~ deref globals ;;
  merge_into commonGlobals g.
End Features.

End Globals.

(** ** Vocabulary of the statements *)

Module Spec.
Import Js.

(** A message mentions a path or a name when it has it as a substring. *)
Definition mentions (what msg : string) : Prop :=
  exists pre post, msg = pre ++ what ++ post.

(** The table [getLayersUnavailable] is to precompute: each layer of
    [rest], the layers from position [index] of [allLayers] on, with the
    layers after it. *)
Fixpoint table_from (allLayers rest : list string) (index : nat)
  : list (string * value) :=
  match rest with
  | [] => []
  | layer :: rest' =>
      (layer, Libs.slice allLayers (index + 1))
        :: table_from allLayers rest' (S index)
  end.

(** What each of the nine checks of the validator is about, in order. *)
Definition check_subject (root : string) : list string :=
  [ "environment";
    "systemName";
    Libs._getNamespaceProperty root "apps";
    Libs._getNamespaceProperty root "apps";
    Libs._getNamespaceProperty root "layerOrder";
    Libs._getNamespaceProperty root "layerOrder";
    "name";
    Libs._getNamespaceProperty root "logLevel";
    Libs._getNamespaceProperty root "logFormat" ].

Definition passes (c : value) (chk : value -> result unit) : Prop :=
  chk c = Ok tt.

(** An app has a name when reading [app.name] gives something other than
    [undefined]. *)
Definition has_name (app : value) : Prop :=
  nullish app = false /\ get_prop app "name" <> VUndefined.

(** What the checks ask of a candidate, in the words of the spec: a key is
    present when [get] finds something other than [undefined] at its path,
    and the apps are named when the root namespace, if the candidate has
    one, holds an array of apps that all have a name. *)
Definition present (c : value) (path : string) : Prop :=
  Lodash.get c path <> VUndefined.

Definition array_at (c : value) (path : string) : Prop :=
  exists es nm, Lodash.get c path = VArray es nm.

Definition string_at (c : value) (path : string) : Prop :=
  exists s, Lodash.get c path = VString s.

Definition apps_named (root : string) (c : value) : Prop :=
  nullish (get_prop c root) = true
  \/ exists apps nm,
       get_prop (get_prop c root) "apps" = VArray apps nm
       /\ Forall has_name apps.

(** The nine things asked, in the order of the spec. *)
Definition check_asks (root : string) (c : value) : list Prop :=
  [ present c "environment";
    present c "systemName";
    present c (Libs._getNamespaceProperty root "apps");
    array_at c (Libs._getNamespaceProperty root "apps");
    present c (Libs._getNamespaceProperty root "layerOrder");
    array_at c (Libs._getNamespaceProperty root "layerOrder");
    apps_named root c;
    string_at c (Libs._getNamespaceProperty root "logLevel");
    string_at c (Libs._getNamespaceProperty root "logFormat") ].

(** The message of the descriptive error of each check. *)
Definition check_error (root : string) : list string :=
  [ "environment was not found in config";
    "systemName was not found in config";
    Libs._getNamespaceProperty root "apps" ++ " was not found in config";
    Libs._getNamespaceProperty root "apps" ++ " must be an array";
    Libs._getNamespaceProperty root "layerOrder" ++ " was not found in config";
    Libs._getNamespaceProperty root "layerOrder" ++ " must be an array";
    "A configured app does not have a name.";
    Libs._getNamespaceProperty root "logLevel" ++ " must be of type string";
    Libs._getNamespaceProperty root "logFormat" ++ " must be of type string" ].

(** The TypeError of a read of [key] on [null] or [undefined]. *)
Definition cannot_read (v : value) (key : string) : exn :=
  TypeError ("Cannot read properties of "
             ++ (if is_undefined v then "undefined" else "null")
             ++ " (reading '" ++ key ++ "')").

(** [mentions], decided. *)
Fixpoint starts_with (what msg : string) : bool :=
  match what, msg with
  | EmptyString, _ => true
  | String a what', String b msg' => (a =? b)%char && starts_with what' msg'
  | String _ _, EmptyString => false
  end.

Fixpoint mentionsb (what msg : string) : bool :=
  starts_with what msg
  || match msg with
     | EmptyString => false
     | String _ msg' => mentionsb what msg'
     end.

(** The candidate paths of the config file, in the order they are tried. *)
Definition config_paths (host : Globals.Host)
    (props : Globals.GlobalsServicesProps) : list string :=
  map (fun e => Globals.path_resolve host
                  (Globals.workingDirectory props ++ "/config."
                   ++ Globals.environment props ++ "." ++ e))
      ["mjs"; "js"].

(** How many times the routine under the memo has been started, and how
    many modules have been imported. *)
Definition starts (es : list Globals.Effect) : nat :=
  List.length (filter (fun e => match e with Globals.Chdir _ => true
                                           | _ => false end) es).

Definition imports (es : list Globals.Effect) : nat :=
  List.length (filter (fun e => match e with Globals.Import _ => true
                                           | _ => false end) es).

(** The values [merge] writes at [key] as they are: [null], booleans,
    numbers, strings, functions and objects that are no plain records.
    [undefined] is not written where the key is there, and an array or a
    plain record is not written as it is but merged, index by index or key
    by key, into what the destination has (see [merged_at]); lodash takes a
    function out under [constructor] and every function, array and object
    under [__proto__]. *)
Definition is_leaf_at (key : string) (v : value) : bool :=
  match v with
  | VUndefined | VArray _ _ | VObject Plain _ => false
  | VFunction _ => negb (key =? "constructor") && negb (key =? "__proto__")
  | VObject Instance _ => negb (key =? "__proto__")
  | _ => true
  end.

(** What the destination of a merge has at a key, for the merge: lodash
    does not look at what is under [__proto__], nor at a function under
    [constructor]. *)
Definition destination_at (object : value) (key : string) : value :=
  if key =? "__proto__" then VUndefined
  else
    match get_prop object key with
    | VFunction f => if key =? "constructor" then VUndefined else VFunction f
    | x => x
    end.

(** What an array of the source is merged into: the array the destination
    has at the key; the elements of an object with a length, the indices
    below the length read one by one; or a new array. *)
Definition array_destination (objValue : value) : value :=
  match objValue with
  | VArray _ _ => objValue
  | VObject _ _ =>
      match get_prop objValue "length" with
      | VNumber n =>
          if (0 <=? n)%Z
          then VArray (map (fun i => get_prop objValue (string_of_index i))
                           (seq 0 (Z.to_nat n))) []
          else VArray [] []
      | _ => VArray [] []
      end
  | _ => VArray [] []
  end.

(** What a record of the source is merged into: the object or array the
    destination has at the key, or a new record when it has none there (a
    function is none). *)
Definition record_destination (objValue : value) : value :=
  match objValue with
  | VArray _ _ | VObject _ _ => objValue
  | _ => VObject Plain []
  end.

(** The value [merge(object, source)] leaves at [key] of [object] when the
    source has [v] there.  A value written as it is replaces what was
    there.  An [undefined] keeps what is there; so does what lodash takes
    out (a function under [constructor]; a function, array or object under
    [__proto__]).  An array and a record are merged in turn, into what the
    destination has at the key. *)
Definition merged_at (object : value) (key : string) (v : value) : value :=
  if is_leaf_at key v then v
  else if is_undefined v || isFunction v || (key =? "__proto__")
  then get_prop object key
  else
    match v with
    | VArray _ _ =>
        Lodash.merge (array_destination (destination_at object key)) v
    | _ =>
        Lodash.merge (record_destination (destination_at object key)) v
    end.

(** The same as the own property the destination is left with: where the
    merge keeps what is there, a key that is not there (nor inherited) is
    defined, as [undefined]. *)
Definition merged_own (object : value) (key : string) (v : value)
  : option value :=
  if negb (is_leaf_at key v)
     && (is_undefined v || isFunction v || (key =? "__proto__"))
  then (if has_prop object key then own object key else Some VUndefined)
  else Some (merged_at object key v).

(** What [merge] leaves at an index of an array of the destination when the
    source has [v] there; [o] is the element the destination has, if the
    index is within it. *)
Definition merged_elem (o : option value) (v : value) : value :=
  let objValue := match o with Some x => x | None => VUndefined end in
  match v with
  | VUndefined => objValue
  | VArray _ _ => Lodash.merge (array_destination objValue) v
  | VObject Plain _ => Lodash.merge (record_destination objValue) v
  | _ => v
  end.

(** An array of the source merged into an array of the destination, index
    by index: the destination keeps the elements past the end of the
    source, and grows to the length of the source. *)
Fixpoint merge_elements (des ses : list value) : list value :=
  match ses with
  | [] => des
  | s :: ses' =>
      match des with
      | [] => merged_elem None s :: merge_elements [] ses'
      | d :: des' => merged_elem (Some d) s :: merge_elements des' ses'
      end
  end.

(** The common context as [loadGlobals] builds it. *)
Definition commonGlobals_of (host : Globals.Host)
    (props : Globals.GlobalsServicesProps) (config log : value) : value :=
  VObject Plain [("config", config);
                 ("log", log);
                 ("node", Globals.getNodeServices host props);
                 ("constants", Globals.getConstants props)].

(** A record: an object whose keys are distinct, as the keys of a
    JavaScript object are. *)
Definition is_record (v : value) : Prop :=
  exists k ps, v = VObject k ps /\ NoDup (map fst ps).



(** The formats [configureLogging] has a case for. *)
Definition supported_format (v : value) : bool :=
  match v with
  | VString s =>
      existsb (fun f => s =? Loglevel.LogFormat_value f)
              [Loglevel.json; Loglevel.simple; Loglevel.full]
  | _ => false
  end.

End Spec.

(** ** Sample inputs *)

Module Examples.
Import Js.

(** The root namespace of the package. *)
Definition core_root : string := "@node-in-layers/core".

Definition app_named (name : value) : value :=
  VObject Plain [("name", name)].

Definition app_unnamed : value := VObject Plain [].

(** An app with a globals factory, the function named [f]. *)
Definition app_with_globals (name f : string) : value :=
  VObject Plain [("name", VString name);
                 ("globals", VObject Plain [("create", VFunction f)])].

(** A config with everything the validator asks for. *)
Definition config_with (apps : list value) (logLevel logFormat : value)
  : value :=
  VObject Plain
    [("environment", VString "unit-test");
     ("systemName", VString "nil-core");
     (core_root,
      VObject Plain
        [("apps", VArray apps []);
         ("layerOrder",
          VArray [VString "services"; VString "features"] []);
         ("logLevel", logLevel);
         ("logFormat", logFormat)])].

Definition config_of_apps (apps : list value) : value :=
  config_with apps (VString "info") (VString "json").

(** A candidate that has the apps and the layer order at keys of its own
    with a dot in them, beside a root namespace without them. *)
Definition config_dotted_keys : value :=
  VObject Plain
    [("environment", VString "unit-test");
     ("systemName", VString "nil-core");
     (core_root ++ ".apps", VArray [] []);
     (core_root ++ ".layerOrder", VArray [VString "services"] []);
     (core_root,
      VObject Plain
        [("logLevel", VString "info"); ("logFormat", VString "json")])].

(** A host with one config file, whose module has [export] as its default
    export; the function [configFactory] returns [config]. *)
Definition host_with_module (export config : value) : Globals.Host :=
  Globals.mkHost
    (fun path => path)
    (fun path => path =? "/app/config.unit-test.mjs")
    (fun path => Ok (VObject Instance [("default", export)]))
    (VObject Plain [])
    (fun f args => if f =? "configFactory" then Ok config
                   else Throw (Error (f ++ " is not defined")))
    (fun dir => Ok tt)
    (fun dir file found => eq_refl).

(** A host without config files, in which the function named [f] returns
    what [factories] has for [f]. *)
Definition host_of_factories (factories : list (string * value))
  : Globals.Host :=
  Globals.mkHost
    (fun path => path)
    (fun path => false)
    (fun path => Throw (Error ("Cannot find module " ++ path)))
    (VObject Plain [])
    (fun f args => match assoc f factories with
                   | Some v => Ok v
                   | None => Throw (Error (f ++ " is not defined"))
                   end)
    (fun dir => Ok tt)
    (fun dir file found => eq_refl).

(** A host whose file system has no directory at all: [process.chdir]
    throws for every one, and no file exists. *)
Definition host_without_directories : Globals.Host :=
  Globals.mkHost
    (fun path => path)
    (fun path => false)
    (fun path => Throw (Error ("Cannot find module " ++ path)))
    (VObject Plain [])
    (fun f args => Throw (Error (f ++ " is not defined")))
    (fun dir => Throw (Error ("ENOENT: no such file or directory, chdir '/' -> '"
                              ++ dir ++ "'")))
    (fun dir file found => False_ind _ (Bool.diff_false_true found)).

(** The two apps of the spec: app1 contributes [{x: 2, y: 3}], app2
    [{x: 1}]. *)
Definition two_apps : value :=
  config_of_apps [app_with_globals "app1" "app1Globals";
                  app_with_globals "app2" "app2Globals"].

Definition host_two_apps : Globals.Host :=
  host_of_factories
    [("app1Globals", VObject Plain [("x", VNumber 2); ("y", VNumber 3)]);
     ("app2Globals", VObject Plain [("x", VNumber 1)])].

(** The same with an app2 that contributes [{x: undefined}]. *)
Definition host_undefined_leaf : Globals.Host :=
  host_of_factories
    [("app1Globals", VObject Plain [("x", VNumber 2); ("y", VNumber 3)]);
     ("app2Globals", VObject Plain [("x", VUndefined)])].

(** One app, which contributes [{log: undefined}]. *)
Definition one_app : value :=
  config_of_apps [app_with_globals "app1" "app1Globals"].

Definition host_undefined_log : Globals.Host :=
  host_of_factories [("app1Globals", VObject Plain [("log", VUndefined)])].

Definition props_unit_test : Globals.GlobalsServicesProps :=
  Globals.mkProps "unit-test" "/app" None.

(** A process in which nothing has happened yet. *)
Definition fresh_process : Globals.Process :=
  Globals.mkProcess Loglevel.initial "/" Globals.NotCalled [] [].

End Examples.

(** ** Configs of the schema *)

Module Schema.
Import Js.

(** An app as a config declares it: its name and, if it contributes to the
    globals, the function behind [globals.create]. *)
Record AppSpec := mkApp {
  app_name : string;
  app_create : option string
}.

(** A config with every key of the schema, the log level and format being
    any strings. *)
Record ConfigSpec := mkConfig {
  cfg_environment : string;
  cfg_systemName : string;
  cfg_apps : list AppSpec;
  cfg_layerOrder : list string;
  cfg_logLevel : string;
  cfg_logFormat : string
}.

Definition app_value (a : AppSpec) : value :=
  VObject Plain
    (("name", VString (app_name a))
       :: match app_create a with
          | Some f => [("globals", VObject Plain [("create", VFunction f)])]
          | None => []
          end).

(** What a config of the schema has under the root namespace. *)
Definition root_value (c : ConfigSpec) : value :=
  VObject Plain
    [("apps", VArray (map app_value (cfg_apps c)) []);
     ("layerOrder", VArray (map VString (cfg_layerOrder c)) []);
     ("logLevel", VString (cfg_logLevel c));
     ("logFormat", VString (cfg_logFormat c))].

(** The object a config module of the schema exports, under the root
    namespace [root]. *)
Definition config_value (root : string) (c : ConfigSpec) : value :=
  VObject Plain
    [("environment", VString (cfg_environment c));
     ("systemName", VString (cfg_systemName c));
     (root, root_value c)].

(** [b] is one of the layers that [getLayersUnavailable(allLayers)] gives
    for [a]. *)
Definition unavailable (allLayers : list string) (a b : string) : Prop :=
  exists es,
    Libs.getLayersUnavailable allLayers a = Ok (VArray es [])
    /\ In (VString b) es.

(** What a run leaves alone outside the logger and the objects: the
    working directory, the memo cell of the loader and the record of what
    was done to the file system. *)
Definition same_outside (p q : Globals.Process) : Prop :=
  Globals.cwd p = Globals.cwd q
  /\ Globals.configCache p = Globals.configCache q
  /\ Globals.effects p = Globals.effects q.

(** A config of the schema for the samples. *)
Definition sample_config (apps : list AppSpec) (logFormat : string)
  : ConfigSpec :=
  mkConfig "unit-test" "nil-core" apps ["services"; "features"] "info"
           logFormat.

(** An app has something to contribute when its [globals] is truthy. *)
Definition contributes (app : value) : bool :=
  truthy (get_prop app "globals").

(** A root namespace the paths of the validator split at: it has no dot and
    no bracket of its own and is not one of the two top-level keys. *)
Definition namespace_ok (root : string) : bool :=
  negb (Lodash.has_char "." root)
  && negb (Lodash.has_char "[" root)
  && negb (Lodash.has_char "]" root)
  && negb (root =? "environment")
  && negb (root =? "systemName").

End Schema.

(** ** libs.ts: the names of the log levels *)

Module LogLevels.
Import Js.

(** [LogLevel] of types.ts, which is not among the sources: the numbers of
    its six members, taken as they come. *)
Record LogLevel := mkLogLevel {
  TRACE : Z;
  DEBUG : Z;
  INFO : Z;
  WARN : Z;
  ERROR : Z;
  SILENT : Z
}.

(** The [switch] of [getLogLevelName]: the first case that is strictly
    equal to the level. *)
Definition getLogLevelName (L : LogLevel) (logLevel : Z) : result string :=
  if (logLevel =? TRACE L)%Z then Ok "TRACE"
  else if (logLevel =? DEBUG L)%Z then Ok "DEBUG"
  else if (logLevel =? INFO L)%Z then Ok "INFO"
  else if (logLevel =? WARN L)%Z then Ok "WARN"
  else if (logLevel =? ERROR L)%Z then Ok "ERROR"
  else if (logLevel =? SILENT L)%Z then Ok "SILENT"
  else Throw (Error ("Unhandled log level " ++ to_string (VNumber logLevel))).

(** The members with their names, in the order of the cases. *)
Definition members (L : LogLevel) : list (string * Z) :=
  [("TRACE", TRACE L); ("DEBUG", DEBUG L); ("INFO", INFO L);
   ("WARN", WARN L); ("ERROR", ERROR L); ("SILENT", SILENT L)].

(** The numbers loglevel gives the levels. *)
Definition loglevel_numbers : LogLevel := mkLogLevel 0 1 2 3 4 5.

End LogLevels.

(** * Properties *)

(** ** Keys and association lists *)

Module JsFacts.
Import Js.

Lemma index_of_string_of_index (i : nat) :
  index_of_string (string_of_index i) = Some i.
Proof.
  unfold index_of_string, string_of_index.
  rewrite NilEmpty.usu, DecimalNat.Unsigned.of_to, String.eqb_refl. reflexivity.
Qed.

Lemma assoc_set_same {A} (k : string) (v : A) (l : list (string * A)) :
  assoc k (assoc_set k v l) = Some v.
Proof.
  induction l as [|[k' v'] l IH]; simpl.
  - rewrite String.eqb_refl. reflexivity.
  - destruct (k' =? k) eqn:E; simpl; rewrite E; auto.
Qed.

Lemma assoc_set_other {A} (k k' : string) (v : A) (l : list (string * A)) :
  k' <> k -> assoc k (assoc_set k' v l) = assoc k l.
Proof.
  intros Hne. induction l as [|[k2 v2] l IH]; simpl.
  - destruct (k' =? k) eqn:E; [apply String.eqb_eq in E; contradiction|reflexivity].
  - destruct (k2 =? k') eqn:E; simpl.
    + apply String.eqb_eq in E. subst k2.
      destruct (k' =? k) eqn:E'; [apply String.eqb_eq in E'; contradiction|reflexivity].
    + destruct (k2 =? k); auto.
Qed.

Lemma assoc_None_notin {A} (k : string) (l : list (string * A)) :
  assoc k l = None <-> ~ In k (map fst l).
Proof.
  induction l as [|[k' v'] l IH]; simpl.
  - tauto.
  - destruct (k' =? k) eqn:E.
    + apply String.eqb_eq in E. split; [discriminate|]. intros H. exfalso. auto.
    + apply String.eqb_neq in E. rewrite IH. tauto.
Qed.

Lemma assoc_set_keys {A} (k : string) (v : A) (l : list (string * A)) :
  map fst (assoc_set k v l) =
  if existsb (String.eqb k) (map fst l) then map fst l
  else (map fst l ++ [k])%list.
Proof.
  induction l as [|[k' v'] l IH]; simpl; [reflexivity|].
  rewrite (String.eqb_sym k k').
  destruct (k' =? k) eqn:E; simpl; [reflexivity|].
  rewrite IH. destruct (existsb (String.eqb k) (map fst l)); reflexivity.
Qed.

Lemma assoc_set_NoDup {A} (k : string) (v : A) (l : list (string * A)) :
  NoDup (map fst l) -> NoDup (map fst (assoc_set k v l)).
Proof.
  intros H. rewrite assoc_set_keys.
  destruct (existsb (String.eqb k) (map fst l)) eqn:E; [assumption|].
  apply NoDup_app; [assumption|repeat constructor; simpl; tauto|].
  intros x Hx [<-|[]].
  assert (existsb (String.eqb k) (map fst l) = true); [|congruence].
  apply existsb_exists. exists k. split; [assumption|apply String.eqb_refl].
Qed.

(** Numbers as JavaScript writes them: all the digits of an integer below
    2^53; the fewest digits that denote the double from there on, with
    zeros up to 21 digits and an exponent beyond. *)
Lemma number_to_string_samples :
  number_to_string 42 = "42"
  /\ number_to_string (-7) = "-7"
  /\ number_to_string (2 ^ 53) = "9007199254740992"
  /\ number_to_string (2 ^ 64) = "18446744073709552000"
  /\ number_to_string (10 ^ 21) = "1e+21"
  /\ number_to_string (2 ^ 70) = "1.1805916207174113e+21"
  /\ number_to_string (- 10 ^ 23) = "-1e+23".
Proof. vm_compute. repeat split. Qed.

Lemma function_name_samples :
  get_prop (VFunction "create") "name" = VString "create"
  /\ get_prop (VFunction "Object.prototype.toString") "name"
     = VString "toString"
  /\ get_prop (VFunction "Object.prototype.constructor") "name"
     = VString "Object".
Proof. repeat split. Qed.

End JsFacts.

(** ** The validator *)

Module ValidatorFacts.
Import Js Libs Spec.

Lemma forEach_Ok {A} (f : A -> result unit) (l : list A) :
  forEach f l = Ok tt <-> Forall (fun x => f x = Ok tt) l.
Proof.
  induction l as [|x l IH]; simpl.
  - split; auto.
  - destruct (f x) as [[]|e] eqn:E; simpl.
    + rewrite IH. split; intros H.
      * constructor; assumption.
      * inversion H; assumption.
    + split; [discriminate|]. intros H. inversion H. congruence.
Qed.

Lemma forEach_Throw {A} (f : A -> result unit) (l : list A) (e : exn) :
  forEach f l = Throw e <->
  exists i x, nth_error l i = Some x
              /\ Forall (fun y => f y = Ok tt) (firstn i l)
              /\ f x = Throw e.
Proof.
  induction l as [|x l IH]; simpl.
  - split; [discriminate|]. intros (i & y & H & _). destruct i; discriminate.
  - destruct (f x) as [[]|e'] eqn:E; simpl.
    + rewrite IH. split.
      * intros (i & y & H1 & H2 & H3). exists (S i), y. simpl. auto.
      * intros (i & y & H1 & H2 & H3). destruct i as [|i]; simpl in *.
        -- inversion H1; subst. congruence.
        -- exists i, y. inversion H2; auto.
    + split.
      * intros H. inversion H; subst. exists 0, x. simpl. auto.
      * intros (i & y & H1 & H2 & H3). destruct i as [|i]; simpl in *.
        -- inversion H1; subst. congruence.
        -- inversion H2; congruence.
Qed.

Lemma mentions_prefix (what rest : string) : mentions what (what ++ rest).
Proof. exists "", rest. reflexivity. Qed.

Lemma starts_with_prefix (what rest : string) :
  starts_with what (what ++ rest) = true.
Proof.
  induction what as [|a what IH]; simpl; [reflexivity|].
  rewrite Ascii.eqb_refl. exact IH.
Qed.

(** A message that mentions something has it at some position. *)
Lemma mentions_mentionsb (what msg : string) :
  mentions what msg -> mentionsb what msg = true.
Proof.
  intros (pre & post & ->).
  induction pre as [|c pre IH].
  - simpl append. destruct (what ++ post) eqn:E; simpl;
      rewrite <- E, starts_with_prefix; reflexivity.
  - simpl. rewrite IH. apply orb_true_r.
Qed.

(** Each check passes exactly when the candidate has what the check asks
    for, and raises its own error otherwise. *)
Lemma configHasKey_iff key c : configHasKey key c = Ok tt <-> present c key.
Proof.
  unfold configHasKey, present.
  destruct (Lodash.get c key); simpl; split; congruence.
Qed.

Lemma configHasKey_fails key c :
  ~ present c key ->
  configHasKey key c = Throw (Error (key ++ " was not found in config")).
Proof.
  unfold configHasKey, present.
  destruct (Lodash.get c key); simpl; intros H; try reflexivity;
    exfalso; apply H; discriminate.
Qed.

Lemma configItemIsArray_iff key c :
  configItemIsArray key c = Ok tt <-> array_at c key.
Proof.
  unfold configItemIsArray, array_at.
  destruct (Lodash.get c key); simpl; split; intros H;
    try discriminate; try (destruct H as (es & nm & H); discriminate); eauto.
Qed.

Lemma configItemIsArray_fails key c :
  ~ array_at c key ->
  configItemIsArray key c = Throw (Error (key ++ " must be an array")).
Proof.
  unfold configItemIsArray, array_at.
  destruct (Lodash.get c key); simpl; intros H; try reflexivity.
  exfalso. apply H. eauto.
Qed.

Lemma configItemIsType_string_iff key c :
  configItemIsType key "string" c = Ok tt <-> string_at c key.
Proof.
  unfold configItemIsType, string_at.
  destruct (Lodash.get c key); simpl; split; intros H;
    try discriminate; try (destruct H as (s' & H); discriminate); eauto.
Qed.

Lemma configItemIsType_string_fails key c :
  ~ string_at c key ->
  configItemIsType key "string" c
  = Throw (Error (key ++ " must be of type string")).
Proof.
  unfold configItemIsType, string_at.
  destruct (Lodash.get c key); simpl; intros H; try reflexivity.
  exfalso. apply H. eauto.
Qed.

Lemma configHasKey_Ok key c :
  Lodash.get c key <> VUndefined -> configHasKey key c = Ok tt.
Proof. apply configHasKey_iff. Qed.

Lemma get_prop_nullish v k : nullish v = true -> get_prop v k = VUndefined.
Proof. destruct v; try discriminate; reflexivity. Qed.

Lemma present_not_nullish c key : present c key -> nullish c = false.
Proof.
  unfold present, Lodash.get. destruct (nullish c); [congruence|reflexivity].
Qed.

Lemma appHasAName_Ok app : has_name app -> appHasAName app = Ok tt.
Proof.
  intros [Hn Hname]. unfold appHasAName, read. rewrite Hn. simpl.
  destruct (get_prop app "name"); simpl; congruence.
Qed.

Lemma appHasAName_iff app : appHasAName app = Ok tt <-> has_name app.
Proof.
  split; [|apply appHasAName_Ok].
  unfold appHasAName, read, has_name.
  destruct (nullish app); simpl; [discriminate|].
  destruct (get_prop app "name"); simpl; intros H;
    try discriminate; split; congruence.
Qed.

(** The app without a name the check stops at: a TypeError of the read of
    its name when it is [null] or [undefined], the error about the name
    otherwise. *)
Lemma appHasAName_fails app :
  ~ has_name app ->
  appHasAName app =
  Throw (if nullish app then cannot_read app "name"
         else Error "A configured app does not have a name.").
Proof.
  unfold appHasAName, read, has_name, cannot_read. intros H.
  destruct (nullish app); simpl; [reflexivity|].
  destruct (get_prop app "name"); simpl; try reflexivity;
    exfalso; apply H; split; congruence.
Qed.

Lemma allAppsHaveAName_iff root c :
  nullish c = false ->
  ((allAppsHaveAName root c ;;; Ok tt) = Ok tt <-> apps_named root c).
Proof.
  intros Hc. unfold allAppsHaveAName, read, apps_named. rewrite Hc. simpl.
  destruct (nullish (get_prop c root)) eqn:Hr; [split; auto|].
  destruct (get_prop (get_prop c root) "apps") as [| | | | | |apps nm|];
    try (split; [discriminate|];
         intros [H|(apps' & nm' & H & _)]; discriminate).
  destruct (forEach appHasAName apps) as [[]|e] eqn:E; simpl.
  - split; [|reflexivity]. intros _. right. exists apps, nm.
    split; [reflexivity|]. apply forEach_Ok in E.
    eapply Forall_impl; [|exact E]. intros a. apply appHasAName_iff.
  - split; [discriminate|].
    intros [H|(apps' & nm' & H & Hall)]; [discriminate|].
    inversion H; subst.
    assert (E' : forEach appHasAName apps' = Ok tt); [|congruence].
    apply forEach_Ok. eapply Forall_impl; [|exact Hall].
    intros a. apply appHasAName_Ok.
Qed.

(** The checks of the code against what the spec asks, one by one. *)
Lemma checks_agree root c :
  nullish c = false ->
  Forall2 (fun chk P => chk c = Ok tt <-> P)
          (_configItemsToCheck root) (check_asks root c).
Proof.
  intros Hc. unfold _configItemsToCheck, check_asks.
  repeat (apply Forall2_cons;
          [first [ apply configHasKey_iff | apply configItemIsArray_iff
                 | apply configItemIsType_string_iff
                 | apply allAppsHaveAName_iff; exact Hc ]|]).
  apply Forall2_nil.
Qed.

(** A loop over checks that agree with what is asked returns when all is
    as asked, and otherwise ends with the outcome of the first check whose
    ask does not hold. *)
Lemma forEach_asks {A} (f : A -> result unit) (l : list A)
    (asks : list Prop) :
  Forall2 (fun x P => f x = Ok tt <-> P) l asks ->
  (forEach f l = Ok tt <-> Forall (fun P => P) asks)
  /\ (forall i x P,
        nth_error l i = Some x -> nth_error asks i = Some P ->
        Forall (fun Q => Q) (firstn i asks) -> ~ P ->
        forEach f l = f x /\ f x <> Ok tt).
Proof.
  induction 1 as [|x P l asks HxP _ [IHok IHfail]]; simpl.
  - split; [split; auto|]. intros [|i]; discriminate.
  - split.
    + destruct (f x) as [[]|e] eqn:E; simpl.
      * rewrite IHok. split; intros H.
        -- constructor; [apply HxP; reflexivity|assumption].
        -- inversion H; assumption.
      * split; [discriminate|]. intros H. inversion H; subst.
        apply HxP in H2. discriminate.
    + intros [|i] y Q Hy HQ Hfirst HnQ; simpl in *.
      * inversion Hy; inversion HQ; subst.
        destruct (f y) as [[]|e] eqn:E.
        -- exfalso. apply HnQ, HxP. reflexivity.
        -- split; [reflexivity|discriminate].
      * inversion Hfirst as [|? ? HP Hrest]; subst.
        apply HxP in HP. rewrite HP. simpl.
        apply (IHfail i y Q); assumption.
Qed.

Lemma validateConfig_after_six root c :
  Forall (passes c) (firstn 6 (_configItemsToCheck root)) ->
  validateConfig root c =
  forEach (fun x => x c) (skipn 6 (_configItemsToCheck root)).
Proof.
  intros H. unfold validateConfig.
  rewrite <- (firstn_skipn 6 (_configItemsToCheck root)) at 1.
  generalize (skipn 6 (_configItemsToCheck root)).
  induction H as [|chk l Hc _ IH]; intros rest; simpl; [reflexivity|].
  unfold passes in Hc. rewrite Hc. simpl. apply IH.
Qed.

Lemma forEach_app_Throw {A} (f : A -> result unit) pre x post e :
  Forall (fun y => f y = Ok tt) pre -> f x = Throw e ->
  forEach f (pre ++ x :: post) = Throw e.
Proof.
  intros Hpre Hx. apply forEach_Throw. exists (List.length pre), x.
  rewrite nth_error_app2, Nat.sub_diag by lia. split; [reflexivity|].
  rewrite firstn_app, Nat.sub_diag, firstn_all, app_nil_r. auto.
Qed.

(** The check of the names, once the six checks before it have passed, on
    a root namespace that holds the apps [pre ++ a :: post], of which [a]
    is the first without a name. *)
Lemma validateConfig_stops_at_app root c r pre a post named :
  Forall (passes c) (firstn 6 (_configItemsToCheck root)) ->
  read c root = Ok r ->
  get_prop r "apps" = VArray (pre ++ a :: post) named ->
  Forall has_name pre ->
  ~ has_name a ->
  validateConfig root c =
  Throw (if nullish a then cannot_read a "name"
         else Error "A configured app does not have a name.").
Proof.
  intros Hsix Hr Happs Hpre Ha.
  assert (Hnr : nullish r = false).
  { destruct (nullish r) eqn:E; [|reflexivity].
    rewrite (get_prop_nullish r "apps" E) in Happs. discriminate. }
  rewrite (validateConfig_after_six _ _ Hsix). simpl.
  unfold allAppsHaveAName. rewrite Hr. simpl. rewrite Hnr, Happs.
  rewrite (forEach_app_Throw appHasAName pre a post
             (if nullish a then cannot_read a "name"
              else Error "A configured app does not have a name.")).
  - reflexivity.
  - eapply Forall_impl; [|exact Hpre]. apply appHasAName_Ok.
  - apply appHasAName_fails. exact Ha.
Qed.

(** What is asked by the first six checks holds exactly when they pass. *)
Lemma first_six_pass root c :
  Forall (fun P => P) (firstn 6 (check_asks root c)) ->
  Forall (passes c) (firstn 6 (_configItemsToCheck root)).
Proof.
  intros H. simpl in H.
  repeat match goal with
         | H : Forall _ (_ :: _) |- _ => inversion H; clear H; subst
         end.
  unfold passes. simpl.
  repeat constructor;
    first [ apply configHasKey_iff | apply configItemIsArray_iff ];
    assumption.
Qed.

(** C4, as the code has it: [validateConfig] runs its nine checks in the
    fixed order environment, systemName, root apps present, root apps an
    array, root layerOrder present, root layerOrder an array, every app
    named, root logLevel a string, root logFormat a string.  It returns
    without throwing exactly when the candidate has all nine things asked.
    When one of the eight checks of a key is the first whose ask does not
    hold, it throws the error of that check, whose message starts with the
    key path (a missing systemName gives "systemName was not found in
    config", root apps that are no array give the apps path and "must be an
    array"), whatever comes after.  The check of the names of the apps
    reads the apps under the root namespace itself: at the first app that
    has no name it throws the error about the name when the app is an
    object, and the TypeError of the read when the app is [null] or
    [undefined]; and when the root namespace has no apps of its own (the
    checks before it having found them at a key with a dot), it throws the
    TypeError of the read of [find]. *)
Theorem validateConfig_first_violated_check (root : string) (c : value) :
  let asks := check_asks root c in
  let apps := _getNamespaceProperty root "apps" in
  (validateConfig root c = Ok tt <-> Forall (fun P => P) asks)
  /\ (forall i P msg what,
        i <> 6 ->
        nth_error asks i = Some P ->
        nth_error (check_error root) i = Some msg ->
        nth_error (check_subject root) i = Some what ->
        Forall (fun Q => Q) (firstn i asks) ->
        ~ P ->
        validateConfig root c = Throw (Error msg) /\ mentions what msg)
  /\ (forall pre a post named,
        Forall (fun Q => Q) (firstn 6 asks) ->
        get_prop (get_prop c root) "apps" = VArray (pre ++ a :: post) named ->
        Forall has_name pre ->
        ~ has_name a ->
        validateConfig root c =
        Throw (if nullish a then cannot_read a "name"
               else Error "A configured app does not have a name."))
  /\ (Forall (fun Q => Q) (firstn 6 asks) ->
      nullish (get_prop c root) = false ->
      nullish (get_prop (get_prop c root) "apps") = true ->
      validateConfig root c
      = Throw (cannot_read (get_prop (get_prop c root) "apps") "find"))
  /\ (present c "environment" ->
      ~ present c "systemName" ->
      validateConfig root c
      = Throw (Error "systemName was not found in config")
      /\ mentions "systemName" "systemName was not found in config")
  /\ (present c "environment" ->
      present c "systemName" ->
      present c apps ->
      ~ array_at c apps ->
      validateConfig root c = Throw (Error (apps ++ " must be an array"))
      /\ mentions apps (apps ++ " must be an array")).
Proof.
  cbv zeta.
  destruct (nullish c) eqn:Hc.
  { (* no object at all: the first check fails *)
    assert (Henv : ~ present c "environment").
    { intros H. apply present_not_nullish in H. congruence. }
    assert (Hrun : validateConfig root c
                   = Throw (Error "environment was not found in config")).
    { destruct c; try discriminate; reflexivity. }
    assert (Hsix : forall n,
               Forall (fun Q => Q) (firstn (S n) (check_asks root c)) -> False).
    { intros n H. simpl in H. inversion H. contradiction. }
    split; [|split; [|split; [|split; [|split]]]].
    - rewrite Hrun. split; [discriminate|].
      intros H. exfalso. apply (Hsix 8). exact H.
    - intros [|i] P msg what Hi HP Hmsg Hwhat Hfirst HnP.
      + simpl in Hmsg, Hwhat. inversion Hmsg; inversion Hwhat; subst.
        split; [exact Hrun|eexists "", _; reflexivity].
      + exfalso. exact (Hsix i Hfirst).
    - intros pre a post named H. exfalso. exact (Hsix 5 H).
    - intros H. exfalso. exact (Hsix 5 H).
    - intros H. contradiction.
    - intros H. contradiction. }
  pose proof (checks_agree root c Hc) as Hagree.
  destruct (forEach_asks (fun x => x c) _ _ Hagree) as [Hok Hfail].
  (* a check of a key that is the first to fail *)
  assert (Hkeys : forall i P msg what,
            i <> 6 ->
            nth_error (check_asks root c) i = Some P ->
            nth_error (check_error root) i = Some msg ->
            nth_error (check_subject root) i = Some what ->
            Forall (fun Q => Q) (firstn i (check_asks root c)) ->
            ~ P ->
            validateConfig root c = Throw (Error msg) /\ mentions what msg).
  { intros i P msg what Hi HP Hmsg Hwhat Hfirst HnP.
    destruct i as [|[|[|[|[|[|[|[|[|i]]]]]]]]]; simpl in HP, Hmsg, Hwhat;
      try (destruct i; discriminate); try congruence;
      inversion HP; inversion Hmsg; inversion Hwhat; subst; clear HP Hmsg Hwhat;
      (split; [|eexists "", _; reflexivity]);
      unfold validateConfig;
      match type of Hfirst with
      | Forall _ (firstn ?n _) =>
          destruct (Hfail n _ _ eq_refl eq_refl Hfirst HnP) as [-> _]
      end;
      first [ exact (configHasKey_fails _ c HnP)
            | exact (configItemIsArray_fails _ c HnP)
            | exact (configItemIsType_string_fails _ c HnP) ]. }
  split; [exact Hok|]. split; [exact Hkeys|].
  split; [|split; [|split]].
  - intros pre a post named Hsix Happs Hpre Ha.
    apply (validateConfig_stops_at_app root c (get_prop c root) pre a post
             named (first_six_pass root c Hsix)); auto.
    unfold read. rewrite Hc. reflexivity.
  - intros Hsix Hr Happs.
    rewrite (validateConfig_after_six _ _ (first_six_pass root c Hsix)).
    simpl. unfold allAppsHaveAName, read. rewrite Hc. simpl. rewrite Hr.
    destruct (get_prop (get_prop c root) "apps"); try discriminate;
      reflexivity.
  - intros Henv Hsys.
    apply (Hkeys 1 _ _ _ ltac:(discriminate) eq_refl eq_refl eq_refl);
      [repeat constructor; exact Henv|exact Hsys].
  - intros Henv Hsys Hk Harr.
    apply (Hkeys 3 _ _ _ ltac:(discriminate) eq_refl eq_refl eq_refl);
      [repeat constructor; assumption|exact Harr].
Qed.

Import Examples.

(** C4 as stated fails: this candidate has its apps and its layers at keys
    with a dot in them, where [get] finds them, so that the six checks
    before the names pass; the root namespace itself has no apps, and the
    check of the names throws the TypeError of a read, whose message names
    neither a key path nor the name of an app. *)
Lemma validateConfig_type_error_names_nothing :
  Forall (fun P => P) (firstn 6 (check_asks core_root config_dotted_keys))
  /\ validateConfig core_root config_dotted_keys
     = Throw (TypeError "Cannot read properties of undefined (reading 'find')")
  /\ (forall what,
        In what (check_subject core_root) ->
        ~ mentions what "Cannot read properties of undefined (reading 'find')").
Proof.
  split; [|split].
  - simpl. unfold present, array_at.
    repeat constructor; try discriminate; eexists _, _; reflexivity.
  - reflexivity.
  - intros what Hin Hm. apply mentions_mentionsb in Hm.
    simpl in Hin.
    repeat (destruct Hin as [<-|Hin]; [vm_compute in Hm; discriminate|]).
    contradiction.
Qed.

Lemma validateConfig_first_violated_check_witness :
  validateConfig core_root
    (VObject Plain [("environment", VString "unit-test")])
  = Throw (Error "systemName was not found in config")
  /\ validateConfig core_root
       (config_of_apps [app_named (VString "first"); VNull])
     = Throw (TypeError "Cannot read properties of null (reading 'name')").
Proof.
  split.
  - assert (Henv : present (VObject Plain [("environment", VString "unit-test")])
                           "environment").
    { unfold present. discriminate. }
    assert (Hsys : ~ present (VObject Plain
                                [("environment", VString "unit-test")])
                             "systemName").
    { unfold present. intros H. apply H. reflexivity. }
    pose proof (validateConfig_first_violated_check core_root
                  (VObject Plain [("environment", VString "unit-test")]))
      as (_ & _ & _ & _ & Hmissing & _).
    exact (proj1 (Hmissing Henv Hsys)).
  - assert (Hsix : Forall (fun P => P)
                     (firstn 6 (check_asks core_root
                        (config_of_apps [app_named (VString "first"); VNull])))).
    { simpl. unfold present, array_at.
      repeat constructor; try discriminate; eexists _, _; reflexivity. }
    assert (Hpre : Forall has_name [app_named (VString "first")]).
    { repeat constructor. discriminate. }
    assert (Ha : ~ has_name VNull).
    { intros [H _]. discriminate. }
    pose proof (validateConfig_first_violated_check core_root
                  (config_of_apps [app_named (VString "first"); VNull]))
      as (_ & _ & Hnames & _).
    exact (Hnames [app_named (VString "first")] VNull [] [] Hsix eq_refl
                  Hpre Ha).
Defined.

(** C5, as the code has it: with the six checks before it passed and
    [config[root].apps] the array [apps], the validator stops at the first
    app that has no name, which is an app that is [null] or [undefined] or
    whose [name] is [undefined]: it throws the error about an app without a
    name when that app is an object, and the TypeError of reading its name
    when it is [null] or [undefined].  An app whose name is anything else,
    the empty string included, has a name, as has a function; a list of
    such apps passes the check. *)
Theorem validateConfig_app_name_undefined (root : string) (c r : value)
    (apps : list value) (named : list (string * value)) :
  Forall (passes c) (firstn 6 (_configItemsToCheck root)) ->
  read c root = Ok r ->
  nullish r = false ->
  get_prop r "apps" = VArray apps named ->
  (forall pre a post,
      apps = (pre ++ a :: post)%list ->
      Forall has_name pre ->
      ~ has_name a ->
      (nullish a = false /\ get_prop a "name" = VUndefined
       \/ nullish a = true)
      /\ validateConfig root c =
         Throw (if nullish a then cannot_read a "name"
                else Error "A configured app does not have a name."))
  /\ (Forall has_name apps -> allAppsHaveAName root c = Ok true)
  /\ has_name (VObject Plain [("name", VString "")])
  /\ (forall f, has_name (VFunction f)).
Proof.
  intros Hsix Hr Hnr Happs. split; [|split; [|split]].
  - intros pre a post -> Hpre Ha. split.
    + destruct (nullish a) eqn:Hn; [right; reflexivity|left].
      split; [reflexivity|].
      destruct (get_prop a "name") eqn:E; try reflexivity;
        exfalso; apply Ha; split; congruence.
    + apply (validateConfig_stops_at_app root c r pre a post named); auto.
  - intros Hall. unfold allAppsHaveAName. rewrite Hr. simpl.
    rewrite Hnr, Happs.
    assert (E : forEach appHasAName apps = Ok tt).
    { apply forEach_Ok. eapply Forall_impl; [|exact Hall].
      apply appHasAName_Ok. }
    rewrite E. reflexivity.
  - split; [reflexivity|discriminate].
  - intros f. split; [reflexivity|discriminate].
Qed.

Lemma validateConfig_app_name_undefined_witness :
  validateConfig core_root
    (config_of_apps [app_named (VString "first"); app_unnamed;
                     app_named (VString "third")]) =
  Throw (Error "A configured app does not have a name.")
  /\ validateConfig core_root
       (config_of_apps [VNull; app_unnamed]) =
     Throw (TypeError "Cannot read properties of null (reading 'name')").
Proof.
  split.
  - assert (Hsix : Forall (passes (config_of_apps
                             [app_named (VString "first"); app_unnamed;
                              app_named (VString "third")]))
                          (firstn 6 (_configItemsToCheck core_root)))
      by (repeat constructor).
    assert (Hpre : Forall has_name [app_named (VString "first")])
      by (repeat constructor; discriminate).
    assert (Ha : ~ has_name app_unnamed)
      by (intros [_ H]; apply H; reflexivity).
    exact (proj2 (proj1 (validateConfig_app_name_undefined core_root _ _ _ []
                           Hsix eq_refl eq_refl eq_refl)
                        [app_named (VString "first")] app_unnamed
                        [app_named (VString "third")] eq_refl Hpre Ha)).
  - assert (Hsix : Forall (passes (config_of_apps [VNull; app_unnamed]))
                          (firstn 6 (_configItemsToCheck core_root)))
      by (repeat constructor).
    assert (Ha : ~ has_name VNull) by (intros [H _]; discriminate).
    exact (proj2 (proj1 (validateConfig_app_name_undefined core_root _ _ _ []
                           Hsix eq_refl eq_refl eq_refl)
                        [] VNull [app_unnamed] eq_refl (Forall_nil _) Ha)).
Defined.

(** C5 as stated fails: an app whose name is the empty string lacks a
    non-empty name, and the validator accepts the config. *)
Lemma validateConfig_accepts_empty_name :
  get_prop (app_named (VString "")) "name" = VString ""
  /\ validateConfig core_root (config_of_apps [app_named (VString "")])
     = Ok tt.
Proof. split; reflexivity. Qed.

End ValidatorFacts.

(** ** lodash's merge *)

Module MergeFacts.
Import Js Lodash Spec JsFacts.

Lemma baseMerge_VObject k ps object :
  baseMerge (VObject k ps) object = merge_props ps object.
Proof.
  simpl. revert object.
  induction ps as [|[key sv] ps IH]; intros object; simpl; [reflexivity|].
  apply IH.
Qed.

Lemma baseMerge_VArray es nm object :
  baseMerge (VArray es nm) object = merge_props nm (merge_elems es 0 object).
Proof.
  simpl. generalize 0. revert object.
  induction es as [|sv es IH]; intros object i; simpl.
  - induction nm as [|[key sv] nm IH] in object |- *; simpl; [reflexivity|].
    apply IH.
  - apply IH.
Qed.

Lemma set_nth_length es v : set_nth es (List.length es) v = (es ++ [v])%list.
Proof. induction es; simpl; congruence. Qed.

(** Merging an array of strings into a fresh array copies it. *)
Lemma merge_elems_strings (l : list string) (pre : list value) :
  merge_elems (map VString l) (List.length pre) (VArray pre []) =
  VArray (pre ++ map VString l) [].
Proof.
  revert pre. induction l as [|s l IH]; intros pre; simpl.
  - rewrite app_nil_r. reflexivity.
  - unfold mergeKey, assignMergeValue, baseAssignValue. simpl.
    rewrite index_of_string_of_index, set_nth_length.
    replace (S (List.length pre)) with (List.length (pre ++ [VString s]))
      by (rewrite length_app; simpl; lia).
    rewrite IH, <- app_assoc. reflexivity.
Qed.

Lemma baseMerge_strings_fresh (l : list string) :
  baseMerge (VArray (map VString l) []) (VArray [] []) =
  VArray (map VString l) [].
Proof.
  rewrite baseMerge_VArray. simpl.
  apply (merge_elems_strings l []).
Qed.

Lemma assignMergeValue_object k ps key v :
  assignMergeValue (VObject k ps) key v =
  VObject k (if negb (is_undefined v) || negb (has_prop (VObject k ps) key)
             then assoc_set key v ps else ps).
Proof.
  unfold assignMergeValue.
  destruct (negb (is_undefined v)); simpl; [reflexivity|].
  destruct (negb (has_prop (VObject k ps) key)); reflexivity.
Qed.

(** Every step of the loop assigns at its own key, if at all. *)
Lemma mergeKey_assigns rec key sv object :
  exists x, mergeKey rec key sv object = assignMergeValue object key x.
Proof.
  unfold mergeKey. destruct (isObject sv); [|eexists; reflexivity].
  destruct (_ || _); [eexists; reflexivity|].
  destruct sv as [| | | | | |es nm|[|] sps]; eexists; reflexivity.
Qed.

Lemma mergeKey_leaf rec key sv object :
  is_leaf_at key sv = true ->
  mergeKey rec key sv object = assignMergeValue object key sv.
Proof.
  unfold mergeKey, is_leaf_at.
  destruct sv as [| | | | |f|es nm|[|] sps]; try discriminate;
    try reflexivity; simpl; intros H.
  - apply andb_true_iff in H as [H1 H2].
    apply negb_true_iff in H1, H2. rewrite H1, H2. reflexivity.
  - apply negb_true_iff in H. rewrite andb_false_r, H. reflexivity.
Qed.

Section IntoObject.
Variable k : okind.

(** The step at [key] leaves the other keys of a destination object as
    they are. *)
Lemma mergeKey_object rec key sv ps :
  exists ps',
    mergeKey rec key sv (VObject k ps) = VObject k ps'
    /\ (forall key', key' <> key -> assoc key' ps' = assoc key' ps)
    /\ (NoDup (map fst ps) -> NoDup (map fst ps')).
Proof.
  destruct (mergeKey_assigns rec key sv (VObject k ps)) as [x ->].
  rewrite assignMergeValue_object. eexists. split; [reflexivity|].
  destruct (_ || _); split; auto.
  - intros key' Hne. apply assoc_set_other. congruence.
  - apply assoc_set_NoDup.
Qed.

Lemma has_prop_assoc ps ps' key :
  assoc key ps' = assoc key ps ->
  has_prop (VObject k ps') key = has_prop (VObject k ps) key.
Proof. unfold has_prop. simpl. intros ->. reflexivity. Qed.

End IntoObject.

Lemma merge_elems_object k es : forall i ps,
  exists ps',
    merge_elems es i (VObject k ps) = VObject k ps'
    /\ (NoDup (map fst ps) -> NoDup (map fst ps')).
Proof.
  induction es as [|sv es IH]; intros i ps; cbn [merge_elems].
  - exists ps. auto.
  - destruct (mergeKey_object k (baseMerge sv) (string_of_index i) sv ps)
      as (ps1 & -> & _ & Hnd1).
    destruct (IH (S i) ps1) as (ps' & -> & Hnd'). exists ps'. auto.
Qed.

Lemma merge_props_object_any k sps : forall ps,
  exists ps',
    merge_props sps (VObject k ps) = VObject k ps'
    /\ (NoDup (map fst ps) -> NoDup (map fst ps')).
Proof.
  induction sps as [|[key sv] sps IH]; intros ps; cbn [merge_props].
  - exists ps. auto.
  - destruct (mergeKey_object k (baseMerge sv) key sv ps)
      as (ps1 & -> & _ & Hnd1).
    destruct (IH ps1) as (ps' & -> & Hnd'). exists ps'. auto.
Qed.

(** Whatever is merged into an object, the object stays one, of the same
    kind and with distinct keys. *)
Lemma merge_into_object k ps source :
  exists ps',
    merge (VObject k ps) source = VObject k ps'
    /\ (NoDup (map fst ps) -> NoDup (map fst ps')).
Proof.
  unfold merge. destruct (truthy source); [|exists ps; auto].
  destruct source as [| | | |s| |es nm|kd sps]; try (exists ps; auto; fail).
  - simpl. generalize 0. revert ps.
    induction s as [|c s IH]; intros ps i; [exists ps; auto|].
    rewrite assignMergeValue_object.
    destruct (IH (if negb (is_undefined (VString (String c "")))
                     || negb (has_prop (VObject k ps) (string_of_index i))
                  then assoc_set (string_of_index i) (VString (String c "")) ps
                  else ps) (S i)) as (ps' & E & Hnd).
    exists ps'. split; [exact E|]. intros H. apply Hnd.
    simpl. apply assoc_set_NoDup. exact H.
  - rewrite baseMerge_VArray.
    destruct (merge_elems_object k es 0 ps) as (ps1 & -> & Hnd1).
    destruct (merge_props_object_any k nm ps1) as (ps' & -> & Hnd').
    exists ps'. auto.
  - rewrite baseMerge_VObject. apply merge_props_object_any.
Qed.

(** The step for a plain object of the source where the destination has an
    object: the two are merged, into the one of the destination. *)
Lemma mergeKey_nested key s2 k ps k2 d2 :
  assoc key ps = Some (VObject k2 d2) ->
  key <> "__proto__" ->
  mergeKey (baseMerge (VObject Plain s2)) key (VObject Plain s2) (VObject k ps)
  = VObject k (assoc_set key (baseMerge (VObject Plain s2) (VObject k2 d2)) ps).
Proof.
  intros Hd Hproto. apply String.eqb_neq in Hproto.
  unfold mergeKey. simpl isObject. cbv beta match zeta. simpl isFunction.
  rewrite andb_false_r, Hproto. simpl orb. cbv beta match.
  assert (Hget : safeGet (VObject k ps) key = VObject k2 d2).
  { unfold safeGet, get_prop. simpl own. rewrite Hd. simpl typeof.
    rewrite andb_false_r, Hproto. reflexivity. }
  rewrite Hget. simpl negb. simpl orb. cbv beta match.
  rewrite baseMerge_VObject.
  destruct (merge_props_object_any k2 s2 d2) as (d' & -> & _).
  reflexivity.
Qed.

(** The loop over the properties of the source, on a destination object:
    a leaf of the source is written, an [undefined] leaves a property that
    is there, a key the source does not have is kept. *)
Lemma merge_props_object k sps : forall ps,
  NoDup (map fst sps) ->
  exists ps',
    merge_props sps (VObject k ps) = VObject k ps'
    /\ (forall key v, assoc key sps = Some v -> is_leaf_at key v = true ->
                      assoc key ps' = Some v)
    /\ (forall key, assoc key sps = Some VUndefined ->
                    has_prop (VObject k ps) key = true ->
                    assoc key ps' = assoc key ps)
    /\ (forall key, assoc key sps = None -> assoc key ps' = assoc key ps)
    /\ (forall key s2 k2 d2,
          assoc key sps = Some (VObject Plain s2) ->
          assoc key ps = Some (VObject k2 d2) ->
          key <> "__proto__" ->
          assoc key ps' = Some (baseMerge (VObject Plain s2) (VObject k2 d2)))
    /\ (NoDup (map fst ps) -> NoDup (map fst ps')).
Proof.
  induction sps as [|[key1 sv1] sps IH]; intros ps Hnd.
  - exists ps. simpl. repeat split; auto; discriminate.
  - simpl in Hnd. inversion Hnd as [|? ? Hk1 Hnd']; subst.
    apply assoc_None_notin in Hk1.
    cbn [merge_props].
    destruct (mergeKey_object k (baseMerge sv1) key1 sv1 ps)
      as (ps1 & E1 & Hother1 & Hnd1).
    rewrite E1.
    destruct (IH ps1 Hnd')
      as (ps' & E & Hleaf & Hundef & Hkeep & Hdeep & Hnd2).
    exists ps'. split; [exact E|]. repeat split.
    + intros key v Hv Hl. simpl in Hv.
      destruct (key1 =? key) eqn:Ek.
      * apply String.eqb_eq in Ek. subst key1. inversion Hv; subst v.
        rewrite (Hkeep key Hk1).
        rewrite (mergeKey_leaf _ _ _ _ Hl), assignMergeValue_object in E1.
        inversion E1; subst ps1.
        destruct sv1; try discriminate; simpl; apply assoc_set_same.
      * apply Hleaf; assumption.
    + intros key Hv Hhas. simpl in Hv.
      destruct (key1 =? key) eqn:Ek.
      * apply String.eqb_eq in Ek. subst key1. inversion Hv; subst sv1.
        rewrite (Hkeep key Hk1).
        unfold mergeKey in E1. simpl in E1.
        rewrite assignMergeValue_object, Hhas in E1. simpl in E1.
        inversion E1. reflexivity.
      * apply String.eqb_neq in Ek.
        rewrite <- (Hother1 key) by congruence.
        apply Hundef; [assumption|].
        rewrite (has_prop_assoc k ps ps1); [assumption|].
        apply Hother1. congruence.
    + intros key Hv. simpl in Hv.
      destruct (key1 =? key) eqn:Ek; [discriminate|].
      apply String.eqb_neq in Ek.
      rewrite (Hkeep key Hv). apply Hother1. congruence.
    + intros key s2 k2 d2 Hv Hd Hproto. simpl in Hv.
      destruct (key1 =? key) eqn:Ek.
      * apply String.eqb_eq in Ek. subst key1. inversion Hv; subst sv1.
        rewrite (Hkeep key Hk1).
        rewrite (mergeKey_nested key s2 k ps k2 d2 Hd Hproto) in E1.
        inversion E1; subst ps1. apply assoc_set_same.
      * apply String.eqb_neq in Ek. apply Hdeep; auto.
        rewrite Hother1 by congruence. assumption.
    + auto.
Qed.

(** What [merge(object, source)] does at each key of two records. *)
Lemma merge_records (object source : value) :
  is_record object -> is_record source ->
  is_record (merge object source)
  /\ (forall key v, own source key = Some v -> is_leaf_at key v = true ->
                    get_prop (merge object source) key = v)
  /\ (forall key, own source key = Some VUndefined ->
                  has_prop object key = true ->
                  get_prop (merge object source) key = get_prop object key)
  /\ (forall key, own source key = None ->
                  get_prop (merge object source) key = get_prop object key)
  /\ (forall key s2 k2 d2,
        own source key = Some (VObject Plain s2) ->
        own object key = Some (VObject k2 d2) ->
        key <> "__proto__" ->
        get_prop (merge object source) key
        = merge (VObject k2 d2) (VObject Plain s2)).
Proof.
  intros (k & ps & -> & Hnd) (kd & sps & -> & Hnds).
  unfold merge. simpl truthy. cbv beta match. rewrite baseMerge_VObject.
  destruct (merge_props_object k sps ps Hnds)
    as (ps' & -> & Hleaf & Hundef & Hkeep & Hdeep & Hnd').
  split; [exists k, ps'; auto|]. simpl own. unfold get_prop. simpl own.
  repeat split.
  - intros key v Hv Hl. rewrite (Hleaf key v Hv Hl). reflexivity.
  - intros key Hv Hhas. rewrite (Hundef key Hv Hhas). reflexivity.
  - intros key Hv. rewrite (Hkeep key Hv). reflexivity.
  - intros key s2 k2 d2 Hv Hd Hproto.
    rewrite (Hdeep key s2 k2 d2 Hv Hd Hproto). reflexivity.
Qed.

(** *** The whole of what a merge leaves at a key and at an index *)

Lemma assignMergeValue_defined object key v :
  is_undefined object = false ->
  is_undefined (assignMergeValue object key v) = false.
Proof.
  intros H. unfold assignMergeValue, baseAssignValue.
  destruct (negb (is_undefined v)), (negb (has_prop object key));
    destruct object as [| | | | | |es nm|k ps]; try discriminate;
    try reflexivity;
    destruct (index_of_string key); try reflexivity;
    destruct (key =? "length"); try reflexivity;
    destruct v; try reflexivity;
    match goal with
    | |- context [(0 <=? ?n)%Z] => destruct (0 <=? n)%Z; reflexivity
    end.
Qed.

Lemma mergeKey_defined rec key sv object :
  is_undefined object = false ->
  is_undefined (mergeKey rec key sv object) = false.
Proof.
  intros H. destruct (mergeKey_assigns rec key sv object) as [x ->].
  apply assignMergeValue_defined. exact H.
Qed.

Lemma merge_props_defined sps : forall object,
  is_undefined object = false ->
  is_undefined (merge_props sps object) = false.
Proof.
  induction sps as [|[key sv] sps IH]; intros object H; cbn [merge_props];
    [exact H|].
  apply IH, mergeKey_defined, H.
Qed.

Lemma merge_elems_defined es : forall i object,
  is_undefined object = false ->
  is_undefined (merge_elems es i object) = false.
Proof.
  induction es as [|sv es IH]; intros i object H; cbn [merge_elems];
    [exact H|].
  apply IH, mergeKey_defined, H.
Qed.

(** A merge into something leaves something. *)
Lemma baseMerge_defined source object :
  is_undefined object = false ->
  is_undefined (baseMerge source object) = false.
Proof.
  intros H. destruct source as [| | | |s| |es nm|k sps]; try exact H.
  - simpl. generalize 0. revert object H.
    induction s as [|c s IH]; intros object H i; [exact H|].
    apply IH, assignMergeValue_defined, H.
  - rewrite baseMerge_VArray.
    apply merge_props_defined, merge_elems_defined, H.
  - rewrite baseMerge_VObject. apply merge_props_defined, H.
Qed.

(** The destination as the code works it out. *)
Lemma destination_at_safeGet object key :
  destination_at object key = safeGet object key.
Proof.
  unfold destination_at, safeGet.
  destruct (key =? "__proto__"), (key =? "constructor");
    destruct (get_prop object key); reflexivity.
Qed.

Lemma array_destination_code objValue :
  array_destination objValue
  = if isArray objValue then objValue
    else if isArrayLikeObject objValue then copyArray objValue
    else VArray [] [].
Proof.
  unfold array_destination, isArrayLikeObject, copyArray.
  destruct objValue; try reflexivity.
  simpl isArray. cbv beta match.
  destruct (get_prop (VObject k props) "length"); reflexivity.
Qed.

Lemma record_destination_code objValue :
  record_destination objValue
  = if negb (isObject objValue) || isFunction objValue then VObject Plain []
    else objValue.
Proof. destruct objValue; reflexivity. Qed.

Lemma array_destination_defined objValue :
  is_undefined (array_destination objValue) = false.
Proof.
  unfold array_destination.
  destruct objValue; try reflexivity.
  destruct (get_prop _ "length"); try reflexivity.
  destruct (0 <=? n)%Z; reflexivity.
Qed.

Lemma record_destination_defined objValue :
  is_undefined (record_destination objValue) = false.
Proof. destruct objValue; reflexivity. Qed.

(** One step of the loop on a destination object, at its own key. *)
Lemma mergeKey_at k ps key sv :
  exists ps',
    mergeKey (baseMerge sv) key sv (VObject k ps) = VObject k ps'
    /\ assoc key ps' = merged_own (VObject k ps) key sv.
Proof.
  assert (Hskip : exists ps',
             assignMergeValue (VObject k ps) key VUndefined = VObject k ps'
             /\ assoc key ps' =
                (if has_prop (VObject k ps) key then own (VObject k ps) key
                 else Some VUndefined)).
  { rewrite assignMergeValue_object. eexists. split; [reflexivity|].
    simpl negb. simpl orb.
    destruct (has_prop (VObject k ps) key); simpl;
      [reflexivity|apply assoc_set_same]. }
  assert (Hwrite : forall x,
             is_undefined x = false ->
             exists ps',
               assignMergeValue (VObject k ps) key x = VObject k ps'
               /\ assoc key ps' = Some x).
  { intros x Hx. rewrite assignMergeValue_object, Hx. eexists.
    split; [reflexivity|]. simpl. apply assoc_set_same. }
  unfold mergeKey, merged_own, merged_at, is_leaf_at.
  destruct sv as [| |b|n|s|f|es nm|[|] sps]; simpl isObject; cbv beta match;
    simpl is_undefined; simpl isFunction; simpl orb; simpl negb; simpl andb;
    cbv beta match;
    try (apply Hwrite; reflexivity).
  - exact Hskip.
  - rewrite andb_true_r.
    destruct (key =? "constructor"), (key =? "__proto__"); simpl;
      first [exact Hskip | apply Hwrite; reflexivity].
  - rewrite andb_false_r. simpl orb.
    destruct (key =? "__proto__"); [exact Hskip|].
    unfold merge. simpl truthy. cbv beta match.
    rewrite <- array_destination_code, <- destination_at_safeGet.
    apply Hwrite, baseMerge_defined, array_destination_defined.
  - rewrite andb_false_r. simpl orb.
    destruct (key =? "__proto__"); [exact Hskip|].
    unfold merge. simpl truthy. cbv beta match.
    rewrite <- record_destination_code, <- destination_at_safeGet.
    apply Hwrite, baseMerge_defined, record_destination_defined.
  - rewrite andb_false_r. simpl orb.
    destruct (key =? "__proto__"); simpl;
      [exact Hskip|apply Hwrite; reflexivity].
Qed.

(** What is left at a key depends on what the destination has there
    only. *)
Lemma merged_own_ext k ps ps' key v :
  assoc key ps' = assoc key ps ->
  merged_own (VObject k ps') key v = merged_own (VObject k ps) key v.
Proof.
  intros H. unfold merged_own, merged_at, has_prop, destination_at, get_prop.
  simpl own. rewrite H. reflexivity.
Qed.

(** The value read at the key is the value [merged_at] gives. *)
Lemma merged_own_value k ps ps' key v :
  assoc key ps' = merged_own (VObject k ps) key v ->
  get_prop (VObject k ps') key = merged_at (VObject k ps) key v.
Proof.
  unfold merged_own, get_prop, has_prop. simpl own. intros ->.
  destruct (negb (is_leaf_at key v)
            && (is_undefined v || isFunction v || (key =? "__proto__")))
    eqn:E.
  - apply andb_true_iff in E as [E1 E2]. apply negb_true_iff in E1.
    unfold merged_at. rewrite E1, E2. unfold get_prop. simpl own.
    destruct (assoc key ps); [reflexivity|]. simpl nullish. cbv beta match.
    destruct (inherited key); reflexivity.
  - reflexivity.
Qed.

Lemma merge_props_complete k sps : forall ps,
  NoDup (map fst sps) ->
  exists ps',
    merge_props sps (VObject k ps) = VObject k ps'
    /\ (forall key,
          assoc key ps' =
          match assoc key sps with
          | Some v => merged_own (VObject k ps) key v
          | None => assoc key ps
          end)
    /\ (NoDup (map fst ps) -> NoDup (map fst ps')).
Proof.
  induction sps as [|[key1 sv1] sps IH]; intros ps Hnd.
  - exists ps. simpl. auto.
  - simpl in Hnd. inversion Hnd as [|? ? Hk1 Hnd']; subst.
    apply assoc_None_notin in Hk1.
    cbn [merge_props].
    destruct (mergeKey_object k (baseMerge sv1) key1 sv1 ps)
      as (ps1 & E1 & Hother1 & Hnd1).
    destruct (mergeKey_at k ps key1 sv1) as (ps1' & E1' & Hat).
    rewrite E1 in E1'. inversion E1'; subst ps1'. rewrite E1.
    destruct (IH ps1 Hnd') as (ps' & E & Hall & Hnd2).
    exists ps'. split; [exact E|]. split; [|auto].
    intros key. rewrite Hall. simpl.
    destruct (key1 =? key) eqn:Ek.
    + apply String.eqb_eq in Ek. subst key1. rewrite Hk1. exact Hat.
    + apply String.eqb_neq in Ek.
      destruct (assoc key sps) as [v|].
      * apply merged_own_ext. apply Hother1. congruence.
      * apply Hother1. congruence.
Qed.

(** What [merge(object, source)] leaves at every key of two records: the
    value [merged_at] gives where the source has the key, the value of the
    destination elsewhere. *)
Lemma merge_records_complete (object source : value) :
  is_record object -> is_record source ->
  is_record (merge object source)
  /\ (forall key,
        get_prop (merge object source) key =
        match own source key with
        | Some v => merged_at object key v
        | None => get_prop object key
        end)
  /\ (forall key,
        has_prop (merge object source) key
        = has_prop object key || has_prop source key).
Proof.
  intros (k & ps & -> & Hnd) (kd & sps & -> & Hnds).
  unfold merge. simpl truthy. cbv beta match. rewrite baseMerge_VObject.
  destruct (merge_props_complete k sps ps Hnds) as (ps' & -> & Hall & Hnd').
  split; [exists k, ps'; auto|]. split.
  - intros key. simpl own. specialize (Hall key).
    destruct (assoc key sps) as [v|].
    + apply merged_own_value. exact Hall.
    + unfold get_prop. simpl own. rewrite Hall. reflexivity.
  - intros key. unfold has_prop. simpl own. rewrite (Hall key).
    destruct (assoc key sps) as [v|].
    + unfold merged_own, has_prop. simpl own.
      destruct (negb (is_leaf_at key v) && _);
        [|destruct (assoc key ps); [reflexivity|];
          destruct (inherited key); reflexivity].
      destruct (assoc key ps); [reflexivity|].
      destruct (inherited key); reflexivity.
    + destruct (assoc key ps); [reflexivity|].
      destruct (inherited key); reflexivity.
Qed.

Lemma index_is_no_member (i : nat) (k : string) :
  index_of_string k = None -> (string_of_index i =? k) = false.
Proof.
  intros H. apply String.eqb_neq. intros E. subst k.
  rewrite index_of_string_of_index in H. discriminate.
Qed.

Lemma inherited_index (i : nat) : inherited (string_of_index i) = None.
Proof.
  unfold inherited, mem_string. simpl.
  rewrite !index_is_no_member by reflexivity. reflexivity.
Qed.

Lemma own_index es nm i :
  own (VArray es nm) (string_of_index i) = nth_error es i.
Proof. simpl. rewrite index_of_string_of_index. reflexivity. Qed.

Lemma safeGet_index es nm i :
  safeGet (VArray es nm) (string_of_index i)
  = match nth_error es i with Some x => x | None => VUndefined end.
Proof.
  unfold safeGet, get_prop.
  rewrite !index_is_no_member by reflexivity. simpl andb. cbv beta match.
  rewrite own_index. destruct (nth_error es i); [reflexivity|].
  simpl nullish. cbv beta match. rewrite inherited_index. reflexivity.
Qed.

Lemma set_nth_unchanged es i x :
  nth_error es i = Some x -> set_nth es i x = es.
Proof.
  revert i. induction es as [|y es IH]; intros [|i] H; simpl in *;
    try discriminate.
  - congruence.
  - rewrite IH by assumption. reflexivity.
Qed.

Lemma set_nth_after pre d des v :
  set_nth (pre ++ d :: des) (List.length pre) v = (pre ++ v :: des)%list.
Proof. induction pre; simpl; congruence. Qed.

(** One step of the loop on a destination array, at an index. *)
Lemma mergeKey_index sv es nm i :
  mergeKey (baseMerge sv) (string_of_index i) sv (VArray es nm)
  = VArray (set_nth es i (merged_elem (nth_error es i) sv)) nm.
Proof.
  assert (Hwrite : forall x,
             is_undefined x = false ->
             assignMergeValue (VArray es nm) (string_of_index i) x
             = VArray (set_nth es i x) nm).
  { intros x Hx. unfold assignMergeValue, baseAssignValue. rewrite Hx.
    simpl negb. cbv beta match. rewrite index_of_string_of_index.
    reflexivity. }
  unfold mergeKey, merged_elem.
  rewrite !safeGet_index, !index_is_no_member by reflexivity.
  destruct sv as [| |b|n|s|f|ses snm|[|] sps]; simpl isObject;
    cbv beta match; simpl isFunction; simpl andb; simpl orb; cbv beta match;
    try (apply Hwrite; reflexivity).
  - unfold assignMergeValue, baseAssignValue, has_prop, own. simpl negb.
    cbv beta match. rewrite !index_of_string_of_index.
    destruct (nth_error es i) as [x|] eqn:E; simpl.
    + rewrite (set_nth_unchanged es i x E). reflexivity.
    + rewrite inherited_index. reflexivity.
  - unfold merge. simpl truthy. cbv beta match.
    rewrite <- array_destination_code.
    apply Hwrite, baseMerge_defined, array_destination_defined.
  - unfold merge. simpl truthy. cbv beta match.
    rewrite <- record_destination_code.
    apply Hwrite, baseMerge_defined, record_destination_defined.
Qed.

Lemma merge_elems_array nm ses : forall pre des,
  merge_elems ses (List.length pre) (VArray (pre ++ des) nm)
  = VArray (pre ++ merge_elements des ses) nm.
Proof.
  induction ses as [|sv ses IH]; intros pre des; cbn [merge_elems];
    [reflexivity|].
  rewrite mergeKey_index.
  destruct des as [|d des]; cbn [merge_elements].
  - rewrite app_nil_r.
    replace (nth_error pre (List.length pre)) with (@None value)
      by (symmetry; apply nth_error_None; lia).
    rewrite set_nth_length.
    replace (S (List.length pre))
      with (List.length (pre ++ [merged_elem None sv]))
      by (rewrite length_app; simpl; lia).
    pose proof (IH (pre ++ [merged_elem None sv])%list []) as H.
    rewrite app_nil_r in H. rewrite H, <- app_assoc. reflexivity.
  - rewrite nth_error_app2, Nat.sub_diag by lia. cbn [nth_error].
    rewrite set_nth_after.
    replace (S (List.length pre))
      with (List.length (pre ++ [merged_elem (Some d) sv]))
      by (rewrite length_app; simpl; lia).
    replace (pre ++ merged_elem (Some d) sv :: des)%list
      with ((pre ++ [merged_elem (Some d) sv]) ++ des)%list
      by (rewrite <- app_assoc; reflexivity).
    rewrite IH, <- app_assoc. reflexivity.
Qed.

(** An array merged into an array: index by index. *)
Lemma merge_arrays (des : list value) (nm : list (string * value))
    (ses : list value) :
  merge (VArray des nm) (VArray ses []) = VArray (merge_elements des ses) nm.
Proof.
  unfold merge. simpl truthy. cbv beta match. rewrite baseMerge_VArray.
  cbn [merge_props]. apply (merge_elems_array nm ses [] des).
Qed.

End MergeFacts.

(** ** The layer order resolver *)

Module LayerFacts.
Import Js Lodash Libs Spec JsFacts MergeFacts.

Lemma assoc_set_new {A} (k : string) (v : A) (l : list (string * A)) :
  assoc k l = None -> assoc_set k v l = (l ++ [(k, v)])%list.
Proof.
  induction l as [|[k' v'] l IH]; simpl; [reflexivity|].
  destruct (k' =? k); [discriminate|]. intros H. rewrite IH; auto.
Qed.

Lemma safeGet_absent_not_array ps layer :
  assoc layer ps = None ->
  isArray (safeGet (VObject Plain ps) layer) = false
  /\ isArrayLikeObject (safeGet (VObject Plain ps) layer) = false.
Proof.
  intros H. unfold safeGet, get_prop. simpl. rewrite H.
  unfold inherited.
  destruct (mem_string layer object_prototype_names);
    destruct (layer =? "__proto__"); simpl;
    destruct (layer =? "constructor"); simpl; auto.
Qed.

(** One step of the reduction, for a layer not yet in the table. *)
Lemma merge_new_layer ps layer (l : list string) :
  assoc layer ps = None ->
  layer <> "__proto__" ->
  merge (VObject Plain ps) (VObject Plain [(layer, VArray (map VString l) [])])
  = VObject Plain (ps ++ [(layer, VArray (map VString l) [])]).
Proof.
  intros Hnew Hproto. unfold merge. simpl truthy. cbv beta match.
  rewrite baseMerge_VObject.
  change (merge_props [(layer, VArray (map VString l) [])] (VObject Plain ps))
    with (mergeKey (baseMerge (VArray (map VString l) [])) layer
                   (VArray (map VString l) []) (VObject Plain ps)).
  unfold mergeKey. simpl isObject. cbv beta match zeta. simpl isFunction.
  rewrite andb_false_r. simpl orb.
  apply String.eqb_neq in Hproto. rewrite Hproto.
  destruct (safeGet_absent_not_array ps layer Hnew) as [-> ->].
  rewrite baseMerge_strings_fresh.
  unfold assignMergeValue, baseAssignValue. simpl.
  rewrite (assoc_set_new _ _ _ Hnew). reflexivity.
Qed.

Lemma reduce_table (allLayers rest : list string) (index : nat) ps :
  NoDup (map fst ps ++ rest) ->
  ~ In "__proto__" rest ->
  reduce_index
    (fun acc layer index =>
       merge acc (VObject Plain [(layer, slice allLayers (index + 1))]))
    rest index (VObject Plain ps)
  = VObject Plain (ps ++ table_from allLayers rest index).
Proof.
  revert index ps.
  induction rest as [|layer rest IH]; intros index ps Hnd Hproto;
    cbn [reduce_index table_from].
  - rewrite app_nil_r. reflexivity.
  - change (slice allLayers (index + 1))
      with (VArray (map VString (skipn (index + 1) allLayers)) []).
    rewrite merge_new_layer.
    + rewrite IH.
      * rewrite <- app_assoc. reflexivity.
      * rewrite map_app, <- app_assoc. exact Hnd.
      * simpl in Hproto. tauto.
    + apply assoc_None_notin. intros Hin.
      apply NoDup_remove_2 in Hnd. apply Hnd. apply in_or_app. auto.
    + simpl in Hproto. intros ->. tauto.
Qed.

Lemma layerToChoices_table (allLayers : list string) :
  NoDup allLayers -> ~ In "__proto__" allLayers ->
  layerToChoices allLayers = VObject Plain (table_from allLayers allLayers 0).
Proof.
  intros Hnd Hproto. unfold layerToChoices.
  rewrite (reduce_table allLayers allLayers 0 []); auto.
Qed.

Lemma table_from_keys allLayers rest index :
  map fst (table_from allLayers rest index) = rest.
Proof.
  revert index. induction rest; intros; simpl; [reflexivity|].
  rewrite IHrest. reflexivity.
Qed.

Lemma table_from_lookup allLayers rest index i layer :
  NoDup rest -> nth_error rest i = Some layer ->
  assoc layer (table_from allLayers rest index)
  = Some (slice allLayers (index + i + 1)).
Proof.
  revert index i. induction rest as [|x rest IH]; intros index i Hnd Hi.
  - destruct i; discriminate.
  - inversion Hnd as [|? ? Hx Hnd']; subst. destruct i as [|i]; simpl in *.
    + inversion Hi; subst. rewrite String.eqb_refl, Nat.add_0_r. reflexivity.
    + destruct (x =? layer) eqn:E.
      * apply String.eqb_eq in E. subst x. exfalso. apply Hx.
        eapply nth_error_In; eassumption.
      * rewrite (IH (S index) i Hnd' Hi). f_equal. f_equal. lia.
Qed.

(** For distinct layer names (the name [__proto__], which lodash's merge
    leaves out, apart), the lookup maps the layer at position [i] to the
    layers after it, the last one to the empty array, and throws for a name
    that is neither a layer nor a member objects inherit. *)
Theorem getLayersUnavailable_suffix (allLayers : list string) :
  NoDup allLayers ->
  ~ In "__proto__" allLayers ->
  (forall i layer,
      nth_error allLayers i = Some layer ->
      getLayersUnavailable allLayers layer = Ok (slice allLayers (i + 1)))
  /\ (forall layer,
        ~ In layer allLayers ->
        inherited layer = None ->
        getLayersUnavailable allLayers layer =
        Throw (Error (layer ++ " is not a valid layer choice"))).
Proof.
  intros Hnd Hproto. unfold getLayersUnavailable.
  rewrite (layerToChoices_table _ Hnd Hproto). split.
  - intros i layer Hi. unfold get_prop. simpl own.
    rewrite (table_from_lookup allLayers allLayers 0 i layer Hnd Hi).
    reflexivity.
  - intros layer Hin Hinh. unfold get_prop. simpl own.
    assert (E : assoc layer (table_from allLayers allLayers 0) = None).
    { apply assoc_None_notin. rewrite table_from_keys. exact Hin. }
    rewrite E, Hinh. reflexivity.
Qed.

Lemma getLayersUnavailable_suffix_witness :
  getLayersUnavailable ["a"; "b"; "c"] "a"
  = Ok (VArray [VString "b"; VString "c"] [])
  /\ getLayersUnavailable ["a"; "b"; "c"] "c" = Ok (VArray [] [])
  /\ getLayersUnavailable ["a"; "b"; "c"] "z"
     = Throw (Error "z is not a valid layer choice").
Proof.
  assert (Hnd : NoDup ["a"; "b"; "c"]).
  { repeat constructor; simpl; intuition discriminate. }
  assert (Hp : ~ In "__proto__" ["a"; "b"; "c"]).
  { simpl; intuition discriminate. }
  destruct (getLayersUnavailable_suffix ["a"; "b"; "c"] Hnd Hp) as [Hs Ht].
  split; [exact (Hs 0 "a" eq_refl)|].
  split; [exact (Hs 2 "c" eq_refl)|].
  apply Ht; [simpl; intuition discriminate|reflexivity].
Defined.

(** C7: the lookup is to throw for every name that is not in [allLayers].
    For ['a','b','c'] it does for 'z', but the name 'constructor', which is
    not a layer either, is read from the prototype of the table: the lookup
    returns that function and does not throw. *)
Theorem getLayersUnavailable_inherited_name :
  ~ In "constructor" ["a"; "b"; "c"]
  /\ getLayersUnavailable ["a"; "b"; "c"] "constructor"
     = Ok (VFunction "Object.prototype.constructor")
  /\ getLayersUnavailable ["a"; "b"; "c"] "z"
     = Throw (Error "z is not a valid layer choice").
Proof.
  split; [simpl; intuition discriminate|]. split; reflexivity.
Qed.

End LayerFacts.

(** ** The logging pipeline *)

Module LoggingFacts.
Import Js Libs Spec Globals Examples.

Section Configure.
Variable root : string.
Variables (c r lvl fmt : value).
Hypothesis Hroot : read c root = Ok r.
Hypothesis Hr : nullish r = false.
Hypothesis Hlvl : get_prop r "logLevel" = lvl.
Hypothesis Hfmt : get_prop r "logFormat" = fmt.

(** Up to the dispatch on the format: the level of the logger is set. *)
Lemma configureLogging_sets_level (n : Z) (p : Process) :
  Loglevel.normalizeLevel lvl = Ok n ->
  configureLogging root c p =
  (let p1 := set_logger
               (Loglevel.rebuild
                  (Loglevel.mkLogger n (Loglevel.methodFactory (logger p))
                                     (Loglevel.methods (logger p)))) p in
   match fmt with
   | VString s =>
       if s =? "json" then (useJsonLogFormat ;;~ ret Loglevel.log) p1
       else if s =? "simple" then (useSimpleLogFormat ;;~ ret Loglevel.log) p1
       else if s =? "full" then (useFullLogFormat ;;~ ret Loglevel.log) p1
       else (Throw (Error ("LogFormat " ++ to_string fmt
                           ++ " is not supported")), p1)
   | _ => (Throw (Error ("LogFormat " ++ to_string fmt
                         ++ " is not supported")), p1)
   end).
Proof.
  intros Hlevel.
  unfold configureLogging, bindM, lift, log_setLevel, Loglevel.setLevel.
  rewrite Hroot. unfold read. rewrite Hr, Hlvl, Hlevel, Hfmt.
  cbv zeta. destruct fmt; try reflexivity.
  simpl. destruct (s =? "json"); [reflexivity|].
  destruct (s =? "simple"); [reflexivity|].
  destruct (s =? "full"); reflexivity.
Qed.

(** A level that loglevel does not take: [setLevel] throws, before the
    format is looked at, and nothing has changed. *)
Lemma configureLogging_level_rejected (e : exn) (p : Process) :
  Loglevel.normalizeLevel lvl = Throw e ->
  configureLogging root c p = (Throw e, p).
Proof.
  intros Hlevel.
  unfold configureLogging, bindM, lift, log_setLevel, Loglevel.setLevel.
  rewrite Hroot. unfold read. rewrite Hr, Hlvl, Hlevel.
  destruct p; reflexivity.
Qed.

(** With a level that is taken and a format without a case, the call ends
    in the default case, after the level was set. *)
Lemma configureLogging_default_case (n : Z) (p : Process) :
  Loglevel.normalizeLevel lvl = Ok n ->
  supported_format fmt = false ->
  configureLogging root c p =
  (Throw (Error ("LogFormat " ++ to_string fmt ++ " is not supported")),
   set_logger
     (Loglevel.rebuild
        (Loglevel.mkLogger n (Loglevel.methodFactory (logger p))
                           (Loglevel.methods (logger p)))) p).
Proof.
  intros Hlevel Hun. rewrite (configureLogging_sets_level n p Hlevel).
  cbv zeta. destruct fmt; try reflexivity.
  simpl in Hun. rewrite !orb_false_r in Hun.
  apply orb_false_elim in Hun as [Hj Hun].
  apply orb_false_elim in Hun as [Hs Hf].
  simpl in Hj, Hs, Hf. rewrite Hj, Hs, Hf. reflexivity.
Qed.

(** C8, as the code has it: [configureLogging] sets the level first, so
    what it does with the format depends on the level.  For a config with a
    root logLevel that loglevel takes, a root logFormat that is not json,
    simple or full makes it throw an error whose message names the format,
    and each of the three supported formats makes it return the logger.
    For a config with a root logLevel that loglevel does not take, it
    throws the error of [setLevel], whatever the format. *)
Theorem configureLogging_unsupported_format (p : Process) :
  (forall n,
      Loglevel.normalizeLevel lvl = Ok n ->
      (supported_format fmt = false ->
       fst (configureLogging root c p) =
       Throw (Error ("LogFormat " ++ to_string fmt ++ " is not supported"))
       /\ mentions (to_string fmt)
                   ("LogFormat " ++ to_string fmt ++ " is not supported"))
      /\ (supported_format fmt = true ->
          fst (configureLogging root c p) = Ok Loglevel.log))
  /\ (forall e,
        Loglevel.normalizeLevel lvl = Throw e ->
        fst (configureLogging root c p) = Throw e).
Proof.
  split.
  - intros n Hlevel. split.
    + intros Hun. rewrite (configureLogging_default_case n p Hlevel Hun).
      split; [reflexivity|].
      exists "LogFormat ", " is not supported". reflexivity.
    + intros Hsup. rewrite (configureLogging_sets_level n p Hlevel).
      cbv zeta. destruct fmt; try discriminate.
      simpl in Hsup.
      destruct (s =? "json"); [reflexivity|].
      destruct (s =? "simple"); [reflexivity|].
      destruct (s =? "full"); [reflexivity|discriminate].
  - intros e Hlevel. rewrite (configureLogging_level_rejected e p Hlevel).
    reflexivity.
Qed.

(** C10, as the code has it: the level of the process-wide logger is set
    from the config before the dispatch on the format.  With a root
    logLevel that loglevel takes and an unsupported format, the call throws
    and the logger is left at the level of the config: the change is not
    rolled back.  With a root logLevel that loglevel does not take, the
    call throws in [setLevel] already and the logger, its level included,
    is as it was. *)
Theorem configureLogging_level_kept_on_error (p : Process) :
  supported_format fmt = false ->
  (forall n,
      Loglevel.normalizeLevel lvl = Ok n ->
      (exists e, fst (configureLogging root c p) = Throw e)
      /\ Loglevel.level (logger (snd (configureLogging root c p))) = n
      /\ snd (configureLogging root c p) =
         set_logger
           (Loglevel.rebuild
              (Loglevel.mkLogger n (Loglevel.methodFactory (logger p))
                                 (Loglevel.methods (logger p)))) p)
  /\ (forall e,
        Loglevel.normalizeLevel lvl = Throw e ->
        configureLogging root c p = (Throw e, p)).
Proof.
  intros Hun. split.
  - intros n Hlevel. rewrite (configureLogging_default_case n p Hlevel Hun).
    simpl. split; [eexists; reflexivity|]. split; reflexivity.
  - intros e Hlevel. apply configureLogging_level_rejected. exact Hlevel.
Qed.

End Configure.

Lemma configureLogging_unsupported_format_witness :
  (fst (configureLogging core_root
          (config_with [] (VString "debug") (VString "xml")) fresh_process)
   = Throw (Error "LogFormat xml is not supported")
   /\ mentions "xml" "LogFormat xml is not supported")
  /\ (fst (configureLogging core_root
             (config_with [] (VString "debug")
                          (VArray [VString "json"; VString "xml"] []))
             fresh_process)
      = Throw (Error "LogFormat json,xml is not supported")
      /\ mentions "json,xml" "LogFormat json,xml is not supported").
Proof.
  split.
  - exact (proj1 (proj1 (configureLogging_unsupported_format core_root
                           (config_with [] (VString "debug") (VString "xml"))
                           _ (VString "debug") (VString "xml")
                           eq_refl eq_refl eq_refl eq_refl fresh_process)
                        1%Z eq_refl)
                 eq_refl).
  - exact (proj1 (proj1 (configureLogging_unsupported_format core_root
                           (config_with [] (VString "debug")
                              (VArray [VString "json"; VString "xml"] []))
                           _ (VString "debug")
                           (VArray [VString "json"; VString "xml"] [])
                           eq_refl eq_refl eq_refl eq_refl fresh_process)
                        1%Z eq_refl)
                 eq_refl).
Defined.

(** C8 as stated fails: the root logFormat of this config is xml, which is
    not one of the three, and the error [configureLogging] throws is that
    of [setLevel] about the level, which does not mention xml; with the
    same level the supported format json does not make it return the
    logger either. *)
Lemma configureLogging_level_error_hides_format :
  supported_format (VString "xml") = false
  /\ fst (configureLogging core_root
            (config_with [] (VString "verbose") (VString "xml")) fresh_process)
     = Throw (TypeError "log.setLevel() called with invalid level: verbose")
  /\ ~ mentions "xml" "log.setLevel() called with invalid level: verbose"
  /\ supported_format (VString "json") = true
  /\ fst (configureLogging core_root
            (config_with [] (VString "verbose") (VString "json")) fresh_process)
     = Throw (TypeError "log.setLevel() called with invalid level: verbose").
Proof.
  repeat split; try reflexivity.
  intros Hm. apply ValidatorFacts.mentions_mentionsb in Hm.
  vm_compute in Hm. discriminate.
Qed.

Lemma configureLogging_level_kept_on_error_witness :
  Loglevel.level (logger fresh_process) = 3%Z
  /\ Loglevel.level
       (logger (snd (configureLogging core_root
                       (config_with [] (VString "debug") (VString "xml"))
                       fresh_process))) = 1%Z.
Proof.
  split; [reflexivity|].
  exact (proj1 (proj2 (proj1 (configureLogging_level_kept_on_error core_root
                  (config_with [] (VString "debug") (VString "xml"))
                  _ (VString "debug") (VString "xml")
                  eq_refl eq_refl eq_refl eq_refl fresh_process
                  eq_refl) 1%Z eq_refl))).
Defined.

(** C10 as stated fails: this config has an unsupported logFormat and the
    call throws, but the level of the logger has not been changed to the
    logLevel of the config: verbose is no level, [setLevel] threw, and the
    logger is at the level it had. *)
Lemma configureLogging_level_not_changed :
  supported_format (VString "xml") = false
  /\ (exists e,
        configureLogging core_root
          (config_with [] (VString "verbose") (VString "xml")) fresh_process
        = (Throw e, fresh_process))
  /\ Loglevel.level
       (logger (snd (configureLogging core_root
                       (config_with [] (VString "verbose") (VString "xml"))
                       fresh_process)))
     = Loglevel.level (logger fresh_process)
  /\ (forall n, Loglevel.normalizeLevel (VString "verbose") <> Ok n).
Proof.
  split; [reflexivity|]. split; [eexists; reflexivity|].
  split; [reflexivity|]. intros n. discriminate.
Qed.

End LoggingFacts.

(** ** The config loader *)

Module LoaderFacts.
Import Js Libs Spec Globals Examples.

Section Loader.
Variable root : string.
Variable host : Host.
Variable props : GlobalsServicesProps.

(** Probing the candidate paths finds the first that exists; it touches
    nothing but the record of effects, to which it adds probes only. *)
Lemma find_existing_spec (paths : list string) (p : Process) :
  exists probes,
    find_existing host paths p =
    (Ok (find (fs_existsSync host) paths),
     mkProcess (logger p) (cwd p) (configCache p) (heap p)
               (effects p ++ map ExistsSync probes)).
Proof.
  revert p. induction paths as [|path paths IH]; intros p; simpl.
  - exists []. simpl. rewrite app_nil_r. destruct p; reflexivity.
  - destruct (fs_existsSync host path).
    + exists [path]. reflexivity.
    + destruct (IH (emit (ExistsSync path) p)) as [probes E].
      exists (path :: probes). rewrite E. simpl. rewrite <- app_assoc.
      reflexivity.
Qed.





(** The first call: the routine starts, once.  When the working directory
    can be entered the config path is looked up and the routine is pending;
    otherwise it has ended, with the error of [process.chdir]. *)
Lemma _loadConfig_call_first (p : Process) :
  configCache p = NotCalled ->
  exists probes,
    _loadConfig_call host props p =
    match process_chdir host (workingDirectory props) with
    | Ok _ =>
        mkProcess (logger p) (workingDirectory props)
                  (InFlight (find (fs_existsSync host)
                                  (config_paths host props)))
                  (heap p)
                  (effects p ++ Chdir (workingDirectory props)
                             :: map ExistsSync probes)
    | Throw e =>
        mkProcess (logger p) (cwd p) (Settled (Throw e)) (heap p)
                  (effects p ++ Chdir (workingDirectory props)
                             :: map ExistsSync probes)
    end
    /\ (forall e, process_chdir host (workingDirectory props) = Throw e ->
                  probes = []).
Proof.
  intros Hc. unfold _loadConfig_call, memoized_call. rewrite Hc.
  unfold _loadConfig_begin, bindM, chdir, _findConfigPath.
  destruct (process_chdir host (workingDirectory props)) as [[]|e].
  - destruct (find_existing_spec (config_paths host props)
                (set_cwd (workingDirectory props)
                         (emit (Chdir (workingDirectory props)) p)))
      as [probes E].
    exists probes. unfold config_paths in E. rewrite E. simpl.
    rewrite <- app_assoc. split; [reflexivity|discriminate].
  - exists []. split; [reflexivity|auto].
Qed.

(** A config file that is found lies in the working directory, which can
    be entered then. *)
Lemma found_chdir (path : string) :
  find (fs_existsSync host) (config_paths host props) = Some path ->
  process_chdir host (workingDirectory props) = Ok tt.
Proof.
  intros Hfind. apply find_some in Hfind as [Hin Hex].
  unfold config_paths in Hin. simpl in Hin.
  destruct Hin as [<-|[<-|[]]];
    exact (directory_of_file host _ _ Hex).
Qed.

Lemma _loadConfig_call_again (p : Process) :
  configCache p <> NotCalled -> _loadConfig_call host props p = p.
Proof.
  intros Hc. unfold _loadConfig_call, memoized_call.
  destruct (configCache p); congruence.
Qed.

(** The rest of the routine touches nothing but the record of effects, to
    which it adds at most the import of the module. *)
Lemma _loadConfig_rest_frame (fullPath : option string) (p : Process) :
  exists imp,
    snd (_loadConfig_rest root host props fullPath p) =
    mkProcess (logger p) (cwd p) (configCache p) (heap p) (effects p ++ imp)
    /\ starts imp = 0 /\ imports imp <= 1.
Proof.
  unfold _loadConfig_rest.
  destruct fullPath as [path|].
  - destruct (path =? "").
    + exists []. rewrite app_nil_r. destruct p; simpl; auto.
    + exists [Import path]. unfold bindM, lift, ret. simpl.
      destruct (import_module host path) as [module|e]; simpl; auto.
      destruct (call_value host _ [] "func") as [config|e]; simpl; auto.
      destruct (validateConfig root config) as [[]|e]; simpl; auto.
  - exists []. rewrite app_nil_r. destruct p; simpl; auto.
Qed.

(** What the routine yields once the module is there: the export, or the
    module itself when it has no truthy default export, is called, and what
    it returns is validated. *)
Lemma _loadConfig_rest_result (path : string) (module : value) (p : Process) :
  path <> "" ->
  import_module host path = Ok module ->
  fst (_loadConfig_rest root host props (Some path) p) =
  (config <- call_value host
               (if truthy (get_prop module "default")
                then get_prop module "default" else module) [] "func" ;;
   validateConfig root config ;;; Ok config).
Proof.
  intros Hpath Himp. unfold _loadConfig_rest.
  apply String.eqb_neq in Hpath. rewrite Hpath.
  unfold bindM, lift, ret. rewrite Himp. simpl.
  destruct (call_value host _ [] "func") as [config|e]; simpl; auto.
  destruct (validateConfig root config) as [[]|e]; simpl; auto.
Qed.

Lemma _loadConfig_settle_pending (fullPath : option string) (p : Process) :
  configCache p = InFlight fullPath ->
  exists imp,
    _loadConfig_settle root host props p =
    mkProcess (logger p) (cwd p)
              (Settled (fst (_loadConfig_rest root host props fullPath p)))
              (heap p) (effects p ++ imp)
    /\ starts imp = 0 /\ imports imp <= 1.
Proof.
  intros Hc. unfold _loadConfig_settle, memoized_settle. rewrite Hc.
  destruct (_loadConfig_rest_frame fullPath p) as (imp & E & Hs & Hi).
  exists imp. split; [|auto].
  destruct (_loadConfig_rest root host props fullPath p) as [r p'].
  simpl in E. subst p'. reflexivity.
Qed.

Lemma _loadConfig_settle_other (p : Process) :
  (forall fullPath, configCache p <> InFlight fullPath) ->
  _loadConfig_settle root host props p = p.
Proof.
  intros Hc. unfold _loadConfig_settle, memoized_settle.
  destruct (configCache p) eqn:E; try reflexivity.
  exfalso. eapply Hc. reflexivity.
Qed.


(** [loadConfig] always leaves the promise settled, with the outcome it
    returns. *)
Lemma loadConfig_settles (p : Process) :
  configCache (snd (loadConfig root host props p))
  = Settled (fst (loadConfig root host props p)).
Proof.
  unfold loadConfig.
  destruct (configCache p) as [|fullPath|r] eqn:Hc.
  - destruct (_loadConfig_call_first p Hc) as (probes & -> & _).
    destruct (process_chdir host (workingDirectory props)) as [[]|e].
    + edestruct (_loadConfig_settle_pending) as (imp & -> & _);
        [reflexivity|]. reflexivity.
    + rewrite _loadConfig_settle_other by (simpl; congruence). reflexivity.
  - rewrite _loadConfig_call_again by congruence.
    destruct (_loadConfig_settle_pending fullPath p Hc) as (imp & -> & _).
    reflexivity.
  - rewrite _loadConfig_call_again by congruence.
    rewrite _loadConfig_settle_other by congruence.
    rewrite Hc. simpl. exact Hc.
Qed.





(** The outcome of the first load: that of the rest of the routine on the
    path that was found, or the error of [process.chdir]. *)
Lemma loadConfig_first_result (p : Process) :
  configCache p = NotCalled ->
  match process_chdir host (workingDirectory props) with
  | Ok _ =>
      exists p1,
        fst (loadConfig root host props p) =
        fst (_loadConfig_rest root host props
               (find (fs_existsSync host) (config_paths host props)) p1)
  | Throw e => fst (loadConfig root host props p) = Throw e
  end.
Proof.
  intros Hc. unfold loadConfig.
  destruct (_loadConfig_call_first p Hc) as (probes & -> & _).
  destruct (process_chdir host (workingDirectory props)) as [[]|e].
  - edestruct (_loadConfig_settle_pending) as (imp & -> & _); [reflexivity|].
    simpl. eexists. reflexivity.
  - rewrite _loadConfig_settle_other by (simpl; congruence). reflexivity.
Qed.

(** C3, as the code has it: the loader takes the default export of the
    module when it is truthy and the module itself otherwise, and calls it
    with no arguments.  What the call returns is validated, then returned
    and cached; an export that is not a function makes the load fail with a
    TypeError, which is cached as well. *)
Theorem loadConfig_calls_the_export (p : Process) (path : string)
    (module : value) :
  configCache p = NotCalled ->
  find (fs_existsSync host) (config_paths host props) = Some path ->
  path <> "" ->
  import_module host path = Ok module ->
  let export := if truthy (get_prop module "default")
                then get_prop module "default" else module in
  let res := fst (loadConfig root host props p) in
  configCache (snd (loadConfig root host props p)) = Settled res
  /\ (forall f, export = VFunction f ->
                res = (config <- call host f [] ;;
                       validateConfig root config ;;; Ok config))
  /\ (isFunction export = false ->
      res = Throw (TypeError "func is not a function")).
Proof.
  intros Hc Hfind Hpath Himp. cbv zeta.
  split; [apply loadConfig_settles|].
  pose proof (loadConfig_first_result p Hc) as Hfirst.
  rewrite (found_chdir path Hfind) in Hfirst. destruct Hfirst as [p1 ->].
  rewrite Hfind, (_loadConfig_rest_result path module p1 Hpath Himp).
  split.
  - intros f ->. reflexivity.
  - intros Hnf.
    destruct (if truthy (get_prop module "default")
              then get_prop module "default" else module);
      try discriminate; reflexivity.
Qed.

End Loader.

Lemma loadConfig_calls_the_export_witness :
  fst (loadConfig core_root
         (host_with_module (VFunction "configFactory") (config_of_apps []))
         props_unit_test fresh_process)
  = Ok (config_of_apps []).
Proof.
  exact (proj1 (proj2 (loadConfig_calls_the_export core_root
           (host_with_module (VFunction "configFactory") (config_of_apps []))
           props_unit_test fresh_process "/app/config.unit-test.mjs"
           (VObject Instance [("default", VFunction "configFactory")])
           eq_refl eq_refl ltac:(discriminate) eq_refl))
         "configFactory" eq_refl).
Defined.

(** C3 as stated fails: a module whose default export is a valid Config
    value, not a factory, is not used as it is; the loader calls it and the
    load fails. *)
Lemma loadConfig_rejects_config_value :
  validateConfig core_root (config_of_apps []) = Ok tt
  /\ import_module (host_with_module (config_of_apps []) VUndefined)
                   "/app/config.unit-test.mjs"
     = Ok (VObject Instance [("default", config_of_apps [])])
  /\ fst (loadConfig core_root
            (host_with_module (config_of_apps []) VUndefined)
            props_unit_test fresh_process)
     = Throw (TypeError "func is not a function").
Proof. repeat split; reflexivity. Qed.


End LoaderFacts.

(** ** The composition of the globals *)

Module GlobalsFacts.
Import Js Lodash Libs Spec Globals Examples JsFacts MergeFacts.

Lemma list_set_length h l v : List.length (list_set h l v) = List.length h.
Proof.
  revert l. induction h as [|x h IH]; intros [|l]; simpl; auto.
Qed.

Lemma nth_list_set_same h l v d :
  l < List.length h -> nth l (list_set h l v) d = v.
Proof.
  revert l. induction h as [|x h IH]; intros [|l] H; simpl in *;
    try lia; auto. apply IH. lia.
Qed.

Lemma nth_list_set_other h l l' v d :
  l <> l' -> nth l' (list_set h l v) d = nth l' h d.
Proof.
  revert l l'. induction h as [|x h IH]; intros [|l] [|l'] H; simpl;
    try reflexivity; try congruence. apply IH. congruence.
Qed.

Lemma list_set_twice h l v v' :
  list_set (list_set h l v) l v' = list_set h l v'.
Proof.
  revert l. induction h as [|x h IH]; intros [|l]; simpl; auto.
  rewrite IH. reflexivity.
Qed.

Lemma list_set_nth h l d : list_set h l (nth l h d) = h.
Proof.
  revert l. induction h as [|x h IH]; intros [|l]; simpl; auto.
  rewrite IH. reflexivity.
Qed.

Section Fold.
Variable host : Host.
Variables commonGlobals acc : nat.
Hypothesis Hdistinct : commonGlobals <> acc.

(** One app: the contribution is asked for with the common context as it
    is, and merged into the accumulator, where it is. *)
Lemma foldApp_eq (app : value) (p : Process) :
  foldApp host commonGlobals acc app p =
  match getGlobals host (nth commonGlobals (heap p) VUndefined) app with
  | Ok dep =>
      (Ok acc,
       set_heap (list_set (heap p) acc
                          (merge (nth acc (heap p) VUndefined) dep)) p)
  | Throw e => (Throw e, p)
  end.
Proof.
  unfold foldApp, bindM, deref, lift, merge_into.
  destruct (getGlobals host _ app); reflexivity.
Qed.

(** The fold writes to the accumulator only: the common context, and every
    other object, is after the fold what it was before, whether the fold
    ends or an app fails. *)
Lemma foldApps_frame (apps : list value) : forall (p : Process) (l : nat),
  l <> acc ->
  nth l (heap (snd (foldApps host commonGlobals acc apps p))) VUndefined
  = nth l (heap p) VUndefined.
Proof.
  induction apps as [|app apps IH]; intros p l Hl; simpl; [reflexivity|].
  unfold bindM. rewrite foldApp_eq.
  destruct (getGlobals host _ app) as [dep|e]; [|reflexivity].
  rewrite IH by assumption. simpl.
  apply nth_list_set_other. congruence.
Qed.

(** When every app gives its contribution, the accumulator ends as the
    left fold of [merge] over the contributions, in the order of the
    apps. *)
Lemma foldApps_fold_left (apps deps : list value) : forall (p : Process),
  acc < List.length (heap p) ->
  Forall2 (fun app dep =>
             getGlobals host (nth commonGlobals (heap p) VUndefined) app
             = Ok dep) apps deps ->
  foldApps host commonGlobals acc apps p =
  (Ok acc,
   set_heap (list_set (heap p) acc
               (fold_left merge deps (nth acc (heap p) VUndefined))) p).
Proof.
  revert deps. induction apps as [|app apps IH]; intros deps p Hacc Hall.
  - inversion Hall; subst. simpl. unfold ret.
    rewrite list_set_nth. destruct p; reflexivity.
  - inversion Hall as [|? dep ? deps' Hdep Hrest]; subst.
    simpl. unfold bindM. rewrite foldApp_eq, Hdep.
    rewrite (IH deps').
    + simpl. rewrite nth_list_set_same by assumption.
      rewrite list_set_twice. reflexivity.
    + simpl. rewrite list_set_length. assumption.
    + simpl. rewrite nth_list_set_other by congruence. assumption.
Qed.

(** Throughout the fold the accumulator is a record. *)
Lemma foldApps_record (apps : list value) : forall (p : Process),
  acc < List.length (heap p) ->
  is_record (nth acc (heap p) VUndefined) ->
  is_record
    (nth acc (heap (snd (foldApps host commonGlobals acc apps p))) VUndefined).
Proof.
  induction apps as [|app apps IH]; intros p Hacc Hrec; simpl; [assumption|].
  unfold bindM. rewrite foldApp_eq.
  destruct (getGlobals host _ app) as [dep|e]; [|assumption].
  apply IH; simpl.
  - rewrite list_set_length. assumption.
  - rewrite nth_list_set_same by assumption.
    destruct Hrec as (k & ps & -> & Hnd).
    destruct (merge_into_object k ps dep) as (ps' & -> & Hnd').
    exists k, ps'. auto.
Qed.

(** A fold that ends has had a contribution from every app, each asked
    for with the common context as it was at the start. *)
Lemma foldApps_Ok_inv (apps : list value) : forall (p p1 : Process) l,
  acc < List.length (heap p) ->
  foldApps host commonGlobals acc apps p = (Ok l, p1) ->
  exists deps,
    Forall2 (fun app dep =>
               getGlobals host (nth commonGlobals (heap p) VUndefined) app
               = Ok dep) apps deps
    /\ p1 = set_heap (list_set (heap p) acc
                        (fold_left merge deps (nth acc (heap p) VUndefined))) p.
Proof.
  induction apps as [|app apps IH]; intros p p1 l Hacc Hrun.
  - exists []. split; [constructor|]. simpl in *. unfold ret in Hrun.
    inversion Hrun; subst. rewrite list_set_nth. destruct p1; reflexivity.
  - simpl in Hrun. unfold bindM in Hrun. rewrite foldApp_eq in Hrun.
    destruct (getGlobals host _ app) as [dep|e] eqn:Hdep; [|discriminate].
    apply IH in Hrun; [|simpl; rewrite list_set_length; assumption].
    destruct Hrun as (deps & Hall & ->). simpl in Hall.
    exists (dep :: deps). split.
    + constructor; [assumption|].
      eapply Forall2_impl; [|exact Hall]. intros a b Hab.
      rewrite nth_list_set_other in Hab by congruence. exact Hab.
    + simpl. rewrite nth_list_set_same by assumption.
      rewrite list_set_twice. reflexivity.
Qed.

Lemma foldApps_returns_acc (apps : list value) : forall (p : Process) l,
  fst (foldApps host commonGlobals acc apps p) = Ok l -> l = acc.
Proof.
  induction apps as [|app apps IH]; intros p l; simpl.
  - unfold ret. simpl. congruence.
  - unfold bindM. rewrite foldApp_eq.
    destruct (getGlobals host _ app) as [dep|e]; [apply IH|discriminate].
Qed.

Lemma foldApps_length (apps : list value) : forall (p : Process),
  List.length (heap (snd (foldApps host commonGlobals acc apps p)))
  = List.length (heap p).
Proof.
  induction apps as [|app apps IH]; intros p; simpl; [reflexivity|].
  unfold bindM. rewrite foldApp_eq.
  destruct (getGlobals host _ app) as [dep|e]; [|reflexivity].
  rewrite IH. simpl. apply list_set_length.
Qed.

End Fold.

Section LoadGlobals.
Variable root : string.
Variable host : Host.
Variable props : GlobalsServicesProps.

(** What a run of [loadGlobals] has done when its fold ends: the config was
    valid and the logging configured, in a state [p0]; then the common
    context and the empty accumulator were created, next to each other, and
    the apps folded. *)
Lemma loadGlobals_fold_inv arg p cgl gl p1 :
  loadGlobals_fold root host props arg p = (Ok (cgl, gl), p1) ->
  exists config log apps p0,
    cgl = List.length (heap p0) /\ gl = S cgl
    /\ (isConfig root arg = true -> config = arg)
    /\ validateConfig root config = Ok tt
    /\ config_apps root config = Ok apps
    /\ foldApps host cgl gl apps
         (set_heap (heap p0 ++ [commonGlobals_of host props config log;
                                VObject Plain []]) p0)
       = (Ok gl, p1).
Proof.
  unfold loadGlobals_fold, bindM.
  destruct ((if isConfig root arg then ret arg else loadConfig root host props) p)
    as [[config|e] pa] eqn:Hconfig; [|discriminate].
  unfold lift at 1.
  destruct (validateConfig root config) as [[]|e] eqn:Hvalid; [|discriminate].
  destruct (configureLogging root config pa) as [[log|e] p0]; [|discriminate].
  unfold alloc at 1. unfold lift at 1.
  destruct (config_apps root config) as [apps|e] eqn:Happs; [|discriminate].
  unfold alloc at 1. simpl heap.
  destruct (foldApps host _ _ apps _) as [[globals|e] p'] eqn:Hfold;
    [|discriminate].
  unfold ret. intros H. inversion H; subst.
  exists config, log, apps, p0.
  rewrite length_app in *. simpl in *.
  replace (List.length (heap p0) + 1) with (S (List.length (heap p0)))
    in * by lia.
  pose proof (foldApps_returns_acc host _ _ apps _ gl
                (f_equal fst Hfold)) as Hgl.
  subst gl. repeat split; auto.
  { intros Harg. rewrite Harg in Hconfig. unfold ret in Hconfig. congruence. }
  rewrite <- Hfold. f_equal. unfold set_heap, commonGlobals_of. simpl.
  rewrite <- app_assoc. reflexivity.
Qed.

Lemma fold_left_merge_record (deps : list value) (v : value) :
  is_record v -> is_record (fold_left merge deps v).
Proof.
  revert v. induction deps as [|dep deps IH]; intros v Hv; simpl; [assumption|].
  apply IH. destruct Hv as (k & ps & -> & Hnd).
  destruct (merge_into_object k ps dep) as (ps' & -> & Hnd').
  exists k, ps'. auto.
Qed.

(** The state at the end of the fold: the common context is the record
    that was built, untouched; the accumulator holds the contributions of
    the apps merged from left to right into an empty object. *)
Lemma loadGlobals_fold_state arg p cgl gl p1 :
  loadGlobals_fold root host props arg p = (Ok (cgl, gl), p1) ->
  exists config log apps deps,
    (isConfig root arg = true -> config = arg)
    /\ validateConfig root config = Ok tt
    /\ config_apps root config = Ok apps
    /\ Forall2 (fun app dep =>
                  getGlobals host (commonGlobals_of host props config log) app
                  = Ok dep) apps deps
    /\ cgl <> gl
    /\ cgl < List.length (heap p1)
    /\ nth cgl (heap p1) VUndefined = commonGlobals_of host props config log
    /\ nth gl (heap p1) VUndefined = fold_left merge deps (VObject Plain []).
Proof.
  intros Hrun.
  destruct (loadGlobals_fold_inv arg p cgl gl p1 Hrun)
    as (config & log & apps & p0 & -> & -> & Harg & Hvalid & Happs & Hfold).
  assert (Hcg : nth (List.length (heap p0))
                    (heap p0 ++ [commonGlobals_of host props config log;
                                 VObject Plain []]) VUndefined
                = commonGlobals_of host props config log).
  { rewrite app_nth2, Nat.sub_diag by lia. reflexivity. }
  assert (Hacc : nth (S (List.length (heap p0)))
                     (heap p0 ++ [commonGlobals_of host props config log;
                                  VObject Plain []]) VUndefined
                 = VObject Plain []).
  { rewrite app_nth2 by lia.
    replace (S (List.length (heap p0)) - List.length (heap p0)) with 1 by lia.
    reflexivity. }
  apply foldApps_Ok_inv in Hfold;
    [|lia|simpl; rewrite length_app; simpl; lia].
  destruct Hfold as (deps & Hall & ->). simpl heap in Hall.
  rewrite Hcg in Hall.
  exists config, log, apps, deps. simpl heap.
  rewrite list_set_length, length_app. simpl.
  repeat split; auto; try lia.
  - rewrite nth_list_set_other by lia. exact Hcg.
  - rewrite nth_list_set_same by (rewrite length_app; simpl; lia).
    rewrite Hacc. reflexivity.
Qed.

Lemma commonGlobals_of_record config log :
  is_record (commonGlobals_of host props config log).
Proof.
  eexists _, _. split; [reflexivity|]. simpl.
  repeat constructor; simpl; intuition discriminate.
Qed.

Lemma loadGlobals_eq arg p cgl gl p1 :
  loadGlobals_fold root host props arg p = (Ok (cgl, gl), p1) ->
  loadGlobals root host props arg p =
  (Ok cgl,
   set_heap (list_set (heap p1) cgl
               (merge (nth cgl (heap p1) VUndefined)
                      (nth gl (heap p1) VUndefined))) p1).
Proof.
  intros Hrun. unfold loadGlobals, bindM. rewrite Hrun. reflexivity.
Qed.

End LoadGlobals.

(** C1, as the code has it: the accumulated globals of [loadGlobals] are
    the contributions of the apps, each obtained with the common context,
    merged one after the other, in the order of [config.root.apps], into an
    empty object.  Each of these merges leaves at every key what
    [merged_at] says: a key the later contribution does not have keeps its
    value; a value of the later contribution that is written as it is
    (anything but [undefined], an array or a record) overrides the value of
    the accumulator; an [undefined] keeps the value that is there; a record
    is merged in the same way into the record the accumulator has at the
    key, or into a new one; and an array is not put in the place of the
    array of the accumulator but merged into it index by index, the
    elements past its end staying.  With app1 contributing [{x: 2, y: 3}]
    and app2 [{x: 1}], the globals have x = 1 and y = 3; with [{a: [1, 2,
    3]}] and then [{a: [9]}] they would have a = [9, 2, 3]. *)
Theorem loadGlobals_folds_contributions :
  (forall root host props arg p cgl gl p1,
      loadGlobals_fold root host props arg p = (Ok (cgl, gl), p1) ->
      exists config log apps deps,
        (isConfig root arg = true -> config = arg)
        /\ config_apps root config = Ok apps
        /\ Forall2 (fun app dep =>
                      getGlobals host (commonGlobals_of host props config log)
                                 app = Ok dep) apps deps
        /\ nth gl (heap p1) VUndefined
           = fold_left merge deps (VObject Plain []))
  /\ (forall acc dep,
        is_record acc -> is_record dep ->
        is_record (merge acc dep)
        /\ (forall key,
              get_prop (merge acc dep) key =
              match own dep key with
              | Some v => merged_at acc key v
              | None => get_prop acc key
              end)
        /\ (forall key,
              has_prop (merge acc dep) key
              = has_prop acc key || has_prop dep key))
  /\ (forall des nm ses,
        merge (VArray des nm) (VArray ses [])
        = VArray (merge_elements des ses) nm)
  /\ (let run := loadGlobals core_root host_two_apps props_unit_test
                             two_apps fresh_process in
      exists l, fst run = Ok l
                /\ get_prop (nth l (heap (snd run)) VUndefined) "x"
                   = VNumber 1
                /\ get_prop (nth l (heap (snd run)) VUndefined) "y"
                   = VNumber 3)
  /\ merge (VObject Plain
              [("a", VArray [VNumber 1; VNumber 2; VNumber 3] [])])
           (VObject Plain [("a", VArray [VNumber 9] [])])
     = VObject Plain [("a", VArray [VNumber 9; VNumber 2; VNumber 3] [])].
Proof.
  split; [|split; [|split; [|split]]].
  - intros root host props arg p cgl gl p1 Hrun.
    destruct (loadGlobals_fold_state root host props arg p cgl gl p1 Hrun)
      as (config & log & apps & deps & Harg & _ & Happs & Hall & _ & _ & _ & Hg).
    exists config, log, apps, deps. auto.
  - intros acc dep. apply merge_records_complete.
  - apply merge_arrays.
  - exists 0. repeat split; reflexivity.
  - reflexivity.
Qed.

Lemma loadGlobals_folds_contributions_witness :
  exists config log apps deps,
    (isConfig core_root two_apps = true -> config = two_apps)
    /\ config_apps core_root config = Ok apps
    /\ Forall2 (fun app dep =>
                  getGlobals host_two_apps
                    (commonGlobals_of host_two_apps props_unit_test config log)
                    app = Ok dep) apps deps
    /\ VObject Plain [("x", VNumber 1); ("y", VNumber 3)]
       = fold_left merge deps (VObject Plain []).
Proof.
  exact (proj1 loadGlobals_folds_contributions core_root host_two_apps
           props_unit_test two_apps fresh_process 0 1 _ eq_refl).
Defined.

(** C1 as stated fails: app2 contributes the leaf [undefined] at the key x
    that app1 has contributed 2 at, and the globals keep the 2. *)
Lemma loadGlobals_undefined_does_not_override :
  let run := loadGlobals_fold core_root host_undefined_leaf props_unit_test
                              two_apps fresh_process in
  fst run = Ok (0, 1)
  /\ getGlobals host_undefined_leaf (nth 0 (heap (snd run)) VUndefined)
                (app_with_globals "app2" "app2Globals")
     = Ok (VObject Plain [("x", VUndefined)])
  /\ get_prop (nth 1 (heap (snd run)) VUndefined) "x" = VNumber 2.
Proof. repeat split; reflexivity. Qed.

(** C2, as the code has it: when the fold over the apps ends,
    [loadGlobals] returns the merge of the accumulated globals into the
    common context, both of them records.  The returned record has at
    every key what [merged_at] says: a key the globals do not have keeps
    the value of the common context; a value of the globals that is written
    as it is (anything but [undefined], an array or a record; at log, node
    and constants as at any key) is the value of the returned record; an
    [undefined] keeps the value of the common context; a record is merged
    in the same way into what the common context has at the key, and an
    array is merged index by index into an array that is there. *)
Theorem loadGlobals_merges_globals_over_context root host props arg p
    cgl gl p1 :
  loadGlobals_fold root host props arg p = (Ok (cgl, gl), p1) ->
  let commonContext := nth cgl (heap p1) VUndefined in
  let globals := nth gl (heap p1) VUndefined in
  exists p2,
    loadGlobals root host props arg p = (Ok cgl, p2)
    /\ nth cgl (heap p2) VUndefined = merge commonContext globals
    /\ is_record commonContext
    /\ is_record globals
    /\ is_record (nth cgl (heap p2) VUndefined)
    /\ (forall key,
          get_prop (nth cgl (heap p2) VUndefined) key =
          match own globals key with
          | Some v => merged_at commonContext key v
          | None => get_prop commonContext key
          end)
    /\ (forall key,
          has_prop (nth cgl (heap p2) VUndefined) key
          = has_prop commonContext key || has_prop globals key)
    /\ (forall des nm ses,
          merge (VArray des nm) (VArray ses [])
          = VArray (merge_elements des ses) nm).
Proof.
  intros Hrun. cbv zeta.
  destruct (loadGlobals_fold_state root host props arg p cgl gl p1 Hrun)
    as (config & log & apps & deps & _ & _ & _ & _ & Hne & Hlt & Hcg & Hg).
  assert (Hrc : is_record (nth cgl (heap p1) VUndefined)).
  { rewrite Hcg. apply commonGlobals_of_record. }
  assert (Hrg : is_record (nth gl (heap p1) VUndefined)).
  { rewrite Hg. apply fold_left_merge_record.
    exists Plain, []. split; [reflexivity|constructor]. }
  eexists. split; [apply loadGlobals_eq; exact Hrun|].
  simpl heap. rewrite nth_list_set_same by assumption.
  split; [reflexivity|]. split; [exact Hrc|]. split; [exact Hrg|].
  destruct (merge_records_complete _ _ Hrc Hrg) as (Hrec & Hall & Hhas).
  split; [exact Hrec|]. split; [exact Hall|].
  split; [exact Hhas|apply merge_arrays].
Qed.

Lemma loadGlobals_merges_globals_over_context_witness :
  exists p2,
    loadGlobals core_root host_two_apps props_unit_test two_apps fresh_process
    = (Ok 0, p2)
    /\ get_prop (nth 0 (heap p2) VUndefined) "x" = VNumber 1
    /\ get_prop (nth 0 (heap p2) VUndefined) "log" = Loglevel.log.
Proof.
  destruct (loadGlobals_merges_globals_over_context core_root host_two_apps
              props_unit_test two_apps fresh_process 0 1 _ eq_refl)
    as (p2 & Hrun & _ & _ & _ & _ & Hall & _).
  exists p2. split; [exact Hrun|]. split.
  - exact (Hall "x").
  - exact (Hall "log").
Defined.

(** C2 as stated fails: the globals share the key log with the common
    context, their value at it is [undefined], and the returned record has
    the logger of the common context at log. *)
Lemma loadGlobals_keeps_log_over_undefined :
  let fold := loadGlobals_fold core_root host_undefined_log props_unit_test
                               one_app fresh_process in
  let run := loadGlobals core_root host_undefined_log props_unit_test
                         one_app fresh_process in
  fst fold = Ok (0, 1)
  /\ own (nth 1 (heap (snd fold)) VUndefined) "log" = Some VUndefined
  /\ own (nth 0 (heap (snd fold)) VUndefined) "log" = Some Loglevel.log
  /\ fst run = Ok 0
  /\ get_prop (nth 0 (heap (snd run)) VUndefined) "log" = Loglevel.log.
Proof. repeat split; reflexivity. Qed.

(** C9, as the code has it: the fold over the apps writes to the
    accumulator only, so that at its end, and after each of its steps, the
    common context is the record that was built; the final merge then
    writes the accumulated globals into that very record and returns
    it. *)
Theorem loadGlobals_writes_into_commonGlobals :
  (forall host commonGlobals acc apps p,
      commonGlobals <> acc ->
      nth commonGlobals
          (heap (snd (foldApps host commonGlobals acc apps p))) VUndefined
      = nth commonGlobals (heap p) VUndefined)
  /\ (forall root host props arg p cgl gl p1,
        loadGlobals_fold root host props arg p = (Ok (cgl, gl), p1) ->
        exists config log,
          nth cgl (heap p1) VUndefined = commonGlobals_of host props config log
          /\ cgl <> gl
          /\ loadGlobals root host props arg p =
             (Ok cgl,
              set_heap (list_set (heap p1) cgl
                          (merge (commonGlobals_of host props config log)
                                 (nth gl (heap p1) VUndefined))) p1)).
Proof.
  split.
  - intros host commonGlobals acc apps p E.
    apply foldApps_frame. exact E.
  - intros root host props arg p cgl gl p1 Hrun.
    destruct (loadGlobals_fold_state root host props arg p cgl gl p1 Hrun)
      as (config & log & apps & deps & _ & _ & _ & _ & Hne & Hlt & Hcg & Hg).
    exists config, log. split; [exact Hcg|]. split; [exact Hne|].
    rewrite <- Hcg. apply loadGlobals_eq. exact Hrun.
Qed.

Lemma loadGlobals_writes_into_commonGlobals_witness :
  exists config log,
    nth 0 (heap (snd (loadGlobals_fold core_root host_two_apps props_unit_test
                        two_apps fresh_process))) VUndefined
    = commonGlobals_of host_two_apps props_unit_test config log
    /\ 0 <> 1
    /\ fst (loadGlobals core_root host_two_apps props_unit_test two_apps
              fresh_process) = Ok 0.
Proof.
  destruct (proj2 loadGlobals_writes_into_commonGlobals core_root
              host_two_apps props_unit_test two_apps fresh_process 0 1 _
              eq_refl) as (config & log & Hcg & Hne & Hrun).
  exists config, log. split; [exact Hcg|]. split; [exact Hne|].
  rewrite Hrun. reflexivity.
Defined.

(** C9 as stated fails: the common context built by [loadGlobals] sits at
    location 0; at the end of the fold it has no x, and after the final
    merge the same record has x = 1: it has been changed in place. *)
Lemma loadGlobals_changes_commonGlobals :
  let fold := loadGlobals_fold core_root host_two_apps props_unit_test
                               two_apps fresh_process in
  let run := loadGlobals core_root host_two_apps props_unit_test
                         two_apps fresh_process in
  fst fold = Ok (0, 1)
  /\ fst run = Ok 0
  /\ has_prop (nth 0 (heap (snd fold)) VUndefined) "x" = false
  /\ get_prop (nth 0 (heap (snd run)) VUndefined) "x" = VNumber 1
  /\ nth 0 (heap (snd run)) VUndefined <> nth 0 (heap (snd fold)) VUndefined.
Proof.
  repeat split; try reflexivity. vm_compute. discriminate.
Qed.

End GlobalsFacts.

(** ** More on the validator *)

Module ValidatorMore.
Import Js Libs Spec Schema JsFacts ValidatorFacts.

Lemma all_chars_app p a b :
  Lodash.all_chars p (a ++ b) = Lodash.all_chars p a && Lodash.all_chars p b.
Proof.
  induction a as [|c a IH]; simpl; [reflexivity|].
  rewrite IH, andb_assoc. reflexivity.
Qed.

Lemma has_char_app c a b :
  Lodash.has_char c (a ++ b) = Lodash.has_char c a || Lodash.has_char c b.
Proof.
  induction a as [|c' a IH]; simpl; [reflexivity|].
  rewrite IH, orb_assoc. reflexivity.
Qed.

Lemma append_empty_r (s : string) : s ++ "" = s.
Proof. induction s; simpl; congruence. Qed.

Lemma append_snoc (s : string) (c : ascii) (r : string) :
  (s ++ String c "") ++ r = s ++ String c r.
Proof. induction s; simpl; congruence. Qed.

Lemma append_length (a b : string) :
  String.length (a ++ b) = String.length a + String.length b.
Proof. induction a; simpl; congruence. Qed.

(** A path is split at its dots only: a prefix without dots stays in the
    segment. *)
Lemma split_dots_no_dot a s cur :
  Lodash.has_char "." a = false ->
  Lodash.split_dots (a ++ s) cur = Lodash.split_dots s (cur ++ a).
Proof.
  revert cur. induction a as [|c a IH]; intros cur H; simpl in *.
  - rewrite append_empty_r. reflexivity.
  - apply orb_false_elim in H as [Hc Ha]. rewrite Hc.
    rewrite IH by assumption. rewrite append_snoc. reflexivity.
Qed.

Lemma stringToPath_namespaced root prop :
  Lodash.has_char "." root = false ->
  Lodash.has_char "." prop = false ->
  Lodash.stringToPath (_getNamespaceProperty root prop) = [root; prop].
Proof.
  intros Hr Hp. unfold Lodash.stringToPath, _getNamespaceProperty.
  rewrite split_dots_no_dot by assumption. simpl.
  rewrite <- (append_empty_r prop) at 1.
  rewrite split_dots_no_dot by assumption. reflexivity.
Qed.

(** No member objects inherit has a dot in its name. *)
Lemma inherited_dotted k :
  Lodash.has_char "." k = true -> inherited k = None.
Proof.
  intros H. unfold inherited.
  destruct (mem_string k object_prototype_names) eqn:E; [|reflexivity].
  unfold mem_string in E. apply existsb_exists in E as (x & Hin & Hx).
  apply String.eqb_eq in Hx. subst x.
  simpl in Hin.
  repeat (destruct Hin as [<-|Hin]; [discriminate|]). contradiction.
Qed.

Section SchemaConfig.
Variable root : string.
Hypothesis Hroot : namespace_ok root = true.
Variable c : ConfigSpec.

Let root_object : value := root_value c.

Lemma namespace_ok_parts :
  Lodash.has_char "." root = false
  /\ (root =? "environment") = false
  /\ (root =? "systemName") = false.
Proof.
  unfold namespace_ok in Hroot.
  repeat (apply andb_true_iff in Hroot as [Hroot ?]).
  repeat match goal with
         | H : negb _ = true |- _ => apply negb_true_iff in H
         end.
  auto.
Qed.

Lemma get_prop_config_root :
  get_prop (config_value root c) root = root_object.
Proof.
  destruct namespace_ok_parts as (_ & He & Hs).
  unfold get_prop, config_value. cbn [own assoc].
  rewrite (String.eqb_sym "environment"), He.
  rewrite (String.eqb_sym "systemName"), Hs.
  rewrite String.eqb_refl. reflexivity.
Qed.

(** [get(config, `${root}.${prop}`)] goes to the property under the root
    namespace. *)
Lemma get_namespaced prop :
  Lodash.has_char "." prop = false ->
  Lodash.get (config_value root c) (_getNamespaceProperty root prop)
  = get_prop root_object prop.
Proof.
  intros Hprop. destruct namespace_ok_parts as (Hdot & He & Hs).
  assert (Hpath : Lodash.has_char "." (_getNamespaceProperty root prop) = true).
  { unfold _getNamespaceProperty. rewrite has_char_app. simpl.
    apply orb_true_r. }
  assert (Hkey : Lodash.isKey (_getNamespaceProperty root prop)
                              (config_value root c) = false).
  { unfold Lodash.isKey, Lodash.is_plain_prop, Lodash.is_deep_prop.
    rewrite Hpath. simpl.
    replace (Lodash.all_chars Lodash.is_word_char
               (_getNamespaceProperty root prop)) with false.
    2:{ unfold _getNamespaceProperty. rewrite all_chars_app. simpl.
        rewrite andb_false_r. reflexivity. }
    simpl. unfold has_prop, config_value. cbn [own assoc].
    rewrite (inherited_dotted _ Hpath).
    destruct ("environment" =? _getNamespaceProperty root prop) eqn:E1.
    { apply String.eqb_eq in E1. rewrite <- E1 in Hpath. discriminate. }
    destruct ("systemName" =? _getNamespaceProperty root prop) eqn:E2.
    { apply String.eqb_eq in E2. rewrite <- E2 in Hpath. discriminate. }
    destruct (root =? _getNamespaceProperty root prop) eqn:E3; [|reflexivity].
    apply String.eqb_eq in E3. apply (f_equal String.length) in E3.
    unfold _getNamespaceProperty in E3. rewrite append_length in E3.
    simpl in E3. lia. }
  unfold Lodash.get, Lodash.castPath. rewrite Hkey.
  rewrite stringToPath_namespaced by assumption.
  simpl nullish. cbv beta match. unfold Lodash.baseGet.
  simpl nullish. cbv beta match.
  rewrite get_prop_config_root. reflexivity.
Qed.

Lemma app_value_has_name a : has_name (app_value a).
Proof. split; [reflexivity|]. unfold get_prop. simpl. discriminate. Qed.

Lemma config_value_validates :
  validateConfig root (config_value root c) = Ok tt.
Proof.
  apply forEach_Ok. unfold _configItemsToCheck.
  repeat constructor.
  - unfold configHasKey. rewrite get_namespaced by reflexivity. reflexivity.
  - unfold configItemIsArray. rewrite get_namespaced by reflexivity.
    reflexivity.
  - unfold configHasKey. rewrite get_namespaced by reflexivity. reflexivity.
  - unfold configItemIsArray. rewrite get_namespaced by reflexivity.
    reflexivity.
  - unfold allAppsHaveAName, read. simpl nullish. cbv beta match. simpl.
    rewrite get_prop_config_root. simpl.
    assert (E : forEach appHasAName (map app_value (cfg_apps c)) = Ok tt).
    { apply forEach_Ok. apply Forall_forall. intros x Hx.
      apply in_map_iff in Hx as (a & <- & _).
      apply appHasAName_Ok. apply app_value_has_name. }
    rewrite E. reflexivity.
  - unfold configItemIsType. rewrite get_namespaced by reflexivity.
    reflexivity.
  - unfold configItemIsType. rewrite get_namespaced by reflexivity.
    reflexivity.
Qed.

(** X1: a config that has every key of the schema validates, whatever its
    values: any strings for the environment, the system name, the log level
    and the log format, any apps (named with any string, the empty one
    included) and any layers. *)
Theorem validateConfig_accepts_schema :
  validateConfig root (config_value root c) = Ok tt.
Proof. exact config_value_validates. Qed.

Lemma read_config_root :
  read (config_value root c) root = Ok (root_value c).
Proof.
  unfold read. simpl nullish. cbv beta match.
  rewrite get_prop_config_root. reflexivity.
Qed.

Lemma config_apps_config_value :
  Globals.config_apps root (config_value root c)
  = Ok (map app_value (cfg_apps c)).
Proof.
  unfold Globals.config_apps. rewrite read_config_root. reflexivity.
Qed.

End SchemaConfig.

Lemma validateConfig_accepts_schema_witness :
  validateConfig Examples.core_root
    (config_value Examples.core_root
       (mkConfig "prod" "shop" [mkApp "" None; mkApp "orders" (Some "f")]
                 ["services"] "verbose" "xml")) = Ok tt.
Proof.
  exact (validateConfig_accepts_schema Examples.core_root eq_refl
           (mkConfig "prod" "shop" [mkApp "" None; mkApp "orders" (Some "f")]
                     ["services"] "verbose" "xml")).
Defined.

Lemma validated_isConfig (root : string) (c : value) :
  validateConfig root c = Ok tt -> isConfig root c = true.
Proof.
  intros H. apply forEach_Ok in H.
  unfold _configItemsToCheck in H.
  inversion H as [|? ? Henv H1]; subst. inversion H1 as [|? ? _ H2]; subst.
  inversion H2 as [|? ? _ H3]; subst. inversion H3 as [|? ? _ H4]; subst.
  inversion H4 as [|? ? _ H5]; subst. inversion H5 as [|? ? Harr _]; subst.
  unfold isConfig.
  destruct (typeof c =? "string") eqn:Ety.
  - destruct c; discriminate.
  - unfold configItemIsArray in Harr.
    destruct (Lodash.get c (_getNamespaceProperty root "layerOrder"));
      try discriminate. reflexivity.
Qed.

(** X2: whatever validates is a config for [isConfig]: [loadGlobals] takes
    a validated config as it is and does not go to the loader.  A string
    never is one. *)
Theorem validateConfig_isConfig (root : string) (c : value) :
  (validateConfig root c = Ok tt -> isConfig root c = true)
  /\ (forall s, isConfig root (VString s) = false).
Proof.
  split; [apply validated_isConfig|reflexivity].
Qed.

(** X3: a candidate that is no object at all ([undefined], [null], a
    boolean, a number, a string, a function) is turned down by the first
    check, with its descriptive error and not an error of a read. *)
Theorem validateConfig_not_an_object (root : string) (c : value) :
  match c with VArray _ _ | VObject _ _ => False | _ => True end ->
  validateConfig root c = Throw (Error "environment was not found in config").
Proof.
  destruct c; intros H; try contradiction; reflexivity.
Qed.

Lemma validateConfig_not_an_object_witness :
  validateConfig Examples.core_root VUndefined
  = Throw (Error "environment was not found in config")
  /\ validateConfig Examples.core_root (VString "production")
     = Throw (Error "environment was not found in config").
Proof.
  split.
  - exact (validateConfig_not_an_object Examples.core_root VUndefined I).
  - exact (validateConfig_not_an_object Examples.core_root
             (VString "production") I).
Defined.

(** X4: with the six checks before it passed, an app that is [null] or
    [undefined] and comes before any app without a name makes the validator
    fail with the TypeError of reading its name, not with the error about a
    missing name. *)
Theorem validateConfig_null_app (root : string) (c r : value)
    (pre post : list value) (a : value) (named : list (string * value)) :
  Forall (passes c) (firstn 6 (_configItemsToCheck root)) ->
  read c root = Ok r ->
  nullish r = false ->
  get_prop r "apps" = VArray (pre ++ a :: post) named ->
  Forall has_name pre ->
  nullish a = true ->
  exists msg, validateConfig root c = Throw (TypeError msg).
Proof.
  intros Hsix Hr Hnr Happs Hpre Ha.
  rewrite (validateConfig_after_six _ _ Hsix). simpl.
  unfold allAppsHaveAName. rewrite Hr. simpl. rewrite Hnr, Happs.
  exists ("Cannot read properties of "
          ++ (if is_undefined a then "undefined" else "null")
          ++ " (reading 'name')").
  rewrite (forEach_app_Throw appHasAName pre a post
             (TypeError ("Cannot read properties of "
                         ++ (if is_undefined a then "undefined" else "null")
                         ++ " (reading 'name')"))).
  - reflexivity.
  - eapply Forall_impl; [|exact Hpre]. apply appHasAName_Ok.
  - unfold appHasAName, read. rewrite Ha. reflexivity.
Qed.

Lemma validateConfig_null_app_witness :
  exists msg,
    validateConfig Examples.core_root
      (Examples.config_of_apps
         [Examples.app_named (VString "first"); VNull; Examples.app_unnamed])
    = Throw (TypeError msg).
Proof.
  exact (validateConfig_null_app Examples.core_root
           (Examples.config_of_apps
              [Examples.app_named (VString "first"); VNull;
               Examples.app_unnamed])
           _ [Examples.app_named (VString "first")] [Examples.app_unnamed]
           VNull [] ltac:(repeat constructor) eq_refl eq_refl eq_refl
           ltac:(repeat constructor; discriminate) eq_refl).
Defined.

End ValidatorMore.

(** ** More on the layer order resolver *)

Module LayerMore.
Import Js Libs Spec Schema LayerFacts.

Lemma in_skipn_iff {A} (l : list A) (k : nat) (x : A) :
  In x (skipn k l) <-> exists j, k <= j /\ nth_error l j = Some x.
Proof.
  revert k. induction l as [|y l IH]; intros k.
  - rewrite skipn_nil. split; [intros []|].
    intros (j & _ & H). destruct j; discriminate.
  - destruct k as [|k]; cbn [skipn].
    + split.
      * intros H. apply In_nth_error in H as [j Hj]. exists j. split; [lia|auto].
      * intros (j & _ & H). eapply nth_error_In; eassumption.
    + rewrite IH. split.
      * intros (j & Hj & H). exists (S j). split; [lia|exact H].
      * intros (j & Hj & H). destruct j as [|j]; [lia|].
        exists j. split; [lia|exact H].
Qed.

Section Order.
Variable allLayers : list string.
Hypothesis Hdistinct : NoDup allLayers.
Hypothesis Hproto : ~ In "__proto__" allLayers.

(** With distinct layers, the layers unavailable to the layer at position
    [i] are those at the positions after [i]. *)
Lemma unavailable_iff i a b :
  nth_error allLayers i = Some a ->
  unavailable allLayers a b <->
  exists j, i < j /\ nth_error allLayers j = Some b.
Proof.
  intros Hi.
  pose proof (proj1 (getLayersUnavailable_suffix allLayers Hdistinct Hproto)
                i a Hi) as E.
  unfold unavailable. rewrite E. unfold slice. split.
  - intros (es & Hes & Hin). inversion Hes; subst es.
    apply in_map_iff in Hin as (x & Hx & Hin). inversion Hx; subst x.
    apply in_skipn_iff in Hin as (j & Hj & Hnth). exists j. split; [lia|auto].
  - intros (j & Hj & Hnth). eexists. split; [reflexivity|].
    apply in_map. apply in_skipn_iff. exists j. split; [lia|auto].
Qed.

Lemma position_unique i j a :
  nth_error allLayers i = Some a -> nth_error allLayers j = Some a -> i = j.
Proof.
  intros Hi Hj. apply (proj1 (NoDup_nth_error allLayers) Hdistinct).
  - apply nth_error_Some. congruence.
  - congruence.
Qed.

(** X5: for distinct layers the lookup is a strict total order on them: no
    layer is unavailable to itself, of two different layers exactly one is
    unavailable to the other, and unavailability is transitive.  The layer
    at position [i] of [n] has exactly [n - i - 1] unavailable layers. *)
Theorem getLayersUnavailable_strict_order :
  (forall a, In a allLayers -> ~ unavailable allLayers a a)
  /\ (forall a b, In a allLayers -> In b allLayers -> a <> b ->
                  (unavailable allLayers a b <-> ~ unavailable allLayers b a))
  /\ (forall a b c, In a allLayers ->
                    unavailable allLayers a b -> unavailable allLayers b c ->
                    unavailable allLayers a c)
  /\ (forall i a, nth_error allLayers i = Some a ->
                  exists es, getLayersUnavailable allLayers a = Ok (VArray es [])
                             /\ List.length es = List.length allLayers - i - 1).
Proof.
  repeat split.
  - intros a Ha Hu. apply In_nth_error in Ha as [i Hi].
    apply (unavailable_iff i a a Hi) in Hu as (j & Hj & Hnth).
    pose proof (position_unique i j a Hi Hnth). lia.
  - intros Hab Hba.
    apply In_nth_error in H as [i Hi]. apply In_nth_error in H0 as [j Hj].
    apply (unavailable_iff i a b Hi) in Hab as (j' & Hlt & Hj').
    apply (unavailable_iff j b a Hj) in Hba as (i' & Hlt' & Hi').
    pose proof (position_unique _ _ _ Hj Hj').
    pose proof (position_unique _ _ _ Hi Hi'). lia.
  - intros Hnba.
    apply In_nth_error in H as [i Hi]. apply In_nth_error in H0 as [j Hj].
    apply (unavailable_iff i a b Hi).
    destruct (Nat.lt_trichotomy i j) as [Hlt|[Heq|Hgt]].
    + exists j. auto.
    + subst j. congruence.
    + exfalso. apply Hnba. apply (unavailable_iff j b a Hj). exists i. auto.
  - intros a b c Ha Hab Hbc. apply In_nth_error in Ha as [i Hi].
    apply (unavailable_iff i a b Hi) in Hab as (j & Hij & Hj).
    apply (unavailable_iff j b c Hj) in Hbc as (k & Hjk & Hk).
    apply (unavailable_iff i a c Hi). exists k. split; [lia|auto].
  - intros i a Hi. eexists. split.
    + apply (proj1 (getLayersUnavailable_suffix allLayers Hdistinct Hproto)
               i a Hi).
    + rewrite length_map, length_skipn. lia.
Qed.

End Order.

Lemma getLayersUnavailable_strict_order_witness :
  unavailable ["services"; "features"; "entries"] "services" "entries"
  <-> ~ unavailable ["services"; "features"; "entries"] "entries" "services".
Proof.
  assert (Hnd : NoDup ["services"; "features"; "entries"]).
  { repeat constructor; simpl; intuition discriminate. }
  assert (Hp : ~ In "__proto__" ["services"; "features"; "entries"]).
  { simpl; intuition discriminate. }
  apply (proj1 (proj2 (getLayersUnavailable_strict_order
                         ["services"; "features"; "entries"] Hnd Hp)));
    simpl; auto; discriminate.
Defined.

(** Whatever the other layers are, a step of the reduction for another
    layer leaves the entry of [layer] as it is. *)
Lemma merge_other_layer ps layer other v :
  other <> layer ->
  exists ps',
    Lodash.merge (VObject Plain ps) (VObject Plain [(other, v)])
    = VObject Plain ps'
    /\ assoc layer ps' = assoc layer ps.
Proof.
  intros Hne. unfold Lodash.merge. simpl truthy. cbv beta match.
  rewrite MergeFacts.baseMerge_VObject. cbn [Lodash.merge_props].
  destruct (MergeFacts.mergeKey_object Plain (Lodash.baseMerge v) other v ps)
    as (ps' & -> & Hother & _).
  exists ps'. split; [reflexivity|]. apply Hother. congruence.
Qed.

Lemma reduce_other_layers (allLayers rest : list string) (layer : string) :
  ~ In layer rest ->
  forall index ps,
  exists ps',
    reduce_index
      (fun acc l index =>
         Lodash.merge acc (VObject Plain [(l, slice allLayers (index + 1))]))
      rest index (VObject Plain ps)
    = VObject Plain ps'
    /\ assoc layer ps' = assoc layer ps.
Proof.
  induction rest as [|x rest IH]; intros Hnotin index ps; cbn [reduce_index].
  - exists ps. auto.
  - destruct (merge_other_layer ps layer x (slice allLayers (index + 1)))
      as (ps1 & -> & E1).
    { intros ->. apply Hnotin. left. reflexivity. }
    destruct (IH (fun H => Hnotin (or_intror H)) (S index) ps1)
      as (ps' & -> & E).
    exists ps'. split; [reflexivity|]. congruence.
Qed.

Lemma reduce_index_app {A B} (f : B -> A -> nat -> B) l1 l2 index acc :
  reduce_index f (l1 ++ l2) index acc
  = reduce_index f l2 (index + List.length l1) (reduce_index f l1 index acc).
Proof.
  revert index acc. induction l1 as [|x l1 IH]; intros index acc; simpl.
  - rewrite Nat.add_0_r. reflexivity.
  - rewrite IH. f_equal. lia.
Qed.

Lemma layerToChoices_single (pre post : list string) (layer : string) :
  ~ In layer pre -> ~ In layer post -> layer <> "__proto__" ->
  get_prop (layerToChoices (pre ++ layer :: post)) layer
  = VArray (map VString post) [].
Proof.
  intros Hpre Hpost Hproto.
  unfold layerToChoices.
  rewrite reduce_index_app. cbn [reduce_index]. simpl Nat.add.
  destruct (reduce_other_layers (pre ++ layer :: post) pre layer Hpre 0 [])
    as (ps1 & -> & E1).
  assert (Hstep : Lodash.merge (VObject Plain ps1)
            (VObject Plain
               [(layer, slice (pre ++ layer :: post) (List.length pre + 1))])
          = VObject Plain
              (ps1 ++ [(layer,
                        slice (pre ++ layer :: post) (List.length pre + 1))])).
  { unfold slice. apply LayerFacts.merge_new_layer; assumption. }
  rewrite Hstep.
  destruct (reduce_other_layers (pre ++ layer :: post) post layer Hpost
              (S (List.length pre))
              (ps1 ++ [(layer,
                        slice (pre ++ layer :: post) (List.length pre + 1))]))
    as (ps2 & -> & E2).
  unfold get_prop. simpl own. rewrite E2.
  assert (Hassoc : forall (l : list (string * value)) v,
            assoc layer l = None -> assoc layer (l ++ [(layer, v)]) = Some v).
  { intros l v. induction l as [|[k' v'] l IH]; simpl.
    - rewrite String.eqb_refl. reflexivity.
    - destruct (k' =? layer); [discriminate|]. exact IH. }
  rewrite (Hassoc _ _ E1). unfold slice.
  replace (List.length pre + 1) with (S (List.length pre)) by lia.
  rewrite skipn_app, skipn_all2, Nat.sub_succ_l, Nat.sub_diag by lia.
  reflexivity.
Qed.

(** X24: a layer that occurs once in [allLayers] gets the layers after it,
    whatever the other layers are, repeated or not. *)
Theorem getLayersUnavailable_single_occurrence (pre post : list string)
    (layer : string) :
  ~ In layer pre -> ~ In layer post -> layer <> "__proto__" ->
  getLayersUnavailable (pre ++ layer :: post) layer
  = Ok (VArray (map VString post) []).
Proof.
  intros Hpre Hpost Hproto. unfold getLayersUnavailable.
  rewrite (layerToChoices_single pre post layer Hpre Hpost Hproto).
  reflexivity.
Qed.

Lemma set_nth_inside (cur : list value) (i : nat) (v : value) :
  i < List.length cur ->
  Lodash.set_nth cur i v = (firstn i cur ++ v :: skipn (S i) cur)%list.
Proof.
  revert i. induction cur as [|x cur IH]; intros [|i] H; simpl in *;
    try lia; [reflexivity|].
  rewrite IH by lia. reflexivity.
Qed.

(** Merging an array of strings into a longer array overwrites its
    beginning and keeps its end. *)
Lemma merge_elems_overlay (l : list string) : forall (i : nat) (cur : list value),
  i + List.length l <= List.length cur ->
  Lodash.merge_elems (map VString l) i (VArray cur [])
  = VArray (firstn i cur ++ map VString l ++ skipn (i + List.length l) cur) [].
Proof.
  induction l as [|s l IH]; intros i cur Hlen; simpl in *.
  - rewrite Nat.add_0_r, firstn_skipn. reflexivity.
  - unfold Lodash.mergeKey, Lodash.assignMergeValue, Lodash.baseAssignValue.
    simpl. rewrite JsFacts.index_of_string_of_index.
    rewrite set_nth_inside by lia.
    rewrite IH.
    + f_equal.
      assert (Hi : List.length (firstn i cur) = i)
        by (apply firstn_length_le; lia).
      replace (firstn (S i) (firstn i cur ++ VString s :: skipn (S i) cur))
        with (firstn i cur ++ [VString s])%list.
      2:{ rewrite firstn_app, Hi.
          replace (S i - i) with 1 by lia.
          rewrite (@firstn_all2 _ (S i) (firstn i cur)) by (rewrite Hi; lia).
          reflexivity. }
      replace (skipn (S i + List.length l)
                 (firstn i cur ++ VString s :: skipn (S i) cur))
        with (skipn (i + S (List.length l)) cur).
      2:{ rewrite skipn_app, Hi.
          rewrite (skipn_all2 (firstn i cur)) by (rewrite Hi; lia).
          replace (S i + List.length l - i) with (S (List.length l)) by lia.
          cbn [app].
          change (skipn (S (List.length l)) (VString s :: skipn (S i) cur))
            with (skipn (List.length l) (skipn (S i) cur)).
          rewrite skipn_skipn. f_equal. lia. }
      rewrite <- app_assoc. reflexivity.
    + rewrite length_app, firstn_length_le by lia. cbn [List.length].
      rewrite length_skipn. lia.
Qed.

(** The step of the reduction for a layer that has an entry already: the
    new list is laid over the old one. *)
Lemma merge_repeated_layer ps layer (l : list string) (cur : list value) :
  assoc layer ps = Some (VArray cur []) ->
  layer <> "__proto__" ->
  List.length l <= List.length cur ->
  Lodash.merge (VObject Plain ps)
               (VObject Plain [(layer, VArray (map VString l) [])])
  = VObject Plain
      (assoc_set layer
         (VArray (map VString l ++ skipn (List.length l) cur) []) ps).
Proof.
  intros Hold Hproto Hlen. unfold Lodash.merge. simpl truthy. cbv beta match.
  rewrite MergeFacts.baseMerge_VObject.
  change (Lodash.merge_props [(layer, VArray (map VString l) [])]
                             (VObject Plain ps))
    with (Lodash.mergeKey (Lodash.baseMerge (VArray (map VString l) [])) layer
            (VArray (map VString l) []) (VObject Plain ps)).
  unfold Lodash.mergeKey. simpl isObject. cbv beta match zeta.
  simpl isFunction. rewrite andb_false_r. simpl orb.
  apply String.eqb_neq in Hproto. rewrite Hproto.
  assert (Hget : Lodash.safeGet (VObject Plain ps) layer = VArray cur []).
  { unfold Lodash.safeGet, get_prop. simpl own. rewrite Hold. simpl typeof.
    rewrite andb_false_r, Hproto. reflexivity. }
  rewrite Hget. simpl isArray. cbv beta match.
  rewrite MergeFacts.baseMerge_VArray. simpl Lodash.merge_props.
  rewrite (merge_elems_overlay l 0 cur) by (simpl; lia).
  reflexivity.
Qed.

(** X25: the layers have to be distinct: for a layer that occurs twice the
    lookup gives the layers after its second occurrence laid over the
    layers after its first, a list as long as the first that begins like
    the second. *)
Theorem getLayersUnavailable_repeated_layer (pre mid post : list string)
    (layer : string) :
  ~ In layer pre -> ~ In layer mid -> ~ In layer post ->
  layer <> "__proto__" ->
  getLayersUnavailable (pre ++ layer :: mid ++ layer :: post) layer
  = Ok (VArray (map VString (post ++ skipn (List.length post)
                                        (mid ++ layer :: post))) []).
Proof.
  intros Hpre Hmid Hpost Hproto.
  set (allLayers := (pre ++ layer :: mid ++ layer :: post)%list).
  assert (Hget : get_prop (layerToChoices allLayers) layer
                 = VArray (map VString (post ++ skipn (List.length post)
                                                 (mid ++ layer :: post))) []).
  { unfold layerToChoices. unfold allLayers at 2.
    rewrite reduce_index_app. cbn [reduce_index]. simpl Nat.add.
    rewrite reduce_index_app. cbn [reduce_index].
    destruct (reduce_other_layers allLayers pre layer Hpre 0 [])
      as (ps1 & -> & E1).
    assert (Hfirst : slice allLayers (List.length pre + 1)
                     = VArray (map VString (mid ++ layer :: post)) []).
    { unfold slice, allLayers.
      replace (List.length pre + 1) with (S (List.length pre)) by lia.
      rewrite skipn_app, skipn_all2, Nat.sub_succ_l, Nat.sub_diag by lia.
      reflexivity. }
    rewrite Hfirst.
    rewrite LayerFacts.merge_new_layer; [|exact E1|exact Hproto].
    match goal with
    | |- context [reduce_index ?f mid ?i (VObject Plain ?ps)] =>
        destruct (reduce_other_layers allLayers mid layer Hmid i ps)
          as (ps2 & -> & E2)
    end.
    assert (Hassoc : forall (l : list (string * value)) v,
              assoc layer l = None -> assoc layer (l ++ [(layer, v)]) = Some v).
    { intros l v. induction l as [|[k' v'] l IH]; simpl.
      - rewrite String.eqb_refl. reflexivity.
      - destruct (k' =? layer); [discriminate|]. exact IH. }
    rewrite (Hassoc _ _ E1) in E2.
    assert (Hsecond : slice allLayers
                        (S (List.length pre) + List.length mid + 1)
                      = VArray (map VString post) []).
    { unfold slice, allLayers.
      replace (S (List.length pre) + List.length mid + 1)
        with (List.length (pre ++ layer :: mid) + 1)
        by (rewrite length_app; simpl; lia).
      replace (pre ++ layer :: mid ++ layer :: post)%list
        with ((pre ++ layer :: mid) ++ layer :: post)%list
        by (rewrite <- app_assoc; reflexivity).
      replace (List.length (pre ++ layer :: mid) + 1)
        with (S (List.length (pre ++ layer :: mid))) by lia.
      rewrite skipn_app, skipn_all2, Nat.sub_succ_l, Nat.sub_diag by lia.
      reflexivity. }
    rewrite Hsecond.
    rewrite (merge_repeated_layer ps2 layer post
               (map VString (mid ++ layer :: post)) E2 Hproto)
      by (rewrite length_map, length_app; simpl; lia).
    match goal with
    | |- context [reduce_index ?f post ?i (VObject Plain ?ps)] =>
        destruct (reduce_other_layers allLayers post layer Hpost i ps)
          as (ps3 & -> & E3)
    end.
    unfold get_prop. simpl own. rewrite E3, JsFacts.assoc_set_same.
    rewrite (map_app VString post), skipn_map. reflexivity. }
  unfold getLayersUnavailable. rewrite Hget. reflexivity.
Qed.

Lemma getLayersUnavailable_repeated_layer_witness :
  getLayersUnavailable ["a"; "b"; "a"; "c"] "a"
  = Ok (VArray [VString "c"; VString "a"; VString "c"] []).
Proof.
  exact (getLayersUnavailable_repeated_layer [] ["b"] ["c"] "a"
           ltac:(simpl; intuition discriminate)
           ltac:(simpl; intuition discriminate)
           ltac:(simpl; intuition discriminate)
           ltac:(discriminate)).
Defined.

Lemma getLayersUnavailable_single_occurrence_witness :
  getLayersUnavailable ["a"; "b"; "a"; "c"; "d"] "c"
  = Ok (VArray [VString "d"] []).
Proof.
  exact (getLayersUnavailable_single_occurrence ["a"; "b"; "a"] ["d"] "c"
           ltac:(simpl; intuition discriminate)
           ltac:(simpl; intuition discriminate)
           ltac:(discriminate)).
Defined.

End LayerMore.

(** ** More on the logging pipeline *)

Module LoggingMore.
Import Js Libs Spec Globals Examples LoggingFacts.

Lemma set_logger_same (p : Process) : set_logger (logger p) p = p.
Proof. destruct p; reflexivity. Qed.

(** X6: a log level that loglevel does not know makes [configureLogging]
    throw the error of [setLevel] before it looks at the format: the
    logger keeps its level and no formatter is installed; the process is
    as it was. *)
Theorem configureLogging_invalid_level (root : string) (c r lvl : value)
    (e : exn) (p : Process) :
  read c root = Ok r ->
  nullish r = false ->
  get_prop r "logLevel" = lvl ->
  Loglevel.normalizeLevel lvl = Throw e ->
  configureLogging root c p = (Throw e, p).
Proof.
  intros Hroot Hr Hlvl Hlevel.
  unfold configureLogging, bindM, lift, log_setLevel, Loglevel.setLevel.
  rewrite Hroot. unfold read. rewrite Hr, Hlvl, Hlevel.
  rewrite set_logger_same. reflexivity.
Qed.

Lemma configureLogging_invalid_level_witness :
  exists e,
    configureLogging core_root
      (config_with [] (VString "verbose") (VString "json")) fresh_process
    = (Throw e, fresh_process).
Proof.
  eexists.
  exact (configureLogging_invalid_level core_root
           (config_with [] (VString "verbose") (VString "json"))
           _ (VString "verbose") _ fresh_process
           eq_refl eq_refl eq_refl eq_refl).
Defined.

(** A call with a level and a format that are supported: the level is set
    and the formatter put around the factory that was installed. *)
Lemma configureLogging_supported (root : string) (c r lvl : value) (n : Z)
    (f : Loglevel.LogFormat) (p : Process) :
  read c root = Ok r ->
  nullish r = false ->
  get_prop r "logLevel" = lvl ->
  Loglevel.normalizeLevel lvl = Ok n ->
  get_prop r "logFormat" = VString (Loglevel.LogFormat_value f) ->
  configureLogging root c p =
  (Ok Loglevel.log,
   set_logger
     (Loglevel.mkLogger n (f :: Loglevel.methodFactory (logger p))
                        (f :: Loglevel.methodFactory (logger p))) p).
Proof.
  intros Hroot Hr Hlvl Hlevel Hfmt.
  rewrite (configureLogging_sets_level root c r lvl _ Hroot Hr Hlvl Hfmt n p
             Hlevel).
  destruct f, p; reflexivity.
Qed.

(** A call with a level that is supported and a format that is not. *)
Lemma configureLogging_unsupported (root : string) (c r lvl fmt : value)
    (n : Z) (p : Process) :
  read c root = Ok r ->
  nullish r = false ->
  get_prop r "logLevel" = lvl ->
  Loglevel.normalizeLevel lvl = Ok n ->
  get_prop r "logFormat" = fmt ->
  supported_format fmt = false ->
  configureLogging root c p =
  (Throw (Error ("LogFormat " ++ to_string fmt ++ " is not supported")),
   set_logger
     (Loglevel.mkLogger n (Loglevel.methodFactory (logger p))
                        (Loglevel.methodFactory (logger p))) p).
Proof.
  intros Hroot Hr Hlvl Hlevel Hfmt Hun.
  rewrite (configureLogging_default_case root c r lvl fmt Hroot Hr Hlvl Hfmt
             n p Hlevel Hun).
  destruct p; reflexivity.
Qed.

(** X7: [configureLogging] does not replace the formatter of an earlier
    call, it wraps it: after a call with format [f1] and one with format
    [f2] the logging methods go through [f2] and then [f1], on top of
    whatever was installed before, and the level is that of the second
    config. *)
Theorem configureLogging_twice_nests (root : string) (c1 r1 lvl1 : value)
    (n1 : Z) (f1 : Loglevel.LogFormat) (c2 r2 lvl2 : value) (n2 : Z)
    (f2 : Loglevel.LogFormat) (p : Process) :
  read c1 root = Ok r1 -> nullish r1 = false ->
  get_prop r1 "logLevel" = lvl1 -> Loglevel.normalizeLevel lvl1 = Ok n1 ->
  get_prop r1 "logFormat" = VString (Loglevel.LogFormat_value f1) ->
  read c2 root = Ok r2 -> nullish r2 = false ->
  get_prop r2 "logLevel" = lvl2 -> Loglevel.normalizeLevel lvl2 = Ok n2 ->
  get_prop r2 "logFormat" = VString (Loglevel.LogFormat_value f2) ->
  let p1 := snd (configureLogging root c1 p) in
  let p2 := snd (configureLogging root c2 p1) in
  Loglevel.methods (logger p2)
  = f2 :: f1 :: Loglevel.methodFactory (logger p)
  /\ Loglevel.methodFactory (logger p2)
     = f2 :: f1 :: Loglevel.methodFactory (logger p)
  /\ Loglevel.level (logger p2) = n2.
Proof.
  intros H1 H2 H3 H4 H5 H6 H7 H8 H9 H10. cbv zeta.
  rewrite (configureLogging_supported root c1 r1 lvl1 n1 f1 p H1 H2 H3 H4 H5).
  cbn [snd].
  rewrite (configureLogging_supported root c2 r2 lvl2 n2 f2 _ H6 H7 H8 H9 H10).
  repeat split; reflexivity.
Qed.

Lemma configureLogging_twice_nests_witness :
  Loglevel.methods
    (logger
       (snd (configureLogging core_root
               (config_with [] (VString "debug") (VString "simple"))
               (snd (configureLogging core_root
                       (config_with [] (VString "info") (VString "json"))
                       fresh_process)))))
  = [Loglevel.simple; Loglevel.json].
Proof.
  exact (proj1 (configureLogging_twice_nests core_root
                  (config_with [] (VString "info") (VString "json")) _
                  (VString "info") 2%Z Loglevel.json
                  (config_with [] (VString "debug") (VString "simple")) _
                  (VString "debug") 1%Z Loglevel.simple fresh_process
                  eq_refl eq_refl eq_refl eq_refl eq_refl
                  eq_refl eq_refl eq_refl eq_refl eq_refl)).
Defined.

End LoggingMore.

(** ** More on the config loader *)

Module LoaderMore.
Import Js Libs Spec Globals Examples LoaderFacts.

Section FirstLoad.
Variable root : string.
Variable host : Host.
Variable props : GlobalsServicesProps.
Variable p : Process.
Hypothesis Hfirst : configCache p = NotCalled.

Let wd : string := workingDirectory props.
Let mjs : string :=
  path_resolve host (wd ++ "/config." ++ environment props ++ "." ++ "mjs").
Let js : string :=
  path_resolve host (wd ++ "/config." ++ environment props ++ "." ++ "js").

Lemma _loadConfig_rest_effects path q :
  path <> "" ->
  effects (snd (_loadConfig_rest root host props (Some path) q))
  = (effects q ++ [Import path])%list
  /\ cwd (snd (_loadConfig_rest root host props (Some path) q)) = cwd q.
Proof.
  intros Hpath. apply String.eqb_neq in Hpath.
  unfold _loadConfig_rest. rewrite Hpath. unfold bindM, lift, ret.
  destruct (import_module host path) as [module|e]; simpl; auto.
  destruct (call_value host _ [] "func") as [config|e]; simpl; auto.
  destruct (validateConfig root config) as [[]|e]; simpl; auto.
Qed.

(** The first call of the loader, step by step. *)
Lemma loadConfig_first :
  loadConfig root host props p =
  (let p0 := emit (Chdir wd) p in
   match process_chdir host wd with
   | Throw e => (Throw e, set_configCache (Settled (Throw e)) p0)
   | Ok _ =>
       let found := find_existing host [mjs; js] (set_cwd wd p0) in
       match fst found with
       | Ok fullPath =>
           let done := _loadConfig_rest root host props fullPath
                         (set_configCache (InFlight fullPath) (snd found)) in
           (fst done, set_configCache (Settled (fst done)) (snd done))
       | Throw e =>
           (Throw e, set_configCache (Settled (Throw e)) (snd found))
       end
   end).
Proof.
  unfold loadConfig, _loadConfig_call, memoized_call. rewrite Hfirst.
  unfold _loadConfig_begin, _findConfigPath, bindM, chdir. cbn [map].
  fold wd. fold mjs. fold js. cbv zeta.
  destruct (process_chdir host wd) as [[]|e].
  - destruct (find_existing host [mjs; js] (set_cwd wd (emit (Chdir wd) p)))
      as [[fullPath|e] p1]; cbn [fst snd].
    + unfold _loadConfig_settle, memoized_settle. simpl configCache.
      cbv beta match.
      destruct (_loadConfig_rest root host props fullPath
                  (set_configCache (InFlight fullPath) p1)) as [r p2].
      reflexivity.
    + unfold _loadConfig_settle, memoized_settle. reflexivity.
  - unfold _loadConfig_settle, memoized_settle. reflexivity.
Qed.

Lemma effects_set_configCache c q : effects (set_configCache c q) = effects q.
Proof. reflexivity. Qed.

Lemma cwd_set_configCache c q : cwd (set_configCache c q) = cwd q.
Proof. reflexivity. Qed.

(** X8: the config file is looked for as [.mjs] first and as [.js] only
    when there is no [.mjs]: with both files there the [.mjs] one is
    imported and the [.js] one not even probed.  Whatever the load gives,
    the process is in the working directory afterwards when
    [process.chdir] could enter it, and where it was when it could not. *)
Theorem loadConfig_prefers_mjs :
  (fs_existsSync host mjs = true -> mjs <> "" ->
   effects (snd (loadConfig root host props p))
   = (effects p ++ [Chdir wd; ExistsSync mjs; Import mjs])%list)
  /\ (fs_existsSync host mjs = false -> fs_existsSync host js = true ->
      js <> "" ->
      effects (snd (loadConfig root host props p))
      = (effects p ++ [Chdir wd; ExistsSync mjs; ExistsSync js; Import js])%list)
  /\ ((fs_existsSync host mjs = true -> mjs <> "") ->
      (fs_existsSync host js = true -> js <> "") ->
      cwd (snd (loadConfig root host props p))
      = match process_chdir host wd with
        | Ok _ => wd
        | Throw _ => cwd p
        end).
Proof.
  rewrite loadConfig_first. cbv zeta. cbn [find_existing].
  split; [|split].
  - intros Hm Hne.
    rewrite (directory_of_file host wd _ Hm : process_chdir host wd = Ok tt).
    rewrite Hm. cbn [fst snd].
    rewrite effects_set_configCache.
    rewrite (proj1 (_loadConfig_rest_effects mjs _ Hne)).
    simpl. rewrite <- !app_assoc. reflexivity.
  - intros Hm Hj Hne.
    rewrite (directory_of_file host wd _ Hj : process_chdir host wd = Ok tt).
    rewrite Hm, Hj. cbn [fst snd].
    rewrite effects_set_configCache.
    rewrite (proj1 (_loadConfig_rest_effects js _ Hne)).
    simpl. rewrite <- !app_assoc. reflexivity.
  - intros Hm Hj.
    destruct (process_chdir host wd) as [[]|e]; [|reflexivity].
    destruct (fs_existsSync host mjs) eqn:Em.
    + cbn [fst snd]. rewrite cwd_set_configCache.
      rewrite (proj2 (_loadConfig_rest_effects mjs _ (Hm eq_refl))).
      reflexivity.
    + destruct (fs_existsSync host js) eqn:Ej.
      * cbn [fst snd]. rewrite cwd_set_configCache.
        rewrite (proj2 (_loadConfig_rest_effects js _ (Hj eq_refl))).
        reflexivity.
      * reflexivity.
Qed.

(** X9: a first load that finds no config file fails without any import,
    and touches neither the logger nor the objects.  When the working
    directory can be entered, both paths are probed, the error names the
    environment, and the process stays in the working directory.  When
    [process.chdir] throws, its error is the outcome: nothing is probed and
    the process stays where it was. *)
Theorem loadConfig_not_found :
  fs_existsSync host mjs = false ->
  fs_existsSync host js = false ->
  match process_chdir host wd with
  | Ok _ =>
      fst (loadConfig root host props p)
      = Throw (Error ("Could not find a config." ++ environment props
                      ++ " for mjs, or js."))
      /\ effects (snd (loadConfig root host props p))
         = (effects p ++ [Chdir wd; ExistsSync mjs; ExistsSync js])%list
      /\ cwd (snd (loadConfig root host props p)) = wd
  | Throw e =>
      fst (loadConfig root host props p) = Throw e
      /\ effects (snd (loadConfig root host props p))
         = (effects p ++ [Chdir wd])%list
      /\ cwd (snd (loadConfig root host props p)) = cwd p
  end
  /\ heap (snd (loadConfig root host props p)) = heap p
  /\ logger (snd (loadConfig root host props p)) = logger p.
Proof.
  intros Hm Hj. rewrite loadConfig_first. cbv zeta. cbn [find_existing].
  destruct (process_chdir host wd) as [[]|e].
  - rewrite Hm, Hj. simpl. rewrite <- !app_assoc. repeat split; reflexivity.
  - simpl. repeat split; reflexivity.
Qed.

End FirstLoad.

Lemma loadConfig_prefers_mjs_witness :
  effects (snd (loadConfig core_root
                  (host_with_module (VFunction "configFactory")
                                    (config_of_apps []))
                  props_unit_test fresh_process))
  = [Chdir "/app"; ExistsSync "/app/config.unit-test.mjs";
     Import "/app/config.unit-test.mjs"].
Proof.
  exact (proj1 (loadConfig_prefers_mjs core_root
                  (host_with_module (VFunction "configFactory")
                                    (config_of_apps []))
                  props_unit_test fresh_process eq_refl)
               eq_refl ltac:(discriminate)).
Defined.

Lemma loadConfig_not_found_witness :
  fst (loadConfig core_root host_two_apps props_unit_test fresh_process)
  = Throw (Error "Could not find a config.unit-test for mjs, or js.")
  /\ fst (loadConfig core_root host_without_directories props_unit_test
                     fresh_process)
     = Throw (Error "ENOENT: no such file or directory, chdir '/' -> '/app'").
Proof.
  split.
  - exact (proj1 (proj1 (loadConfig_not_found core_root host_two_apps
                           props_unit_test fresh_process eq_refl eq_refl
                           eq_refl))).
  - exact (proj1 (proj1 (loadConfig_not_found core_root
                           host_without_directories props_unit_test
                           fresh_process eq_refl eq_refl eq_refl))).
Defined.

Lemma _loadConfig_rest_valid root host props fullPath q config :
  fst (_loadConfig_rest root host props fullPath q) = Ok config ->
  validateConfig root config = Ok tt.
Proof.
  unfold _loadConfig_rest. destruct fullPath as [path|]; [|discriminate].
  destruct (path =? ""); [discriminate|].
  unfold bindM, lift, ret.
  destruct (import_module host path) as [module|e]; [|discriminate].
  destruct (call_value host _ [] "func") as [c|e]; [|discriminate].
  destruct (validateConfig root c) as [[]|e] eqn:E; [|discriminate].
  simpl. intros H. inversion H; subst. exact E.
Qed.

Lemma loadConfig_valid_aux root host props p :
  configCache p = NotCalled ->
  forall config,
    fst (loadConfig root host props p) = Ok config ->
    validateConfig root config = Ok tt.
Proof.
  intros Hc config Hload.
  pose proof (loadConfig_first_result root host props p Hc) as Hfirst.
  destruct (process_chdir host (workingDirectory props)) as [[]|e].
  - destruct Hfirst as [p1 E].
    rewrite E in Hload. eapply _loadConfig_rest_valid. exact Hload.
  - congruence.
Qed.

(** X12: the loader gives validated configs only: when the first load
    returns a config, [validateConfig] accepts that config, whatever the
    module exported. *)
Theorem loadConfig_returns_valid root host props p config :
  configCache p = NotCalled ->
  fst (loadConfig root host props p) = Ok config ->
  validateConfig root config = Ok tt.
Proof. intros Hc. apply loadConfig_valid_aux. exact Hc. Qed.

Lemma loadConfig_returns_valid_witness :
  validateConfig core_root (config_of_apps []) = Ok tt.
Proof.
  exact (loadConfig_returns_valid core_root
           (host_with_module (VFunction "configFactory") (config_of_apps []))
           props_unit_test fresh_process (config_of_apps [])
           eq_refl eq_refl).
Defined.

End LoaderMore.

(** ** More on the composition of the globals *)

Module GlobalsMore.
Import Js Lodash Libs Spec Schema Globals Examples JsFacts MergeFacts.
Import LoaderFacts GlobalsFacts.

Lemma set_heap_same (p : Process) : set_heap (heap p) p = p.
Proof. destruct p; reflexivity. Qed.

(** [configureLogging] touches the logger and nothing else, whether it
    returns or throws. *)
Lemma configureLogging_only_logger root c p :
  exists l, snd (configureLogging root c p) = set_logger l p.
Proof.
  unfold configureLogging, bindM, lift, log_setLevel, Loglevel.setLevel.
  destruct (read c root) as [r|e];
    [|exists (logger p); destruct p; reflexivity].
  destruct (read r "logLevel") as [lvl|e];
    [|exists (logger p); destruct p; reflexivity].
  destruct (Loglevel.normalizeLevel lvl) as [n|e];
    [|exists (logger p); destruct p; reflexivity].
  cbn [fst snd].
  destruct (read r "logFormat") as [fmt|e]; [|eexists; reflexivity].
  destruct fmt; try (eexists; reflexivity).
  destruct (s =? _); [eexists; reflexivity|].
  destruct (s =? _); [eexists; reflexivity|].
  destruct (s =? _); eexists; reflexivity.
Qed.

(** The loader touches neither the logger nor the objects. *)
Lemma loadConfig_keeps_objects root host props p :
  heap (snd (loadConfig root host props p)) = heap p
  /\ logger (snd (loadConfig root host props p)) = logger p.
Proof.
  unfold loadConfig.
  destruct (configCache p) as [|fullPath|r] eqn:Hc.
  - destruct (_loadConfig_call_first host props p Hc) as (probes & -> & _).
    destruct (process_chdir host (workingDirectory props)) as [[]|e].
    + edestruct (_loadConfig_settle_pending) as (imp & -> & _);
        [reflexivity|]. split; reflexivity.
    + rewrite _loadConfig_settle_other by (simpl; congruence).
      split; reflexivity.
  - rewrite _loadConfig_call_again by congruence.
    destruct (_loadConfig_settle_pending root host props fullPath p Hc)
      as (imp & -> & _). split; reflexivity.
  - rewrite _loadConfig_call_again by congruence.
    rewrite _loadConfig_settle_other by congruence.
    rewrite Hc. split; reflexivity.
Qed.

(** The fold over the apps touches the objects and nothing else. *)
Lemma foldApps_only_heap host cg acc apps : forall p,
  exists h, snd (foldApps host cg acc apps p) = set_heap h p.
Proof.
  induction apps as [|app apps IH]; intros p; simpl.
  - exists (heap p). rewrite set_heap_same. reflexivity.
  - unfold bindM. rewrite foldApp_eq.
    destruct (getGlobals host _ app) as [dep|e].
    + destruct (IH (set_heap (list_set (heap p) acc
                                (merge (nth acc (heap p) VUndefined) dep)) p))
        as [h ->].
      exists h. reflexivity.
    + exists (heap p). rewrite set_heap_same. reflexivity.
Qed.

Lemma merge_empty (object : value) : merge object (VObject Plain []) = object.
Proof. reflexivity. Qed.

Lemma foldApps_app host cg acc (apps1 apps2 : list value) : forall p,
  foldApps host cg acc (apps1 ++ apps2) p =
  match foldApps host cg acc apps1 p with
  | (Ok _, p') => foldApps host cg acc apps2 p'
  | (Throw e, p') => (Throw e, p')
  end.
Proof.
  induction apps1 as [|app apps1 IH]; intros p; simpl; [reflexivity|].
  unfold bindM. rewrite foldApp_eq.
  destruct (getGlobals host _ app) as [dep|e]; [apply IH|reflexivity].
Qed.

(** An app that has no [globals] gives the empty contribution. *)
Lemma getGlobals_no_globals host cg app :
  nullish app = false -> contributes app = false ->
  getGlobals host cg app = Ok (VObject Plain []).
Proof.
  intros Hn Hc. unfold getGlobals, read. rewrite Hn. simpl.
  unfold contributes in Hc. rewrite Hc. reflexivity.
Qed.

(** X13: an app without [globals] is skipped: the fold over the apps is the
    fold over those that contribute, with the same result and the same
    objects. *)
Theorem foldApps_skips_apps_without_globals host cg acc (apps : list value) :
  Forall (fun app => nullish app = false) apps ->
  forall p,
    foldApps host cg acc apps p
    = foldApps host cg acc (filter contributes apps) p.
Proof.
  induction 1 as [|app apps Happ _ IH]; intros p; [reflexivity|].
  simpl. destruct (contributes app) eqn:Hc.
  - simpl. unfold bindM. rewrite foldApp_eq.
    destruct (getGlobals host _ app) as [dep|e]; [apply IH|reflexivity].
  - unfold bindM. rewrite foldApp_eq.
    rewrite (getGlobals_no_globals host _ app Happ Hc).
    rewrite merge_empty, list_set_nth, set_heap_same. apply IH.
Qed.

Lemma foldApps_skips_apps_without_globals_witness :
  foldApps host_two_apps 0 1
    [app_named (VString "plain"); app_with_globals "app1" "app1Globals"]
    (set_heap [VObject Plain []; VObject Plain []] fresh_process)
  = foldApps host_two_apps 0 1 [app_with_globals "app1" "app1Globals"]
      (set_heap [VObject Plain []; VObject Plain []] fresh_process).
Proof.
  exact (foldApps_skips_apps_without_globals host_two_apps 0 1
           [app_named (VString "plain"); app_with_globals "app1" "app1Globals"]
           ltac:(repeat constructor)
           (set_heap [VObject Plain []; VObject Plain []] fresh_process)).
Defined.

(** X14: an app whose factory fails ends the fold: the error is that of
    the factory, the accumulator holds what the apps before it contributed,
    and the apps after it make no difference. *)
Theorem foldApps_aborts_on_failure host cg acc (pre post : list value)
    (deps : list value) (app : value) (e : exn) (p : Process) :
  cg <> acc ->
  acc < List.length (heap p) ->
  Forall2 (fun a dep =>
             getGlobals host (nth cg (heap p) VUndefined) a = Ok dep)
          pre deps ->
  getGlobals host (nth cg (heap p) VUndefined) app = Throw e ->
  foldApps host cg acc (pre ++ app :: post) p
  = (Throw e,
     set_heap (list_set (heap p) acc
                 (fold_left merge deps (nth acc (heap p) VUndefined))) p).
Proof.
  intros Hne Hacc Hpre Happ.
  rewrite foldApps_app.
  rewrite (foldApps_fold_left host cg acc Hne pre deps p Hacc Hpre).
  simpl. unfold bindM. rewrite foldApp_eq. simpl.
  rewrite nth_list_set_other by congruence. rewrite Happ. reflexivity.
Qed.

Lemma foldApps_aborts_on_failure_witness :
  foldApps host_two_apps 0 1
    [app_with_globals "app1" "app1Globals";
     app_with_globals "broken" "missingFactory";
     app_with_globals "app2" "app2Globals"]
    (set_heap [VObject Plain []; VObject Plain []] fresh_process)
  = (Throw (Error "missingFactory is not defined"),
     set_heap [VObject Plain [];
               VObject Plain [("x", VNumber 2); ("y", VNumber 3)]]
              fresh_process).
Proof.
  exact (foldApps_aborts_on_failure host_two_apps 0 1
           [app_with_globals "app1" "app1Globals"]
           [app_with_globals "app2" "app2Globals"]
           [VObject Plain [("x", VNumber 2); ("y", VNumber 3)]]
           (app_with_globals "broken" "missingFactory")
           (Error "missingFactory is not defined")
           (set_heap [VObject Plain []; VObject Plain []] fresh_process)
           ltac:(discriminate) ltac:(simpl; lia)
           ltac:(repeat constructor) eq_refl).
Defined.

Section Steps.
Variable root : string.
Variable host : Host.
Variable props : GlobalsServicesProps.

(** The config [loadGlobals] works with: the argument when it is a config,
    what the loader gives otherwise. *)
Let resolve (arg : value) : M value :=
  if isConfig root arg then ret arg else loadConfig root host props.

(** [loadGlobals], step by step, with the step it fails at. *)
Lemma loadGlobals_steps (arg : value) (p : Process) :
  loadGlobals root host props arg p =
  match resolve arg p with
  | (Throw e, pa) => (Throw e, pa)
  | (Ok config, pa) =>
      match validateConfig root config with
      | Throw e => (Throw e, pa)
      | Ok _ =>
          match configureLogging root config pa with
          | (Throw e, p0) => (Throw e, p0)
          | (Ok log, p0) =>
              let cg := List.length (heap p0) in
              let h1 := (heap p0 ++ [commonGlobals_of host props config log])%list in
              match config_apps root config with
              | Throw e => (Throw e, set_heap h1 p0)
              | Ok apps =>
                  match foldApps host cg (S cg) apps
                          (set_heap (h1 ++ [VObject Plain []]) p0) with
                  | (Throw e, p1) => (Throw e, p1)
                  | (Ok gl, p1) =>
                      (Ok cg,
                       set_heap
                         (list_set (heap p1) cg
                            (merge (nth cg (heap p1) VUndefined)
                                   (nth gl (heap p1) VUndefined))) p1)
                  end
              end
          end
      end
  end.
Proof.
  unfold loadGlobals, loadGlobals_fold, bindM, resolve.
  destruct ((if isConfig root arg then ret arg else loadConfig root host props) p)
    as [[config|e] pa]; [|reflexivity].
  unfold lift at 1.
  destruct (validateConfig root config) as [[]|e]; [|reflexivity].
  destruct (configureLogging root config pa) as [[log|e] p0]; [|reflexivity].
  unfold alloc at 1. unfold lift at 1. cbv zeta.
  destruct (config_apps root config) as [apps|e]; [|reflexivity].
  unfold alloc at 1. simpl heap. rewrite length_app. simpl List.length.
  replace (List.length (heap p0) + 1) with (S (List.length (heap p0))) by lia.
  unfold set_heap at 2. simpl.
  change (mkProcess (logger p0) (cwd p0) (configCache p0)
            ((heap p0 ++ [commonGlobals_of host props config log])
             ++ [VObject Plain []]) (effects p0))
    with (set_heap ((heap p0 ++ [commonGlobals_of host props config log])
                    ++ [VObject Plain []]) p0).
  destruct (foldApps host _ _ apps _) as [[gl|e] p1]; reflexivity.
Qed.

(** X10: given a config instead of an environment name, [loadGlobals]
    stays away from the file system, whatever becomes of the run: the
    working directory, the memo of the loader and the record of probes and
    imports are as before. *)
Theorem loadGlobals_config_no_filesystem (arg : value) (p : Process) :
  isConfig root arg = true ->
  same_outside p (snd (loadGlobals root host props arg p)).
Proof.
  intros Hcfg. rewrite loadGlobals_steps. unfold resolve. rewrite Hcfg.
  unfold ret at 1. unfold same_outside.
  destruct (validateConfig root arg) as [[]|e]; [|auto].
  destruct (configureLogging_only_logger root arg p) as [l El].
  destruct (configureLogging root arg p) as [[log|e] p0];
    simpl in El; subst p0; [|simpl; auto].
  cbv zeta.
  destruct (config_apps root arg) as [apps|e]; [|simpl; auto].
  match goal with
  | |- context [foldApps host ?cg ?acc apps ?q] =>
      destruct (foldApps_only_heap host cg acc apps q) as [h Eh];
      destruct (foldApps host cg acc apps q) as [[gl|e] p1]
  end; simpl in Eh; subst p1; simpl; auto.
Qed.

End Steps.

Lemma list_set_app_r h t k v :
  list_set (h ++ t) (List.length h + k) v = (h ++ list_set t k v)%list.
Proof. induction h as [|x h IH]; simpl; [reflexivity|]. rewrite IH. reflexivity. Qed.

Lemma nth_app_r h t k :
  nth (List.length h + k) (h ++ t) VUndefined = nth k t VUndefined.
Proof.
  rewrite app_nth2 by lia. f_equal. lia.
Qed.

Lemma nth_app_0 h x t :
  nth (List.length h) (h ++ x :: t) VUndefined = x.
Proof. rewrite app_nth2, Nat.sub_diag by lia. reflexivity. Qed.

Lemma list_set_app_0 h x t v :
  list_set (h ++ x :: t) (List.length h) v = (h ++ v :: t)%list.
Proof. induction h as [|y h IH]; simpl; [reflexivity|]. rewrite IH. reflexivity. Qed.

Section SchemaRun.
Variable root : string.
Hypothesis Hroot : namespace_ok root = true.
Variable host : Host.
Variable props : GlobalsServicesProps.
Variable cs : ConfigSpec.

Let config : value := config_value root cs.
Let context : value := commonGlobals_of host props config Loglevel.log.

Lemma schema_resolves (p : Process) :
  (if isConfig root config then ret config else loadConfig root host props) p
  = (Ok config, p).
Proof.
  unfold config.
  rewrite (ValidatorMore.validated_isConfig root _
             (ValidatorMore.config_value_validates root Hroot cs)).
  reflexivity.
Qed.

(** The run of [loadGlobals] on a config of the schema whose level and
    format are supported and whose apps all give their contribution. *)
Lemma loadGlobals_schema_eq (n : Z) (f : Loglevel.LogFormat)
    (deps : list value) (p : Process) :
  Loglevel.normalizeLevel (VString (cfg_logLevel cs)) = Ok n ->
  cfg_logFormat cs = Loglevel.LogFormat_value f ->
  Forall2 (fun a dep => getGlobals host context (app_value a) = Ok dep)
          (cfg_apps cs) deps ->
  loadGlobals root host props config p =
  (Ok (List.length (heap p)),
   set_heap (heap p ++ [merge context (fold_left merge deps (VObject Plain []));
                        fold_left merge deps (VObject Plain [])])
     (set_logger
        (Loglevel.mkLogger n (f :: Loglevel.methodFactory (logger p))
                           (f :: Loglevel.methodFactory (logger p))) p)).
Proof.
  intros Hlevel Hformat Hdeps.
  rewrite loadGlobals_steps, schema_resolves.
  unfold config at 1.
  rewrite (ValidatorMore.config_value_validates root Hroot cs).
  rewrite (LoggingMore.configureLogging_supported root config
             (root_value cs) (VString (cfg_logLevel cs)) n f p
             (ValidatorMore.read_config_root root Hroot cs)
             eq_refl eq_refl Hlevel (f_equal VString Hformat)).
  cbv zeta. unfold config at 1.
  rewrite (ValidatorMore.config_apps_config_value root Hroot cs).
  simpl heap. rewrite <- app_assoc. simpl app. fold config. fold context.
  rewrite (foldApps_fold_left host (List.length (heap p))
             (S (List.length (heap p))) (Nat.neq_succ_diag_r _)
             (map app_value (cfg_apps cs)) deps).
  - simpl heap.
    replace (S (List.length (heap p))) with (List.length (heap p) + 1) by lia.
    rewrite nth_app_r, list_set_app_r. simpl.
    rewrite nth_app_r, nth_app_0, list_set_app_0. reflexivity.
  - simpl. rewrite length_app. simpl. lia.
  - simpl heap. rewrite nth_app_0.
    clear - Hdeps. induction Hdeps; constructor; auto.
Qed.

(** X15: the whole of [loadGlobals] on a config of the schema whose log
    level and format are supported and whose apps all give their
    contribution: the call returns a new object, which is the common
    context with the contributions of the apps merged into it from left to
    right; the logger is at the level of the config with the formatter of
    the config around what was installed; and no call was made to the file
    system or the module loader. *)
Theorem loadGlobals_schema_run (n : Z) (f : Loglevel.LogFormat)
    (deps : list value) (p : Process) :
  Loglevel.normalizeLevel (VString (cfg_logLevel cs)) = Ok n ->
  cfg_logFormat cs = Loglevel.LogFormat_value f ->
  Forall2 (fun a dep => getGlobals host context (app_value a) = Ok dep)
          (cfg_apps cs) deps ->
  exists p',
    loadGlobals root host props config p = (Ok (List.length (heap p)), p')
    /\ nth (List.length (heap p)) (heap p') VUndefined
       = merge context (fold_left merge deps (VObject Plain []))
    /\ logger p'
       = Loglevel.mkLogger n (f :: Loglevel.methodFactory (logger p))
                           (f :: Loglevel.methodFactory (logger p))
    /\ effects p' = effects p.
Proof.
  intros Hlevel Hformat Hdeps. eexists.
  split; [apply (loadGlobals_schema_eq n f deps p Hlevel Hformat Hdeps)|].
  simpl. rewrite nth_app_0. repeat split; reflexivity.
Qed.

(** X16: the validator lets any string pass as the log format, so a config
    of the schema with a format that is not supported gets as far as
    [configureLogging]: [loadGlobals] throws the error naming the format,
    with the level of the logger already set and no object created. *)
Theorem loadGlobals_schema_unsupported_format (n : Z) (p : Process) :
  Loglevel.normalizeLevel (VString (cfg_logLevel cs)) = Ok n ->
  supported_format (VString (cfg_logFormat cs)) = false ->
  validateConfig root config = Ok tt
  /\ loadGlobals root host props config p =
     (Throw (Error ("LogFormat " ++ cfg_logFormat cs ++ " is not supported")),
      set_logger
        (Loglevel.mkLogger n (Loglevel.methodFactory (logger p))
                           (Loglevel.methodFactory (logger p))) p).
Proof.
  intros Hlevel Hun.
  split; [apply (ValidatorMore.config_value_validates root Hroot cs)|].
  rewrite loadGlobals_steps, schema_resolves.
  unfold config at 1.
  rewrite (ValidatorMore.config_value_validates root Hroot cs).
  rewrite (LoggingMore.configureLogging_unsupported root config
             (root_value cs) (VString (cfg_logLevel cs))
             (VString (cfg_logFormat cs)) n p
             (ValidatorMore.read_config_root root Hroot cs)
             eq_refl eq_refl Hlevel eq_refl Hun).
  reflexivity.
Qed.

(** X17: when no app of the config has [globals] (and so when there are no
    apps), what [loadGlobals] returns is the common context as it was
    built: the config, the logger, the node services and the constants,
    and nothing else. *)
Theorem loadGlobals_schema_no_contribution (n : Z) (f : Loglevel.LogFormat)
    (p : Process) :
  Loglevel.normalizeLevel (VString (cfg_logLevel cs)) = Ok n ->
  cfg_logFormat cs = Loglevel.LogFormat_value f ->
  Forall (fun a => app_create a = None) (cfg_apps cs) ->
  exists p',
    loadGlobals root host props config p = (Ok (List.length (heap p)), p')
    /\ nth (List.length (heap p)) (heap p') VUndefined
       = VObject Plain [("config", config);
                        ("log", Loglevel.log);
                        ("node", getNodeServices host props);
                        ("constants", getConstants props)].
Proof.
  intros Hlevel Hformat Hnone.
  eexists. split.
  - apply (loadGlobals_schema_eq n f (map (fun _ => VObject Plain []) (cfg_apps cs))
             p Hlevel Hformat).
    induction Hnone as [|a apps Ha _ IH]; simpl; constructor; [|exact IH].
    unfold app_value. rewrite Ha. reflexivity.
  - simpl heap. rewrite nth_app_0.
    replace (fold_left merge (map (fun _ => VObject Plain []) (cfg_apps cs))
               (VObject Plain [])) with (VObject Plain []).
    + reflexivity.
    + clear. induction (cfg_apps cs); simpl; auto.
Qed.

End SchemaRun.

Section Abort.
Variable root : string.
Variable host : Host.
Variable props : GlobalsServicesProps.

(** X19: the argument of [loadGlobals] matters only as a config: any two
    arguments that are not configs, two environment names say, give the
    same run, since the loader takes the environment from the services and
    not from the argument. *)
Theorem loadGlobals_ignores_environment_name (a1 a2 : value) (p : Process) :
  isConfig root a1 = false ->
  isConfig root a2 = false ->
  loadGlobals root host props a1 p = loadGlobals root host props a2 p.
Proof.
  intros H1 H2. rewrite !loadGlobals_steps. rewrite H1, H2. reflexivity.
Qed.

(** X20: loading by name is loading and then composing: when the first
    load gives a config, [loadGlobals] with an environment name does what
    [loadGlobals] with that config does in the process the load leaves;
    when the load fails, its error is the outcome and neither the logger
    nor any object is touched. *)
Theorem loadGlobals_by_name (env : string) (p : Process) :
  configCache p = NotCalled ->
  match loadConfig root host props p with
  | (Ok config, pa) =>
      loadGlobals root host props (VString env) p
      = loadGlobals root host props config pa
  | (Throw e, pa) =>
      loadGlobals root host props (VString env) p = (Throw e, pa)
      /\ heap pa = heap p /\ logger pa = logger p
  end.
Proof.
  intros Hc.
  pose proof (LoaderMore.loadConfig_valid_aux root host props p Hc) as Hvalid.
  pose proof (loadConfig_keeps_objects root host props p) as Hkeep.
  rewrite loadGlobals_steps.
  change (isConfig root (VString env)) with false. cbv beta match.
  destruct (loadConfig root host props p) as [[config|e] pa].
  - rewrite loadGlobals_steps.
    rewrite (ValidatorMore.validated_isConfig root config (Hvalid config eq_refl)).
    reflexivity.
  - simpl in Hkeep. destruct Hkeep. auto.
Qed.

(** X18: a config that does not validate stops [loadGlobals] before
    anything is done: the error is the validator's and the process is as
    it was, logger included. *)
Theorem loadGlobals_invalid_config (arg : value) (e : exn) (p : Process) :
  isConfig root arg = true ->
  validateConfig root arg = Throw e ->
  loadGlobals root host props arg p = (Throw e, p).
Proof.
  intros Hcfg Hinvalid. rewrite loadGlobals_steps. unfold ret.
  rewrite Hcfg, Hinvalid. reflexivity.
Qed.

End Abort.

Lemma loadGlobals_schema_run_witness :
  exists p',
    loadGlobals core_root host_two_apps props_unit_test
      (config_value core_root
         (sample_config [mkApp "app1" (Some "app1Globals");
                         mkApp "app2" (Some "app2Globals")] "json"))
      fresh_process = (Ok 0, p')
    /\ get_prop (nth 0 (heap p') VUndefined) "x" = VNumber 1
    /\ get_prop (nth 0 (heap p') VUndefined) "y" = VNumber 3.
Proof.
  destruct (loadGlobals_schema_run core_root eq_refl host_two_apps
              props_unit_test
              (sample_config [mkApp "app1" (Some "app1Globals");
                              mkApp "app2" (Some "app2Globals")] "json")
              2%Z Loglevel.json
              [VObject Plain [("x", VNumber 2); ("y", VNumber 3)];
               VObject Plain [("x", VNumber 1)]]
              fresh_process eq_refl eq_refl
              ltac:(repeat constructor))
    as (p' & Hrun & Hrec & _).
  exists p'. split; [exact Hrun|].
  simpl in Hrec. rewrite Hrec. split; reflexivity.
Defined.

Lemma loadGlobals_schema_unsupported_format_witness :
  loadGlobals core_root host_two_apps props_unit_test
    (config_value core_root (sample_config [] "xml")) fresh_process
  = (Throw (Error "LogFormat xml is not supported"),
     set_logger (Loglevel.mkLogger 2 [] []) fresh_process).
Proof.
  exact (proj2 (loadGlobals_schema_unsupported_format core_root eq_refl
                  host_two_apps props_unit_test (sample_config [] "xml")
                  2%Z fresh_process eq_refl eq_refl)).
Defined.

Lemma loadGlobals_schema_no_contribution_witness :
  exists p',
    loadGlobals core_root host_two_apps props_unit_test
      (config_value core_root (sample_config [mkApp "plain" None] "simple"))
      fresh_process = (Ok 0, p')
    /\ nth 0 (heap p') VUndefined
       = commonGlobals_of host_two_apps props_unit_test
           (config_value core_root
              (sample_config [mkApp "plain" None] "simple"))
           Loglevel.log.
Proof.
  exact (loadGlobals_schema_no_contribution core_root eq_refl host_two_apps
           props_unit_test (sample_config [mkApp "plain" None] "simple")
           2%Z Loglevel.simple fresh_process eq_refl eq_refl
           ltac:(repeat constructor)).
Defined.

Lemma loadGlobals_invalid_config_witness :
  loadGlobals core_root host_two_apps props_unit_test
    (config_of_apps [app_unnamed]) fresh_process
  = (Throw (Error "A configured app does not have a name."), fresh_process).
Proof.
  exact (loadGlobals_invalid_config core_root host_two_apps props_unit_test
           (config_of_apps [app_unnamed])
           (Error "A configured app does not have a name.") fresh_process
           eq_refl eq_refl).
Defined.

Lemma loadGlobals_ignores_environment_name_witness :
  loadGlobals core_root
    (host_with_module (VFunction "configFactory") (config_of_apps []))
    props_unit_test (VString "production") fresh_process
  = loadGlobals core_root
      (host_with_module (VFunction "configFactory") (config_of_apps []))
      props_unit_test (VString "unit-test") fresh_process.
Proof.
  exact (loadGlobals_ignores_environment_name core_root
           (host_with_module (VFunction "configFactory") (config_of_apps []))
           props_unit_test (VString "production") (VString "unit-test")
           fresh_process eq_refl eq_refl).
Defined.

Lemma loadGlobals_by_name_witness :
  match loadConfig core_root
          (host_with_module (VFunction "configFactory") (config_of_apps []))
          props_unit_test fresh_process with
  | (Ok config, pa) =>
      loadGlobals core_root
        (host_with_module (VFunction "configFactory") (config_of_apps []))
        props_unit_test (VString "unit-test") fresh_process
      = loadGlobals core_root
          (host_with_module (VFunction "configFactory") (config_of_apps []))
          props_unit_test config pa
  | (Throw e, pa) =>
      loadGlobals core_root
        (host_with_module (VFunction "configFactory") (config_of_apps []))
        props_unit_test (VString "unit-test") fresh_process = (Throw e, pa)
      /\ heap pa = heap fresh_process /\ logger pa = logger fresh_process
  end.
Proof.
  exact (loadGlobals_by_name core_root
           (host_with_module (VFunction "configFactory") (config_of_apps []))
           props_unit_test "unit-test" fresh_process eq_refl).
Defined.

Lemma loadGlobals_config_no_filesystem_witness :
  same_outside fresh_process
    (snd (loadGlobals core_root host_two_apps props_unit_test two_apps
            fresh_process)).
Proof.
  exact (loadGlobals_config_no_filesystem core_root host_two_apps
           props_unit_test two_apps fresh_process eq_refl).
Defined.

End GlobalsMore.

(** ** More on libs.ts and the services *)

Module LibsMore.
Import Js Lodash Libs Spec Schema Globals Examples JsFacts MergeFacts.
Import LogLevels.

Lemma append_inj_l (p a b : string) : p ++ a = p ++ b -> a = b.
Proof.
  induction p as [|c p IH]; simpl; intros H; [exact H|].
  inversion H. auto.
Qed.

(** X21: [getNamespace] gives the package name itself exactly when there is
    no app or the app is the empty string, and the package name, a slash
    and the app otherwise; two different apps of one package never get the
    same namespace. *)
Theorem getNamespace_spec (packageName : string) :
  (forall app, getNamespace packageName app = packageName
               <-> (app = None \/ app = Some ""))
  /\ (forall a, a <> "" ->
                getNamespace packageName (Some a) = packageName ++ "/" ++ a)
  /\ (forall a b, a <> "" -> b <> "" ->
                  getNamespace packageName (Some a)
                  = getNamespace packageName (Some b) -> a = b).
Proof.
  assert (Hsome : forall a, a <> "" ->
            getNamespace packageName (Some a) = packageName ++ "/" ++ a).
  { intros a Ha. unfold getNamespace. apply String.eqb_neq in Ha.
    rewrite Ha. reflexivity. }
  split; [|split; [exact Hsome|]].
  - intros [a|]; [|split; auto].
    destruct (String.eqb_spec a "") as [->|Ha].
    + split; [auto|reflexivity].
    + rewrite (Hsome a Ha). split.
      * intros H. apply (f_equal String.length) in H.
        rewrite ValidatorMore.append_length in H. simpl in H. lia.
      * intros [H|H]; [discriminate|]. inversion H. contradiction.
  - intros a b Ha Hb H. rewrite (Hsome a Ha), (Hsome b Hb) in H.
    apply append_inj_l in H. inversion H. reflexivity.
Qed.

(** X22: when the six members of [LogLevel] are different numbers,
    [getLogLevelName] gives each member its own name, different levels get
    different names, and every other number throws the error that shows
    the number. *)
Theorem getLogLevelName_members (L : LogLevel) :
  NoDup (map snd (members L)) ->
  (forall name n, In (name, n) (members L) -> getLogLevelName L n = Ok name)
  /\ (forall n m name, getLogLevelName L n = Ok name ->
                       getLogLevelName L m = Ok name -> n = m)
  /\ (forall n, ~ In n (map snd (members L)) ->
                getLogLevelName L n
                = Throw (Error ("Unhandled log level "
                                ++ to_string (VNumber n)))).
Proof.
  intros Hnd.
  assert (Hdist : forall name n, In (name, n) (members L) ->
                    getLogLevelName L n = Ok name).
  { simpl in Hnd.
    repeat match goal with
           | H : NoDup (_ :: _) |- _ => inversion H; clear H; subst
           end.
    simpl in *.
    intros name n Hin. unfold getLogLevelName.
    repeat (destruct Hin as [Hin|Hin];
            [inversion Hin; subst; clear Hin|]); try contradiction;
      rewrite ?Z.eqb_refl;
      repeat match goal with
             | |- context [(?a =? ?b)%Z] =>
                 destruct (Z.eqb_spec a b); [exfalso; intuition congruence|]
             end; reflexivity. }
  split; [exact Hdist|]. split.
  - intros n m name Hn Hm. unfold getLogLevelName in Hn, Hm.
    repeat match type of Hn with
           | context [(?a =? ?b)%Z] => destruct (Z.eqb_spec a b)
           end;
    repeat match type of Hm with
           | context [(?a =? ?b)%Z] => destruct (Z.eqb_spec a b)
           end; congruence.
  - intros n Hn. unfold getLogLevelName. simpl in Hn.
    repeat match goal with
           | |- context [(?a =? ?b)%Z] =>
               destruct (Z.eqb_spec a b); [exfalso; intuition congruence|]
           end. reflexivity.
Qed.

Lemma getLogLevelName_members_witness :
  getLogLevelName loglevel_numbers 2 = Ok "INFO"
  /\ getLogLevelName loglevel_numbers 7
     = Throw (Error "Unhandled log level 7").
Proof.
  assert (Hnd : NoDup (map snd (members loglevel_numbers))).
  { repeat constructor; simpl; intuition discriminate. }
  destruct (getLogLevelName_members loglevel_numbers Hnd) as (H1 & _ & H3).
  split.
  - apply H1. simpl. auto.
  - apply (H3 7%Z). simpl. intuition discriminate.
Defined.

(** X23: the node services are the file system module with the overrides
    of the caller merged over it: without overrides they are [{fs}] alone;
    with a record of overrides, a leaf of the overrides is what the
    services have at its key, and [fs] is the module of the host unless the
    overrides have an [fs] of their own that is not [undefined]. *)
Theorem getNodeServices_overrides (host : Host) (props : GlobalsServicesProps) :
  (nodeOverrides props = None ->
   getNodeServices host props = VObject Plain [("fs", nodeFS host)])
  /\ (forall o,
        nodeOverrides props = Some o -> is_record o ->
        is_record (getNodeServices host props)
        /\ (forall key v, own o key = Some v -> is_leaf_at key v = true ->
                          get_prop (getNodeServices host props) key = v)
        /\ (own o "fs" = None \/ own o "fs" = Some VUndefined ->
            get_prop (getNodeServices host props) "fs" = nodeFS host)).
Proof.
  split.
  - intros H. unfold getNodeServices. rewrite H. reflexivity.
  - intros o H Ho. unfold getNodeServices. rewrite H.
    assert (Ht : truthy o = true).
    { destruct Ho as (k & ps & -> & _). reflexivity. }
    rewrite Ht.
    assert (Hfs : is_record (VObject Plain [("fs", nodeFS host)])).
    { eexists _, _. split; [reflexivity|]. repeat constructor. simpl. tauto. }
    destruct (merge_records (VObject Plain [("fs", nodeFS host)]) o Hfs Ho)
      as (Hrec & Hleaf & Hundef & Hkeep & _).
    split; [exact Hrec|]. split; [exact Hleaf|].
    intros [Hnone|Hu].
    + rewrite (Hkeep "fs" Hnone). reflexivity.
    + rewrite (Hundef "fs" Hu eq_refl). reflexivity.
Qed.

Lemma getNodeServices_overrides_witness :
  get_prop (getNodeServices host_two_apps
              (mkProps "unit-test" "/app"
                       (Some (VObject Plain [("http", VFunction "httpGet")]))))
           "fs" = nodeFS host_two_apps.
Proof.
  refine (proj2 (proj2 (proj2 (getNodeServices_overrides host_two_apps
            (mkProps "unit-test" "/app"
                     (Some (VObject Plain [("http", VFunction "httpGet")]))))
            _ eq_refl _)) (or_introl eq_refl)).
  eexists _, _. split; [reflexivity|]. repeat constructor. simpl. tauto.
Defined.

End LibsMore.
